(** * zi-wi: the interpretation-request orchestration layer

    A shallow embedding of the TypeScript modules
    - [src/lib/retry.ts]      (retry executor, error classes),
    - [src/lib/llm.ts]        (OpenAI call, model fallback, [callLLM]),
    - [src/lib/cache.ts]      (LRU cache with TTL, cache keys),
    - [src/lib/rateLimit.ts]  (fixed-window rate limiter),
    - [src/app/api/interpret/route.ts] (the [POST] handler),
    and the properties of the specification proved or refuted on them.

    Conventions.  [Date.now()] is an explicit argument [now : Z]
    (milliseconds).  Asynchronous operations are state transformers over
    an abstract outside world; an awaited promise is described by how it
    settles and after how many milliseconds.  JavaScript [Map]s whose
    iteration order matters are association lists in insertion order; the
    rate-limit store, whose order never matters, is a [gmap]. *)

From Stdlib Require Import ZArith QArith Qminmax Qround Qpower Bool Ascii String List Lia.
From Stdlib Require Import OrderedTypeEx.
From stdpp Require Import gmap strings list sorting pretty.

Local Open Scope Z_scope.

(** ** JavaScript helpers *)

(** [s.includes(needle)] on strings. *)
Fixpoint includes (needle s : string) : bool :=
  String.prefix needle s ||
  match s with
  | EmptyString => false
  | String _ rest => includes needle rest
  end.

(** [a || b] on strings: the empty string is falsy. *)
Definition str_or (a : option string) (b : string) : string :=
  match a with
  | Some (String c r) => String c r
  | _ => b
  end.

(** * src/lib/retry.ts *)

Module Retry.

(** Values that the modelled code throws.  [RateLimitError] extends
    [RetryableError]; [StatusError] is an [Error] carrying an own
    [statusCode] property; [UndefinedValue] is what [throw lastError]
    throws when no attempt was made.  A [retryAfter] of [None] stands for
    [undefined] or [NaN]: both are falsy in [calculateBackoff]. *)
Inductive js_error : Type :=
| RetryableError (message : string) (statusCode : option Z) (retryAfter : option Z)
| RateLimitError (retryAfter : option Z)
| APIError (message : string) (statusCode : Z) (code : option string) (retryable : bool)
| StatusError (message : string) (statusCode : Z)
| TypeError (message : string)
| PlainError (message : string)
| OtherValue
| UndefinedValue.

Definition RateLimitError_message : string := "請求過於頻繁，請稍後再試".

(** [error instanceof Error]. *)
Definition instanceofError (e : js_error) : bool :=
  match e with
  | OtherValue | UndefinedValue => false
  | _ => true
  end.

Definition instanceofRetryableError (e : js_error) : bool :=
  match e with
  | RetryableError _ _ _ | RateLimitError _ => true
  | _ => false
  end.

Definition instanceofRateLimitError (e : js_error) : bool :=
  match e with
  | RateLimitError _ => true
  | _ => false
  end.

Definition instanceofAPIError (e : js_error) : bool :=
  match e with
  | APIError _ _ _ _ => true
  | _ => false
  end.

(** [error.message] for instances of [Error]. *)
Definition error_message (e : js_error) : string :=
  match e with
  | RetryableError m _ _ => m
  | RateLimitError _ => RateLimitError_message
  | APIError m _ _ _ => m
  | StatusError m _ => m
  | TypeError m => m
  | PlainError m => m
  | OtherValue | UndefinedValue => ""
  end.

(** [error.retryAfter] for instances of [RetryableError]. *)
Definition error_retryAfter (e : js_error) : option Z :=
  match e with
  | RetryableError _ _ r => r
  | RateLimitError r => r
  | _ => None
  end.

Record RetryConfig : Type := {
  maxRetries : Z;
  initialDelayMs : Q;
  maxDelayMs : Q;
  backoffMultiplier : Q;
  timeoutMs : option Z
}.

Definition DEFAULT_RETRY_CONFIG : RetryConfig := {|
  maxRetries := 3;
  initialDelayMs := 1000;
  maxDelayMs := 10000;
  backoffMultiplier := 2;
  timeoutMs := Some 30000
|}.

(** [Partial<RetryConfig>]: an absent property is [None]. *)
Record PartialRetryConfig : Type := {
  p_maxRetries : option Z;
  p_initialDelayMs : option Q;
  p_maxDelayMs : option Q;
  p_backoffMultiplier : option Q;
  p_timeoutMs : option (option Z)
}.

Definition no_overrides : PartialRetryConfig :=
  {| p_maxRetries := None; p_initialDelayMs := None; p_maxDelayMs := None;
     p_backoffMultiplier := None; p_timeoutMs := None |}.

(** [{ ...DEFAULT_RETRY_CONFIG, ...config }]. *)
Definition fullConfig (config : PartialRetryConfig) : RetryConfig := {|
  maxRetries := default (maxRetries DEFAULT_RETRY_CONFIG) (p_maxRetries config);
  initialDelayMs := default (initialDelayMs DEFAULT_RETRY_CONFIG) (p_initialDelayMs config);
  maxDelayMs := default (maxDelayMs DEFAULT_RETRY_CONFIG) (p_maxDelayMs config);
  backoffMultiplier :=
    default (backoffMultiplier DEFAULT_RETRY_CONFIG) (p_backoffMultiplier config);
  timeoutMs := default (timeoutMs DEFAULT_RETRY_CONFIG) (p_timeoutMs config)
|}.

(** [Math.pow(b, n)] for a loop index [n >= 0]. *)
Definition pow_index (b : Q) (n : Z) : Q := Qpower b n.

(** [isRetryableError]. *)
Definition isRetryableError (error : js_error) : bool :=
  match error with
  | RetryableError _ _ _ | RateLimitError _ => true
  | APIError _ _ _ retryable => retryable
  | StatusError _ statusCode =>
      (500 <=? statusCode) || (statusCode =? 429) || (statusCode =? 408)
  | TypeError message => includes "fetch" message
  | PlainError _ | OtherValue | UndefinedValue => false
  end.

(** How an awaited promise settles: fulfilled or rejected after
    [elapsed] milliseconds, or never. *)
Inductive settle (T : Type) : Type :=
| Resolves (elapsed : Z) (value : T)
| Rejects (elapsed : Z) (reason : js_error)
| Pending.
Arguments Resolves {T}.
Arguments Rejects {T}.
Arguments Pending {T}.

(** What one [try] block of the loop observes. *)
Inductive attempt_result (T : Type) : Type :=
| AttemptValue (value : T)
| AttemptError (error : js_error)
| AttemptNever.
Arguments AttemptValue {T}.
Arguments AttemptError {T}.
Arguments AttemptNever {T}.

Definition TIMEOUT_MESSAGE : string := "請求超時".

(** [setTimeout] clamps its delay to at least one millisecond. *)
Definition timer_delay (ms : Z) : Z := Z.max 1 ms.

(** The body of the [try]: with a truthy [timeoutMs] the operation races
    a timer that rejects with [new Error('請求超時')]; the operation wins
    when it settles strictly before the timer.  Otherwise the operation
    is awaited alone. *)
Definition attempt_once {T} (timeout : option Z) (s : settle T) : attempt_result T :=
  match timeout with
  | Some ms =>
      if ms =? 0 then
        match s with
        | Resolves _ v => AttemptValue v
        | Rejects _ e => AttemptError e
        | Pending => AttemptNever
        end
      else
        match s with
        | Resolves d v =>
            if d <? timer_delay ms then AttemptValue v
            else AttemptError (PlainError TIMEOUT_MESSAGE)
        | Rejects d e =>
            if d <? timer_delay ms then AttemptError e
            else AttemptError (PlainError TIMEOUT_MESSAGE)
        | Pending => AttemptError (PlainError TIMEOUT_MESSAGE)
        end
  | None =>
      match s with
      | Resolves _ v => AttemptValue v
      | Rejects _ e => AttemptError e
      | Pending => AttemptNever
      end
  end.

(** The result of a call of an [async] function. *)
Inductive outcome (T : Type) : Type :=
| Returned (value : T)
| Threw (error : js_error)
| Hangs.
Arguments Returned {T}.
Arguments Threw {T}.
Arguments Hangs {T}.

(** A run of [withRetry]: its result, how many times [fn] was invoked
    (a ghost counter), and the world afterwards. *)
Record run (W T : Type) : Type := {
  result : outcome T;
  invocations : nat;
  world : W
}.
Arguments result {W T}.
Arguments invocations {W T}.
Arguments world {W T}.

Section WithRetry.
Context {W T : Type}.
(** [Math.random()] and [await delay(ms)] act on the world. *)
Variable random : W -> Q * W.
Variable delay : Q -> W -> W.
(** The operation [fn]. *)
Variable fn : W -> settle T * W.

(** [calculateBackoff]: the delay and the world after it, since the
    exponential branch draws [Math.random()].  Delays are rationals: the
    rounding of IEEE doubles is not modelled. *)
Definition calculateBackoff (attempt : Z) (config : RetryConfig)
    (retryAfter : option Z) (w : W) : Q * W :=
  let exponential :=
    let exponentialDelay :=
      (initialDelayMs config * pow_index (backoffMultiplier config) attempt)%Q in
    let '(rnd, w') := random w in
    let jitter := (rnd * (3 # 10) * exponentialDelay)%Q in
    (Qmin (exponentialDelay + jitter)%Q (maxDelayMs config), w') in
  match retryAfter with
  | Some r =>
      if 0 <? r then (Qmin (inject_Z (r * 1000)) (maxDelayMs config), w)
      else exponential
  | None => exponential
  end.

(** The [for] loop of [withRetry]; [fuel] bounds the iterations left. *)
Fixpoint retry_loop (cfg : RetryConfig) (fuel : nat) (attempt : Z)
    (lastError : js_error) (calls : nat) (w : W) : run W T :=
  match fuel with
  | O => {| result := Threw lastError; invocations := calls; world := w |}
  | S fuel' =>
      if attempt <=? maxRetries cfg then
        let '(s, w1) := fn w in
        match attempt_once (timeoutMs cfg) s with
        | AttemptValue v =>
            {| result := Returned v; invocations := S calls; world := w1 |}
        | AttemptNever =>
            {| result := Hangs; invocations := S calls; world := w1 |}
        | AttemptError error =>
            if (maxRetries cfg <=? attempt) || negb (isRetryableError error) then
              {| result := Threw error; invocations := S calls; world := w1 |}
            else
              let retryAfter :=
                if instanceofRetryableError error then error_retryAfter error else None in
              let '(delayMs, w2) := calculateBackoff attempt cfg retryAfter w1 in
              retry_loop cfg fuel' (attempt + 1) error (S calls) (delay delayMs w2)
        end
      else {| result := Threw lastError; invocations := calls; world := w |}
  end.

(** [withRetry(fn, config)].  The loop runs for [attempt = 0 ..
    maxRetries], so [maxRetries + 1] iterations suffice. *)
Definition withRetry (config : PartialRetryConfig) (w : W) : run W T :=
  let cfg := fullConfig config in
  retry_loop cfg (Z.to_nat (maxRetries cfg + 1)) 0 UndefinedValue O w.

End WithRetry.

(** [APIErrorResponse]; an absent optional property is [None]. *)
Record APIErrorResponse : Type := {
  er_error : string;
  er_code : option string;
  er_retryable : bool;
  er_retryAfter : option Z;
  er_timestamp : string
}.

Definition DEFAULT_ERROR_MESSAGE : string := "發生錯誤，請稍後再試".

(** [createErrorResponse(error, defaultMessage)]; [timestamp] is
    [new Date().toISOString()]. *)
Definition createErrorResponse (error : js_error) (defaultMessage : option string)
    (timestamp : string) : APIErrorResponse :=
  let fallback := default DEFAULT_ERROR_MESSAGE defaultMessage in
  match error with
  | RateLimitError retryAfter =>
      {| er_error := RateLimitError_message; er_code := Some "RATE_LIMIT";
         er_retryable := true; er_retryAfter := retryAfter; er_timestamp := timestamp |}
  | APIError message _ code retryable =>
      {| er_error := message; er_code := code; er_retryable := retryable;
         er_retryAfter := None; er_timestamp := timestamp |}
  | RetryableError message _ retryAfter =>
      {| er_error := message; er_code := Some "RETRYABLE_ERROR";
         er_retryable := true; er_retryAfter := retryAfter; er_timestamp := timestamp |}
  | StatusError message _ | TypeError message | PlainError message =>
      {| er_error := str_or (Some message) fallback; er_code := Some "UNKNOWN_ERROR";
         er_retryable := false; er_retryAfter := None; er_timestamp := timestamp |}
  | OtherValue | UndefinedValue =>
      {| er_error := fallback; er_code := Some "UNKNOWN_ERROR";
         er_retryable := false; er_retryAfter := None; er_timestamp := timestamp |}
  end.

End Retry.

(** * JSON values

    Numbers are integers: no claim involves a fractional number, and the
    decimal printing of IEEE doubles is not modelled.  An object is the
    list of its own enumerable properties in insertion order. *)

Module Json.

#[warnings="-register-all"]
Inductive json : Type :=
| JNull
| JBool (b : bool)
| JNum (z : Z)
| JStr (s : string)
| JArr (items : list json)
| JObj (props : list (string * json)).

(** JavaScript truthiness. *)
Definition truthy (v : json) : bool :=
  match v with
  | JNull => false
  | JBool b => b
  | JNum z => negb (z =? 0)
  | JStr s => negb (String.eqb s "")
  | JArr _ | JObj _ => true
  end.

(** [o[k]] on the property list of an object: the first binding of [k]. *)
Fixpoint lookup_prop (k : string) (props : list (string * json)) : option json :=
  match props with
  | [] => None
  | (k', v) :: rest => if String.eqb k k' then Some v else lookup_prop k rest
  end.

(** [Object.keys(o)] in insertion order.  (JavaScript lists integer-like
    keys first; the one use of [keys] sorts the result.) *)
Definition keys (props : list (string * json)) : list string := map fst props.

End Json.

(** * src/lib/types.ts *)

Module Types.
Import Json.

Inductive FortuneScope : Type := natal | decade | year | month | day.

Definition FortuneScope_string (s : FortuneScope) : string :=
  match s with
  | natal => "natal"
  | decade => "decade"
  | year => "year"
  | month => "month"
  | day => "day"
  end.

Record Star : Type := { star_name : string; star_type : string }.

Record Palace : Type := {
  palace_name : string;
  branch : string;
  stem : string;
  mainStars : list Star;
  minorStars : list Star
}.

Record Astrolabe : Type := {
  chartId : string;
  name : option string;
  gender : string;
  birthDate : string;
  birthTime : string;
  timezone : string;
  palaces : list Palace;
  originalData : option json
}.

(** The fields of [FortuneData] that the request path reads. *)
Record FortuneData : Type := {
  f_scope : FortuneScope;
  f_decadeRange : option (Z * Z);
  f_year : option Z;
  f_month : option Z;
  f_day : option Z
}.

(** [InterpretResult].  The declared type of the text fields is
    [string], but [parseLLMResponse] copies whatever truthy value the
    model's JSON holds, so a field is a JSON value. *)
Record InterpretResult : Type := {
  life : json;
  siblings : json;
  marriage : json;
  children : json;
  wealth : json;
  health : json;
  travel : json;
  friends : json;
  career : json;
  property : json;
  fortune : json;
  parents : json;
  summary : json;
  todayAdvice : list json;
  todayTodo : list json;
  todayAvoid : list json
}.

End Types.

(** * src/lib/llm.ts *)

Module LLM.
Import Retry Json Types.

(** The part of an HTTP response of the OpenAI endpoint that the code
    reads.  [errorMessage] and [errorCode] are [errorData.error?.message]
    and [errorData.error?.code] of a failed response ([None] when absent
    or when the body is not JSON); [body] is the parsed body of a
    successful response: [None] when [response.json()] throws (or yields
    [null], so that reading [data.choices] throws: a plain, non-retryable
    error either way), otherwise [data.choices?.[0]?.message?.content]. *)
Record http_response : Type := {
  status : Z;
  retryAfterHeader : option string;
  errorMessage : option string;
  errorCode : option string;
  body : option (option string)
}.

(** [response.ok]. *)
Definition response_ok (r : http_response) : bool :=
  (200 <=? status r) && (status r <=? 299).

Definition is_space (c : ascii) : bool :=
  match c with
  | " "%char | "009"%char | "010"%char | "011"%char | "012"%char | "013"%char => true
  | _ => false
  end.

Definition digit_value (c : ascii) : option Z :=
  let n := Z.of_nat (nat_of_ascii c) in
  if (48 <=? n) && (n <=? 57) then Some (n - 48) else None.

Fixpoint parse_digits (acc : option Z) (s : string) : option Z :=
  match s with
  | EmptyString => acc
  | String c rest =>
      match digit_value c with
      | Some d => parse_digits (Some (default 0 acc * 10 + d)) rest
      | None => acc
      end
  end.

Fixpoint skip_spaces (s : string) : string :=
  match s with
  | String c rest => if is_space c then skip_spaces rest else s
  | EmptyString => s
  end.

(** [parseInt(s)] in base ten: leading white space, an optional sign, the
    longest run of digits; [None] is [NaN]. *)
Definition parseInt (s : string) : option Z :=
  match skip_spaces s with
  | String "-"%char rest => Z.opp <$> parse_digits None rest
  | String "+"%char rest => parse_digits None rest
  | rest => parse_digits None rest
  end.

Record LLMConfig : Type := {
  apiKey : string;
  model : string;
  maxTokens : Z;
  temperature : Q;
  timeoutMs : Z
}.

Definition MODEL_FALLBACK_ORDER : list string := ["gpt-4o-mini"; "gpt-3.5-turbo"].

(** [process.env]. *)
Record Env : Type := {
  OPENAI_API_KEY : option string;
  OPENAI_MODEL : option string
}.

Definition getLLMConfig (env : Env) : LLMConfig := {|
  apiKey := str_or (OPENAI_API_KEY env) "";
  model := str_or (OPENAI_MODEL env) "gpt-4o-mini";
  maxTokens := 4096;
  temperature := 7 # 10;
  timeoutMs := 30000
|}.

Definition ABORT_MESSAGE : string := "This operation was aborted".

(** [fetchWithTimeout]: the request is aborted when the timer fires
    before [fetch] settles. *)
Definition fetchWithTimeout {R} (s : settle R) (timeoutMs : Z) : settle R :=
  match s with
  | Resolves d r =>
      if d <? timer_delay timeoutMs then Resolves d r
      else Rejects (timer_delay timeoutMs) (PlainError ABORT_MESSAGE)
  | Rejects d e =>
      if d <? timer_delay timeoutMs then Rejects d e
      else Rejects (timer_delay timeoutMs) (PlainError ABORT_MESSAGE)
  | Pending => Rejects (timer_delay timeoutMs) (PlainError ABORT_MESSAGE)
  end.

(** What [callOpenAIAPI] does with a response. *)
Definition handle_response (r : http_response) : js_error + string :=
  if negb (response_ok r) then
    if status r =? 429 then
      inl (RateLimitError (parseInt (str_or (retryAfterHeader r) "60")))
    else if 500 <=? status r then
      inl (RetryableError ("OpenAI 伺服器錯誤: " +:+ pretty (status r)) (Some (status r)) None)
    else
      inl (APIError (str_or (errorMessage r) ("API 錯誤: " +:+ pretty (status r)))
             (status r) (errorCode r) false)
  else
    match body r with
    | None => inl (PlainError "Unexpected end of JSON input")
    | Some (Some (String c rest)) => inr (String c rest)
    | Some _ => inl (APIError "OpenAI 回應無內容" 500 (Some "EMPTY_RESPONSE") true)
    end.

(** Ghost record of one model of the chain being tried: how often the
    API was invoked for it and how its [withRetry] call ended. *)
Record model_try : Type := {
  tm_model : string;
  tm_invocations : nat;
  tm_outcome : outcome string
}.

(** The chat messages of a request.  Their text (system prompt, chart
    JSON, today's date) is fixed by the chart and the fortune selection;
    the wording is opaque to the orchestration. *)
Record messages : Type := {
  msg_astrolabe : Astrolabe;
  msg_fortune : option FortuneData
}.

Section OpenAI.
Context {W : Type}.
Variable random : W -> Q * W.
Variable delay : Q -> W -> W.
(** The network: [fetch] of the chat-completions endpoint with the
    given messages for a model. *)
Variable fetchOpenAI : messages -> string -> W -> settle http_response * W.

(** [callOpenAIAPI(messages, config, model)]. *)
Definition callOpenAIAPI (msgs : messages) (config : LLMConfig)
    (model_arg : string) (w : W) : settle string * W :=
  let useModel := str_or (Some model_arg) (model config) in
  let '(s, w1) := fetchOpenAI msgs useModel w in
  match fetchWithTimeout s (timeoutMs config) with
  | Resolves d r =>
      match handle_response r with
      | inl e => (Rejects d e, w1)
      | inr content => (Resolves d content, w1)
      end
  | Rejects d e => (Rejects d e, w1)
  | Pending => (Pending, w1)
  end.

(** The model list of [callOpenAIWithFallback]. *)
Definition buildModels (preferred : string) (fallbacks : list string) : list string :=
  fold_left
    (fun models fallbackModel =>
       if bool_decide (fallbackModel ∈ models) then models
       else models ++ [fallbackModel])
    fallbacks [preferred].

Definition fallbackRetryConfig (config : LLMConfig) : PartialRetryConfig := {|
  p_maxRetries := Some 2;
  p_initialDelayMs := Some (1000 : Q);
  p_maxDelayMs := Some (5000 : Q);
  p_backoffMultiplier := None;
  p_timeoutMs := Some (Some (timeoutMs config))
|}.

(** A run of the fallback loop: the result, the models tried in order
    (ghost), and the world afterwards. *)
Record fallback_run : Type := {
  fb_result : outcome string;
  fb_tried : list model_try;
  fb_world : W
}.

(** The [for (const model of models)] loop. *)
Fixpoint fallback_loop (msgs : messages) (config : LLMConfig) (models : list string)
    (lastError : js_error) (tried : list model_try) (w : W) : fallback_run :=
  match models with
  | [] => {| fb_result := Threw lastError; fb_tried := tried; fb_world := w |}
  | m :: rest =>
      let r := withRetry random delay (callOpenAIAPI msgs config m) (fallbackRetryConfig config) w in
      let tried' :=
        tried ++ [{| tm_model := m; tm_invocations := invocations r;
                     tm_outcome := result r |}] in
      match result r with
      | Returned v =>
          {| fb_result := Returned v; fb_tried := tried'; fb_world := world r |}
      | Threw error => fallback_loop msgs config rest error tried' (world r)
      | Hangs => {| fb_result := Hangs; fb_tried := tried'; fb_world := world r |}
      end
  end.

Definition callOpenAIWithFallback (msgs : messages) (config : LLMConfig) (w : W)
    : fallback_run :=
  fallback_loop msgs config (buildModels (model config) MODEL_FALLBACK_ORDER)
    UndefinedValue [] w.


(** [content.replace(/PAT\n?/g, '')] for a literal, non-empty [pat]:
    [skip] counts the characters of the current match still to drop. *)
Fixpoint strip_pattern (pat : string) (skip : nat) (s : string) : string :=
  match s with
  | EmptyString => EmptyString
  | String c rest =>
      match skip with
      | S k => strip_pattern pat k rest
      | O =>
          if String.prefix pat s then
            let n := String.length pat in
            let newline :=
              match String.get n s with
              | Some "010"%char => 1%nat
              | _ => 0%nat
              end in
            strip_pattern pat (n - 1 + newline)%nat rest
          else String c (strip_pattern pat O rest)
      end
  end.

Fixpoint trim_end (s : string) : string :=
  match s with
  | EmptyString => EmptyString
  | String c rest =>
      let rest' := trim_end rest in
      if is_space c && String.eqb rest' "" then EmptyString else String c rest'
  end.

(** [s.trim()], for ASCII white space. *)
Definition trim (s : string) : string := trim_end (skip_spaces s).

(** [JSON.parse]; [None] when it throws. *)
Variable JSON_parse : string -> option json.

Definition GENERATING : json := JStr "解讀生成中...".

(** [parsed.key || '解讀生成中...'] for a non-null [parsed]. *)
Definition field_or_default (parsed : json) (key : string) : json :=
  match parsed with
  | JObj props =>
      match lookup_prop key props with
      | Some v => if truthy v then v else GENERATING
      | None => GENERATING
      end
  | _ => GENERATING
  end.

(** [Array.isArray(parsed.key) ? parsed.key : []]. *)
Definition array_or_empty (parsed : json) (key : string) : list json :=
  match parsed with
  | JObj props =>
      match lookup_prop key props with
      | Some (JArr items) => items
      | _ => []
      end
  | _ => []
  end.

(** The result of the [catch] branch of [parseLLMResponse]. *)
Definition rawContentResult (content : string) : InterpretResult :=
  let defaultText := JStr "請參考總結" in
  {| life := defaultText; siblings := defaultText; marriage := defaultText;
     children := defaultText; wealth := defaultText; health := defaultText;
     travel := defaultText; friends := defaultText; career := defaultText;
     property := defaultText; fortune := defaultText; parents := defaultText;
     summary := JStr content;
     todayAdvice := []; todayTodo := []; todayAvoid := [] |}.

(** [parseLLMResponse].  Reading a property of [null] throws inside the
    [try], like a failing [JSON.parse]. *)
Definition parseLLMResponse (content : string) : InterpretResult :=
  let jsonStr :=
    trim (strip_pattern "```" O (strip_pattern "```json" O content)) in
  match JSON_parse jsonStr with
  | None | Some JNull => rawContentResult content
  | Some parsed =>
      {| life := field_or_default parsed "life";
         siblings := field_or_default parsed "siblings";
         marriage := field_or_default parsed "marriage";
         children := field_or_default parsed "children";
         wealth := field_or_default parsed "wealth";
         health := field_or_default parsed "health";
         travel := field_or_default parsed "travel";
         friends := field_or_default parsed "friends";
         career := field_or_default parsed "career";
         property := field_or_default parsed "property";
         fortune := field_or_default parsed "fortune";
         parents := field_or_default parsed "parents";
         summary := field_or_default parsed "summary";
         todayAdvice := array_or_empty parsed "todayAdvice";
         todayTodo := array_or_empty parsed "todayTodo";
         todayAvoid := array_or_empty parsed "todayAvoid" |}
  end.

(** [getDefaultResult(errorMessage)]. *)
Definition getDefaultResult (errorMessage : option string) : InterpretResult :=
  let defaultText := JStr (str_or errorMessage "無法生成解讀，請稍後再試。") in
  {| life := defaultText; siblings := defaultText; marriage := defaultText;
     children := defaultText; wealth := defaultText; health := defaultText;
     travel := defaultText; friends := defaultText; career := defaultText;
     property := defaultText; fortune := defaultText; parents := defaultText;
     summary :=
       JStr (str_or errorMessage "目前無法連接 AI 服務，請檢查網路連線或稍後再試。");
     todayAdvice := []; todayTodo := []; todayAvoid := [] |}.

(** The message chosen by the [catch] block of [callLLM]. *)
Definition failureMessage (error : js_error) : string :=
  match error with
  | RateLimitError _ => "服務繁忙中，請稍後再試"
  | APIError _ statusCode code _ =>
      "服務暫時不可用 (" +:+ str_or code (pretty statusCode) +:+ ")"
  | _ =>
      if instanceofError error && includes "超時" (error_message error)
      then "服務回應超時，請稍後再試"
      else "無法連接 AI 服務，請檢查網路連線"
  end.

(** A run of [callLLM]: the result of the call, the models tried
    (ghost), and the world afterwards. *)
Record llm_run : Type := {
  llm_result : outcome InterpretResult;
  llm_tried : list model_try;
  llm_world : W
}.

(** [callLLM(astrolabe, fortune, topics)]; [topics] is not read by the
    source. *)
Definition callLLM (env : Env) (astrolabe : Astrolabe)
    (fortune : option FortuneData) (topics : list string) (w : W) : llm_run :=
  let config := getLLMConfig env in
  if String.eqb (apiKey config) "" then
    {| llm_result := Returned (getDefaultResult (Some "API 金鑰未設定，請聯繫管理員"));
       llm_tried := []; llm_world := w |}
  else
    let msgs := {| msg_astrolabe := astrolabe; msg_fortune := fortune |} in
    let r := callOpenAIWithFallback msgs config w in
    match fb_result r with
    | Returned content =>
        {| llm_result := Returned (parseLLMResponse content);
           llm_tried := fb_tried r; llm_world := fb_world r |}
    | Threw error =>
        {| llm_result := Returned (getDefaultResult (Some (failureMessage error)));
           llm_tried := fb_tried r; llm_world := fb_world r |}
    | Hangs =>
        {| llm_result := Hangs; llm_tried := fb_tried r; llm_world := fb_world r |}
    end.

End OpenAI.

End LLM.

(** * src/lib/cache.ts *)

Module Cache.
Import Json.

Record CacheEntry (T : Type) : Type := {
  value : T;
  expiresAt : Z
}.
Arguments value {T}.
Arguments expiresAt {T}.

(** A JavaScript [Map] with string keys, as the list of its entries in
    insertion order. *)
Section JsMap.
Context {V : Type}.

Fixpoint map_get (k : string) (m : list (string * V)) : option V :=
  match m with
  | [] => None
  | (k', v) :: rest => if String.eqb k k' then Some v else map_get k rest
  end.

Definition map_has (k : string) (m : list (string * V)) : bool :=
  match map_get k m with
  | Some _ => true
  | None => false
  end.

Fixpoint map_delete (k : string) (m : list (string * V)) : list (string * V) :=
  match m with
  | [] => []
  | (k', v) :: rest =>
      if String.eqb k k' then map_delete k rest else (k', v) :: map_delete k rest
  end.

(** [m.set(k, v)]: an existing key keeps its position, a new key goes
    to the end. *)
Fixpoint map_set (k : string) (v : V) (m : list (string * V)) : list (string * V) :=
  match m with
  | [] => [(k, v)]
  | (k', v') :: rest =>
      if String.eqb k k' then (k, v) :: rest else (k', v') :: map_set k v rest
  end.

(** [m.keys().next().value]. *)
Definition first_key (m : list (string * V)) : option string :=
  match m with
  | [] => None
  | (k, _) :: _ => Some k
  end.

Definition map_size (m : list (string * V)) : Z := Z.of_nat (length m).
End JsMap.

Record LRUCache (T : Type) : Type := {
  cache : list (string * CacheEntry T);
  maxSize : Z;
  defaultTTL : Z
}.
Arguments cache {T}.
Arguments maxSize {T}.
Arguments defaultTTL {T}.

Section LRU.
Context {T : Type}.

(** [new LRUCache(maxSize, defaultTTL)]. *)
Definition new (maxSize defaultTTL : Z) : LRUCache T :=
  {| cache := []; maxSize := maxSize; defaultTTL := defaultTTL |}.

Definition with_cache (c : LRUCache T) (m : list (string * CacheEntry T)) : LRUCache T :=
  {| cache := m; maxSize := maxSize c; defaultTTL := defaultTTL c |}.

(** [get(key)] at time [now]. *)
Definition get (key : string) (now : Z) (c : LRUCache T) : option T * LRUCache T :=
  match map_get key (cache c) with
  | None => (None, c)
  | Some entry =>
      if expiresAt entry <? now then
        (None, with_cache c (map_delete key (cache c)))
      else
        (Some (value entry),
         with_cache c (map_set key entry (map_delete key (cache c))))
  end.

(** [set(key, value, ttl)] at time [now].  The guard [if (firstKey)]
    is false for the empty string as well as for [undefined]. *)
Definition set (key : string) (v : T) (ttl : option Z) (now : Z) (c : LRUCache T)
    : LRUCache T :=
  let m1 := if map_has key (cache c) then map_delete key (cache c) else cache c in
  let m2 :=
    if maxSize c <=? map_size m1 then
      match first_key m1 with
      | Some (String a rest) => map_delete (String a rest) m1
      | _ => m1
      end
    else m1 in
  let ttl' :=
    match ttl with
    | Some t => if t =? 0 then defaultTTL c else t
    | None => defaultTTL c
    end in
  with_cache c (map_set key {| value := v; expiresAt := now + ttl' |} m2).

(** [has(key)] at time [now]. *)
Definition has (key : string) (now : Z) (c : LRUCache T) : bool * LRUCache T :=
  match map_get key (cache c) with
  | None => (false, c)
  | Some entry =>
      if expiresAt entry <? now then
        (false, with_cache c (map_delete key (cache c)))
      else (true, c)
  end.

Definition delete (key : string) (c : LRUCache T) : bool * LRUCache T :=
  (map_has key (cache c), with_cache c (map_delete key (cache c))).

Definition clear (c : LRUCache T) : LRUCache T := with_cache c [].

Definition size (c : LRUCache T) : Z := map_size (cache c).

(** [cleanup()] at time [now]: the number of removed entries and the
    cache without them. *)
Definition cleanup (now : Z) (c : LRUCache T) : Z * LRUCache T :=
  let expired := List.filter (fun kv => expiresAt (snd kv) <? now) (cache c) in
  (map_size expired,
   with_cache c (List.filter (fun kv => negb (expiresAt (snd kv) <? now)) (cache c))).

End LRU.

(** ** [withCache] *)

(** A run of [withCache]: its result, how often [fn] was invoked
    (ghost), the cache and the world afterwards. *)
Record cached_run (W T : Type) : Type := {
  wc_result : Retry.outcome T;
  wc_invocations : nat;
  wc_cache : LRUCache T;
  wc_world : W
}.
Arguments wc_result {W T}.
Arguments wc_invocations {W T}.
Arguments wc_cache {W T}.
Arguments wc_world {W T}.

Section WithCache.
Context {W T : Type}.
(** [Date.now()] and the function to memoize. *)
Variable now : W -> Z.
Variable fn : W -> Retry.settle T * W.

(** [withCache(cache, key, fn, ttl)]: a cached value (any value but
    [undefined]) is returned without running [fn]; otherwise [fn] is
    awaited and its result stored. *)
Definition withCache (c : LRUCache T) (key : string) (ttl : option Z) (w : W)
    : cached_run W T :=
  let '(cached, c1) := get key (now w) c in
  match cached with
  | Some v =>
      {| wc_result := Retry.Returned v; wc_invocations := 0; wc_cache := c1; wc_world := w |}
  | None =>
      let '(s, w1) := fn w in
      match s with
      | Retry.Resolves _ result =>
          {| wc_result := Retry.Returned result; wc_invocations := 1;
             wc_cache := set key result ttl (now w1) c1; wc_world := w1 |}
      | Retry.Rejects _ error =>
          {| wc_result := Retry.Threw error; wc_invocations := 1;
             wc_cache := c1; wc_world := w1 |}
      | Retry.Pending =>
          {| wc_result := Retry.Hangs; wc_invocations := 1;
             wc_cache := c1; wc_world := w1 |}
      end
  end.

End WithCache.

(** ** Cache keys *)

Definition dquote : ascii := ascii_of_nat 34.
Definition backslash : ascii := ascii_of_nat 92.

Definition hex_digit (n : nat) : ascii :=
  default "0"%char (String.get n "0123456789abcdef").

(** The escape of one character in a JSON string literal. *)
Definition quote_char (c : ascii) : string :=
  let n := nat_of_ascii c in
  if (n =? 34)%nat then String backslash (String dquote EmptyString)
  else if (n =? 92)%nat then String backslash (String backslash EmptyString)
  else if (n =? 8)%nat then String backslash "b"
  else if (n =? 9)%nat then String backslash "t"
  else if (n =? 10)%nat then String backslash "n"
  else if (n =? 12)%nat then String backslash "f"
  else if (n =? 13)%nat then String backslash "r"
  else if (n <? 32)%nat then
    String backslash
      ("u00" +:+ String (hex_digit (n / 16)) (String (hex_digit (n mod 16)) EmptyString))
  else String c EmptyString.

Fixpoint quote_body (s : string) : string :=
  match s with
  | EmptyString => EmptyString
  | String c rest => quote_char c +:+ quote_body rest
  end.

(** [JSON.stringify(s)] for a string [s]. *)
Definition quote (s : string) : string :=
  String dquote (quote_body s +:+ String dquote EmptyString).

(** [JSON.stringify(v, K)] with an array replacer [K]: every object, at
    any depth, is written with exactly the properties named in [K] that
    it has, in the order of [K].  Values are plain JSON data: own
    properties only, no [toJSON], no [undefined]. *)
Fixpoint stringify (K : list string) (v : json) : string :=
  match v with
  | JNull => "null"
  | JBool b => if b then "true" else "false"
  | JNum z => pretty z
  | JStr s => quote s
  | JArr items => "[" +:+ String.concat "," (map (stringify K) items) +:+ "]"
  | JObj props =>
      let written := map (fun kv => (fst kv, stringify K (snd kv))) props in
      let member k := (fun text => quote k +:+ ":" +:+ text) <$> map_get k written in
      "{" +:+ String.concat "," (omap member K) +:+ "}"
  end.

(** The order of [Array.prototype.sort()] on strings.  Strings are byte
    strings here, so this is the code-point order of UTF-8. *)
Definition str_le (a b : string) : Prop := String.leb a b = true.

#[export] Instance str_le_dec (a b : string) : Decision (str_le a b).
Proof. unfold str_le. apply _. Defined.

(** [keys.sort()]. *)
Definition sort_keys (ks : list string) : list string := merge_sort str_le ks.

(** [Object.keys(arr)] for an array: its indices. *)
Definition array_keys (items : list json) : list string :=
  map (fun i : nat => pretty (Z.of_nat i)) (seq 0 (length items)).

(** [String(v)] for a value that is not an object. *)
Definition to_string (v : json) : string :=
  match v with
  | JNull => "null"
  | JBool b => if b then "true" else "false"
  | JNum z => pretty z
  | JStr s => s
  | JArr _ | JObj _ => ""
  end.

(** The stringification of one argument; [None] is [undefined]. *)
Definition key_part (arg : option json) : string :=
  match arg with
  | None => "undefined"
  | Some (JObj props) => stringify (sort_keys (keys props)) (JObj props)
  | Some (JArr items) => stringify (sort_keys (array_keys items)) (JArr items)
  | Some v => to_string v
  end.

(** [generateCacheKey(prefix, ...args)]. *)
Definition generateCacheKey (prefix : string) (args : list (option json)) : string :=
  prefix +:+ ":" +:+ String.concat ":" (map key_part args).

End Cache.

(** * src/lib/rateLimit.ts *)

Module RateLimit.

Record RateLimitRecord : Type := {
  count : Z;
  resetTime : Z
}.

Record RateLimitConfig : Type := {
  windowMs : Z;
  maxRequests : Z;
  keyPrefix : option string
}.

Record RateLimitResult : Type := {
  allowed : bool;
  remaining : Z;
  r_resetTime : Z;
  retryAfter : option Z
}.

(** [Math.ceil(a / b)] for integers [a] and [b > 0]. *)
Definition ceil_div (a b : Z) : Z := - ((- a) / b).

(** The key of the store: [`${keyPrefix}:${identifier}`], with
    [keyPrefix = ''] by default. *)
Definition store_key (identifier : string) (config : RateLimitConfig) : string :=
  default "" (keyPrefix config) +:+ ":" +:+ identifier.

(** [checkRateLimit(identifier, config)] at time [now], on the module's
    [rateLimitStore]. *)
Definition checkRateLimit (identifier : string) (config : RateLimitConfig)
    (now : Z) (rateLimitStore : gmap string RateLimitRecord)
    : RateLimitResult * gmap string RateLimitRecord :=
  let key := store_key identifier config in
  let fresh :=
    let record := {| count := 1; resetTime := now + windowMs config |} in
    ({| allowed := true; remaining := maxRequests config - 1;
        r_resetTime := resetTime record; retryAfter := None |},
     <[key := record]> rateLimitStore) in
  match rateLimitStore !! key with
  | None => fresh
  | Some record =>
      if resetTime record <? now then fresh
      else if maxRequests config <=? count record then
        ({| allowed := false; remaining := 0; r_resetTime := resetTime record;
            retryAfter := Some (ceil_div (resetTime record - now) 1000) |},
         rateLimitStore)
      else
        let record' := {| count := count record + 1; resetTime := resetTime record |} in
        ({| allowed := true; remaining := maxRequests config - count record';
            r_resetTime := resetTime record'; retryAfter := None |},
         <[key := record']> rateLimitStore)
  end.

(** The sweep of [startCleanupTimer] at time [now]. *)
Definition sweep (now : Z) (rateLimitStore : gmap string RateLimitRecord)
    : gmap string RateLimitRecord :=
  filter (fun kv => ¬ (resetTime (snd kv) < now)) rateLimitStore.

(** The request headers that [getClientIP] reads. *)
Record Headers : Type := {
  cf_connecting_ip : option string;
  x_forwarded_for : option string;
  x_real_ip : option string
}.

(** [s.split(',')[0]]. *)
Fixpoint before_comma (s : string) : string :=
  match s with
  | EmptyString => EmptyString
  | String c rest => if Ascii.eqb c ","%char then EmptyString else String c (before_comma rest)
  end.

Definition nonempty (o : option string) : option string :=
  match o with
  | Some (String c rest) => Some (String c rest)
  | _ => None
  end.

(** [getClientIP(request)]. *)
Definition getClientIP (headers : Headers) : string :=
  match nonempty (cf_connecting_ip headers) with
  | Some cfIP => cfIP
  | None =>
      match nonempty (x_forwarded_for headers) with
      | Some forwardedFor => LLM.trim (before_comma forwardedFor)
      | None =>
          match nonempty (x_real_ip headers) with
          | Some realIP => realIP
          | None => "unknown"
          end
      end
  end.

Definition RATE_LIMIT_CONFIGS_interpret : RateLimitConfig :=
  {| windowMs := 60 * 1000; maxRequests := 10; keyPrefix := Some "interpret" |}.

Definition RATE_LIMIT_CONFIGS_astrolabe : RateLimitConfig :=
  {| windowMs := 60 * 1000; maxRequests := 30; keyPrefix := Some "astrolabe" |}.

Definition RATE_LIMIT_CONFIGS_fortune : RateLimitConfig :=
  {| windowMs := 60 * 1000; maxRequests := 60; keyPrefix := Some "fortune" |}.

End RateLimit.

(** * src/app/api/interpret/route.ts *)

Module Route.
Import Retry Json Types LLM Cache RateLimit.

Inductive CacheSource : Type := memory | supabase | llm.

Definition CacheSource_string (s : CacheSource) : string :=
  match s with
  | memory => "memory"
  | supabase => "supabase"
  | llm => "llm"
  end.

(** [cacheSource.toUpperCase()]. *)
Definition CacheSource_upper (s : CacheSource) : string :=
  match s with
  | memory => "MEMORY"
  | supabase => "SUPABASE"
  | llm => "LLM"
  end.

(** The parsed request body. *)
Record Body : Type := {
  b_astrolabe : option Astrolabe;
  b_fortune : option FortuneData;
  b_topics : option (list string)
}.

(** A request: its headers and what [request.json()] yields ([None] when
    it throws). *)
Record Request : Type := {
  req_headers : Headers;
  req_json : option Body
}.

Inductive ResponseBody : Type :=
| InterpretBody (result : InterpretResult)
| ErrorBody (error : string)
| RateLimitBody (error : string) (retryAfter : option Z).

Record Response : Type := {
  status : Z;
  body : ResponseBody;
  headers : list (string * string)
}.

(** [createRateLimitResponse(result)]. *)
Definition createRateLimitResponse (r : RateLimitResult) : Response := {|
  status := 429;
  body := RateLimitBody "請求過於頻繁，請稍後再試" (retryAfter r);
  headers :=
    [("Content-Type", "application/json");
     ("Retry-After",
      pretty (match retryAfter r with
              | Some n => if n =? 0 then 60 else n
              | None => 60
              end));
     ("X-RateLimit-Remaining", pretty (remaining r));
     ("X-RateLimit-Reset", pretty (r_resetTime r))]
|}.

(** [`${n || 0}`] for an optional number. *)
Definition num_or_zero (n : option Z) : string := pretty (default 0 n).

(** [buildInterpretCacheKey(astrolabe, fortune)]. *)
Definition buildInterpretCacheKey (astrolabe : Astrolabe) (fortune : option FortuneData)
    : string :=
  match fortune with
  | None => generateCacheKey "interpret" [Some (JStr (chartId astrolabe)); Some (JStr "natal")]
  | Some f =>
      match f_scope f with
      | natal =>
          generateCacheKey "interpret" [Some (JStr (chartId astrolabe)); Some (JStr "natal")]
      | _ =>
          let decadeKey :=
            match f_decadeRange f with
            | Some (a, b) => pretty a +:+ "-" +:+ pretty b
            | None => "nodecade"
            end in
          let fortuneKey :=
            FortuneScope_string (f_scope f) +:+ "-" +:+ decadeKey +:+ "-" +:+
            num_or_zero (f_year f) +:+ "-" +:+ num_or_zero (f_month f) +:+ "-" +:+
            num_or_zero (f_day f) in
          generateCacheKey "interpret" [Some (JStr (chartId astrolabe)); Some (JStr fortuneKey)]
      end
  end.

(** [getFortuneScope(fortune)]. *)
Definition getFortuneScope (fortune : option FortuneData) : string :=
  match fortune with
  | Some f => FortuneScope_string (f_scope f)
  | None => "natal"
  end.

(** [buildFortuneParams(fortune)]: either [{ scope: 'natal' }] or the
    five fields of the fortune selection. *)
Inductive FortuneParams : Type :=
| NatalParams
| SelectionParams (f : FortuneData).

Definition buildFortuneParams (fortune : option FortuneData) : FortuneParams :=
  match fortune with
  | None => NatalParams
  | Some f => SelectionParams f
  end.

(** What the Supabase query of [getCachedInterpretation] yields:
    a row with its [result] column ([None] when falsy), an error object,
    or an exception. *)
Inductive query_result : Type :=
| QueryData (result : option InterpretResult)
| QueryError (message : string)
| QueryThrows.

(** Ghost trace of a request: the tiers it consulted and filled. *)
Inductive Event : Type :=
| MemoryLookup (key : string)
| StoreLookup (chartId scope : string)
| Generate (tried : list model_try)
| MemoryFill (key : string) (result : InterpretResult) (expiresAt : Z)
| StoreSave (chartId scope : string) (result : InterpretResult).

Definition MEMORY_TTL : Z := 5 * 60 * 1000.

(** [new LRUCache<any>(50, 5 * 60 * 1000)]. *)
Definition interpretCache_initial : LRUCache InterpretResult := Cache.new 50 (5 * 60 * 1000).

Section Handler.
Context {W : Type}.
(** The outside world: clock, randomness, timers, OpenAI, Supabase. *)
Variable now : W -> Z.
Variable random : W -> Q * W.
Variable delay : Q -> W -> W.
Variable fetchOpenAI : messages -> string -> W -> settle http_response * W.
Variable JSON_parse : string -> option json.
Variable isSupabaseConfigured : bool.
Variable selectInterpretation : string -> string -> FortuneParams -> W -> query_result * W.
Variable upsertInterpretation : string -> string -> FortuneParams -> InterpretResult -> W -> W.
Variable env : Env.

(** The module-level state of the server process and the world. *)
Record Server : Type := {
  rateLimitStore : gmap string RateLimitRecord;
  interpretCache : LRUCache InterpretResult;
  outside : W
}.

(** [getCachedInterpretation]: [{ success, result }] with a truthy
    [result] is [Some]. *)
Definition getCachedInterpretation (chart scope : string) (params : FortuneParams)
    (w : W) : option InterpretResult * W :=
  if isSupabaseConfigured then
    let '(q, w1) := selectInterpretation chart scope params w in
    match q with
    | QueryData result => (result, w1)
    | QueryError _ | QueryThrows => (None, w1)
    end
  else (None, w).

Record Handled : Type := {
  response : outcome Response;
  events : list Event;
  server : Server
}.

Definition okResponse (rl : RateLimitResult) (result : InterpretResult)
    (cacheSource : CacheSource) : Response := {|
  status := 200;
  body := InterpretBody result;
  headers :=
    [("X-RateLimit-Remaining", pretty (remaining rl));
     ("X-RateLimit-Reset", pretty (r_resetTime rl));
     ("X-Cache", CacheSource_upper cacheSource);
     ("X-Cache-Source", CacheSource_string cacheSource)]
|}.

Definition errorResponse (code : Z) (message : string) : Response :=
  {| status := code; body := ErrorBody message; headers := [] |}.

(** The three tiers, for a request that passed admission and carries a
    chart. *)
Definition tiers (rl : RateLimitResult) (astrolabe : Astrolabe)
    (fortune : option FortuneData) (topics : option (list string))
    (store : gmap string RateLimitRecord) (c : LRUCache InterpretResult) (w : W)
    : Handled :=
  let chart := chartId astrolabe in
  let fortuneScope := getFortuneScope fortune in
  let fortuneParams := buildFortuneParams fortune in
  let memoryCacheKey := buildInterpretCacheKey astrolabe fortune in
  let '(memoryCached, c1) := Cache.get memoryCacheKey (now w) c in
  match memoryCached with
  | Some result =>
      {| response := Returned (okResponse rl result memory);
         events := [MemoryLookup memoryCacheKey];
         server := {| rateLimitStore := store; interpretCache := c1; outside := w |} |}
  | None =>
      let '(stored, w1) :=
        if isSupabaseConfigured
        then getCachedInterpretation chart fortuneScope fortuneParams w
        else (None, w) in
      let lookups :=
        if isSupabaseConfigured
        then [MemoryLookup memoryCacheKey; StoreLookup chart fortuneScope]
        else [MemoryLookup memoryCacheKey] in
      match stored with
      | Some result =>
          let c2 := Cache.set memoryCacheKey result (Some MEMORY_TTL) (now w1) c1 in
          {| response := Returned (okResponse rl result supabase);
             events := lookups ++ [MemoryFill memoryCacheKey result (now w1 + MEMORY_TTL)];
             server := {| rateLimitStore := store; interpretCache := c2; outside := w1 |} |}
      | None =>
          let r := callLLM random delay fetchOpenAI JSON_parse env astrolabe fortune
                     (default [] topics) w1 in
          match llm_result r with
          | Returned result =>
              let w2 := llm_world r in
              let c2 := Cache.set memoryCacheKey result (Some MEMORY_TTL) (now w2) c1 in
              let w3 :=
                if isSupabaseConfigured
                then upsertInterpretation chart fortuneScope fortuneParams result w2
                else w2 in
              {| response := Returned (okResponse rl result llm);
                 events :=
                   lookups ++ [Generate (llm_tried r);
                               MemoryFill memoryCacheKey result (now w2 + MEMORY_TTL)] ++
                   (if isSupabaseConfigured
                    then [StoreSave chart fortuneScope result] else []);
                 server := {| rateLimitStore := store; interpretCache := c2; outside := w3 |} |}
          | Threw _ =>
              {| response := Returned (errorResponse 500 "解釋生成失敗");
                 events := lookups ++ [Generate (llm_tried r)];
                 server := {| rateLimitStore := store; interpretCache := c1;
                              outside := llm_world r |} |}
          | Hangs =>
              {| response := Hangs;
                 events := lookups ++ [Generate (llm_tried r)];
                 server := {| rateLimitStore := store; interpretCache := c1;
                              outside := llm_world r |} |}
          end
      end
  end.

(** [POST(request)]. *)
Definition POST (request : Request) (s : Server) : Handled :=
  let clientIP := getClientIP (req_headers request) in
  let '(rateLimitResult, store) :=
    checkRateLimit clientIP RATE_LIMIT_CONFIGS_interpret (now (outside s))
      (rateLimitStore s) in
  let s1 := {| rateLimitStore := store; interpretCache := interpretCache s;
               outside := outside s |} in
  if negb (allowed rateLimitResult) then
    {| response := Returned (createRateLimitResponse rateLimitResult);
       events := []; server := s1 |}
  else
    match req_json request with
    | None =>
        {| response := Returned (errorResponse 500 "解釋生成失敗");
           events := []; server := s1 |}
    | Some b =>
        match b_astrolabe b with
        | None =>
            {| response := Returned (errorResponse 400 "缺少命盤資料");
               events := []; server := s1 |}
        | Some astrolabe =>
            tiers rateLimitResult astrolabe (b_fortune b) (b_topics b)
              store (interpretCache s) (outside s)
        end
    end.

End Handler.

Arguments Server : clear implicits.
Arguments Handled : clear implicits.

End Route.

(** * Concrete scenarios *)

Module Scenario.
Import Retry Json Types LLM Cache RateLimit Route.

(** A world with nothing in it: randomness is always zero and waiting
    does nothing. *)
Definition no_random (w : unit) : Q * unit := (0%Q, w).
Definition no_delay (_ : Q) (w : unit) : unit := w.

(** An operation that never settles. *)
Definition never_settles (w : unit) : settle Z * unit := (Pending, w).

(** An operation that always rejects with a plain [Error]. *)
Definition always_fails (w : unit) : settle Z * unit :=
  (Rejects 5 (PlainError "non-retryable"), w).

Definition three_retries : PartialRetryConfig :=
  {| p_maxRetries := Some 3; p_initialDelayMs := Some (1 : Q); p_maxDelayMs := None;
     p_backoffMultiplier := None; p_timeoutMs := None |}.

(** A policy that admits no request at all. *)
Definition zero_quota : RateLimitConfig :=
  {| windowMs := 60000; maxRequests := 0; keyPrefix := None |}.

(** Three requests per minute. *)
Definition three_per_minute : RateLimitConfig :=
  {| windowMs := 60000; maxRequests := 3; keyPrefix := Some "interpret" |}.

(** The cache of the unit tests: three entries, one second. *)
Definition small_cache : LRUCache string := Cache.new 3 1000.

(** One entry set at time 50 with a TTL of 50 ms: it expires at 100. *)
Definition one_entry : LRUCache string :=
  Cache.set "key1" "value1" (Some 50) 50 small_cache.

(** Three entries, the oldest under the empty key. *)
Definition full_with_empty_key : LRUCache string :=
  Cache.set "b" "vb" None 3 (Cache.set "a" "va" None 2 (Cache.set "" "v0" None 1 small_cache)).

(** Three entries under non-empty keys. *)
Definition full_cache : LRUCache string :=
  Cache.set "key3" "value3" None 3
    (Cache.set "key2" "value2" None 2 (Cache.set "key1" "value1" None 1 small_cache)).

(** The two argument lists of the specification's example. *)
Definition year_params_a : json := JObj [("scope", JStr "year"); ("year", JNum 2024)].
Definition year_params_b : json := JObj [("year", JNum 2024); ("scope", JStr "year")].

(** A world that is a clock (milliseconds): every fetch takes 120 ms. *)
Definition clock_now (w : Z) : Z := w.
Definition clock_random (w : Z) : Q * Z := (0%Q, w).
Definition clock_delay (ms : Q) (w : Z) : Z := w + Qceiling ms.

Definition server_error : http_response :=
  {| LLM.status := 500; retryAfterHeader := None; errorMessage := None;
     errorCode := None; LLM.body := None |}.

Definition completion (content : string) : http_response :=
  {| LLM.status := 200; retryAfterHeader := None; errorMessage := None;
     errorCode := None; LLM.body := Some (Some content) |}.

(** OpenAI answers 500 for every model. *)
Definition openai_down (_ : messages) (_ : string) (w : Z) : settle http_response * Z :=
  (Resolves 120 server_error, w + 120).

(** OpenAI answers the first request with a completion. *)
Definition openai_up (_ : messages) (_ : string) (w : Z) : settle http_response * Z :=
  (Resolves 120 (completion "{}"), w + 120).

Definition parse_empty_object (_ : string) : option json := Some (JObj []).

Definition no_store (_ _ : string) (_ : FortuneParams) (w : Z) : query_result * Z :=
  (QueryError "not configured", w).
Definition no_upsert (_ _ : string) (_ : FortuneParams) (_ : InterpretResult) (w : Z) : Z := w.

Definition with_key : Env := {| OPENAI_API_KEY := Some "sk-test"; OPENAI_MODEL := None |}.

Definition chart1 : Astrolabe :=
  {| chartId := "chart1"; name := None; gender := "女"; birthDate := "1990-01-01";
     birthTime := "子"; timezone := "Asia/Taipei"; palaces := []; originalData := None |}.

Definition natal_request : Request :=
  {| req_headers := {| cf_connecting_ip := None; x_forwarded_for := Some "1.2.3.4, 10.0.0.1";
                       x_real_ip := None |};
     req_json := Some {| b_astrolabe := Some chart1; b_fortune := None; b_topics := None |} |}.

(** A freshly started server at time [t]. *)
Definition fresh_server (t : Z) : Server Z :=
  {| rateLimitStore := ∅; interpretCache := interpretCache_initial; outside := t |}.

(** The handler with OpenAI down and no persistent store. *)
Definition POST_openai_down : Request -> Server Z -> Handled Z :=
  POST clock_now clock_random clock_delay openai_down parse_empty_object false
    no_store no_upsert with_key.

(** The handler with OpenAI up and no persistent store. *)
Definition POST_openai_up : Request -> Server Z -> Handled Z :=
  POST clock_now clock_random clock_delay openai_up parse_empty_object false
    no_store no_upsert with_key.

(** The messages of [natal_request]. *)
Definition natal_messages : messages := {| msg_astrolabe := chart1; msg_fortune := None |}.

(** The server without an API key. *)
Definition without_key : Env := {| OPENAI_API_KEY := None; OPENAI_MODEL := None |}.

(** A world that counts the invocations made so far. *)
Definition count_random (n : nat) : Q * nat := (0%Q, n).
Definition count_delay (_ : Q) (n : nat) : nat := n.

(** An operation that is busy on its first invocation and answers 42
    afterwards. *)
Definition flaky (n : nat) : settle Z * nat :=
  match n with
  | O => (Rejects 5 (RetryableError "busy" (Some 503) None), S n)
  | S _ => (Resolves 5 42, S n)
  end.

(** An operation that always rejects with a retryable error. *)
Definition always_busy (w : unit) : settle Z * unit :=
  (Rejects 5 (RetryableError "busy" (Some 503) None), w).

(** A function to memoize on a world that is the clock: it takes ten
    milliseconds and answers ["v"]. *)
Definition slow_answer (w : Z) : Retry.settle string * Z := (Retry.Resolves 10 "v", w + 10).

(** The same, rejecting. *)
Definition slow_failure (w : Z) : Retry.settle string * Z :=
  (Retry.Rejects 10 (Retry.PlainError "down"), w + 10).

(** A function that must not be needed. *)
Definition other_answer (w : Z) : Retry.settle string * Z := (Retry.Resolves 0 "other", w).

Definition empty_cache : Cache.LRUCache string := Cache.new 3 1000.

(** A store with one record of the interpret policy, for the client
    ["1.2.3.4"], that expires at 5. *)
Definition stale_store : gmap string RateLimit.RateLimitRecord :=
  {[ "interpret:1.2.3.4" := {| RateLimit.count := 10; RateLimit.resetTime := 5 |} ]}.

(** A server whose client ["1.2.3.4"] has used up the ten requests of
    the window that ends at [reset]. *)
Definition busy_server (reset t : Z) : Server Z :=
  {| rateLimitStore :=
       {[ "interpret:1.2.3.4" := {| RateLimit.count := 10; RateLimit.resetTime := reset |} ]};
     interpretCache := interpretCache_initial; outside := t |}.

(** A request whose body has no chart. *)
Definition chartless_request : Request :=
  {| req_headers := req_headers natal_request;
     req_json := Some {| b_astrolabe := None; b_fortune := None; b_topics := None |} |}.

(** A persistent store that holds an interpretation for every query and
    answers in thirty milliseconds. *)
Definition stored_answer : InterpretResult := getDefaultResult None.
Definition full_store (_ _ : string) (_ : FortuneParams) (w : Z) : query_result * Z :=
  (QueryData (Some stored_answer), w + 30).

(** The handler with OpenAI down and a persistent store. *)
Definition POST_full_store : Request -> Server Z -> Handled Z :=
  POST clock_now clock_random clock_delay openai_down parse_empty_object true
    full_store no_upsert with_key.

Definition unauthorized : http_response :=
  {| LLM.status := 401; retryAfterHeader := None; errorMessage := Some "Incorrect API key";
     errorCode := Some "invalid_api_key"; LLM.body := None |}.

(** OpenAI refuses every request with 401. *)
Definition openai_refuses (_ : messages) (_ : string) (w : Z) : settle http_response * Z :=
  (Resolves 80 unauthorized, w + 80).

End Scenario.

(** * Vocabulary of the properties *)

Import Retry Json Types LLM Cache RateLimit Route.

(** The result of [withRetry] when a single attempt decides it. *)
Definition attempt_outcome {T} (a : attempt_result T) : outcome T :=
  match a with
  | AttemptValue v => Returned v
  | AttemptError e => Threw e
  | AttemptNever => Hangs
  end.

(** The timer of an attempt fires before the operation settles. *)
Definition timer_first {T} (ms : Z) (s : settle T) : Prop :=
  match s with
  | Resolves d _ | Rejects d _ => timer_delay ms <= d
  | Pending => True
  end.

(** The [withRetry] call for a model ended with a thrown error. *)
Definition threw (t : model_try) : Prop := exists e, tm_outcome t = Threw e.

(** Calls of [checkRateLimit] for one identity and policy, one after the
    other, at the given times: the results in order and the final store. *)
Fixpoint successive_calls (identifier : string) (config : RateLimitConfig)
    (times : list Z) (store : gmap string RateLimitRecord)
    : list RateLimitResult * gmap string RateLimitRecord :=
  match times with
  | [] => ([], store)
  | now :: later =>
      let '(r, store1) := checkRateLimit identifier config now store in
      let '(rs, store2) := successive_calls identifier config later store1 in
      (r :: rs, store2)
  end.

(** A call at time [now] starts a new window for [key]: no record, or a
    record whose reset time has passed. *)
Definition window_opens (key : string) (now : Z)
    (store : gmap string RateLimitRecord) : Prop :=
  match store !! key with
  | None => True
  | Some record => resetTime record < now
  end.

(** The stored count of [key] is at most [n]. *)
Definition count_bounded (key : string) (n : Z)
    (store : gmap string RateLimitRecord) : Prop :=
  forall record, store !! key = Some record -> count record <= n.

(** The keys of a JavaScript [Map] are pairwise distinct. *)
Definition wf_cache {T} (c : LRUCache T) : Prop := NoDup (map fst (cache c)).

(** The keys of a cache, least recently used first. *)
Definition recency {T} (c : LRUCache T) : list string := map fst (cache c).

(** Two JSON values have the same content: equal but for the insertion
    order of the properties of objects, at any depth.  The keys of an
    object are pairwise distinct. *)
#[warnings="-register-all"]
Inductive same_value : json -> json -> Prop :=
| same_null : same_value JNull JNull
| same_bool b : same_value (JBool b) (JBool b)
| same_num z : same_value (JNum z) (JNum z)
| same_str s : same_value (JStr s) (JStr s)
| same_arr items1 items2 :
    Forall2 same_value items1 items2 -> same_value (JArr items1) (JArr items2)
| same_obj props1 props2 :
    NoDup (keys props1) -> NoDup (keys props2) ->
    (forall k, option_Forall2 same_value (lookup_prop k props1) (lookup_prop k props2)) ->
    same_value (JObj props1) (JObj props2).

(** The same for an argument of [generateCacheKey], which may be
    [undefined]. *)
Definition same_arg : option json -> option json -> Prop := option_Forall2 same_value.

(** A JSON value is a non-empty string. *)
Definition nonempty_text (v : json) : Prop := exists s, v = JStr s /\ s <> "".

(** The twelve palace fields and the summary are non-empty strings. *)
Definition all_text_nonempty (r : InterpretResult) : Prop :=
  nonempty_text (life r) /\ nonempty_text (siblings r) /\ nonempty_text (marriage r) /\
  nonempty_text (children r) /\ nonempty_text (wealth r) /\ nonempty_text (health r) /\
  nonempty_text (travel r) /\ nonempty_text (friends r) /\ nonempty_text (career r) /\
  nonempty_text (property r) /\ nonempty_text (fortune r) /\ nonempty_text (parents r) /\
  nonempty_text (summary r).

(** [response.headers.get(name)]. *)
Definition header (name : string) (r : Response) : option string :=
  map_get name (headers r).

(** The request body holds a chart, a fortune selection and topics. *)
Definition carries (request : Request) (astrolabe : Astrolabe)
    (fortune : option FortuneData) (topics : option (list string)) : Prop :=
  req_json request =
    Some {| b_astrolabe := Some astrolabe; b_fortune := fortune; b_topics := topics |}.

Section RequestVocabulary.
Context {W : Type}.
Variable now : W -> Z.
Variable isSupabaseConfigured : bool.
Variable selectInterpretation : string -> string -> FortuneParams -> W -> query_result * W.

(** The same server process later on: the world has moved on to [w]. *)
Definition elapse (s : Server W) (w : W) : Server W :=
  {| rateLimitStore := rateLimitStore s; interpretCache := interpretCache s;
     outside := w |}.

(** The verdict of the rate limiter on a request. *)
Definition admission (request : Request) (s : Server W) : RateLimitResult :=
  fst (checkRateLimit (getClientIP (req_headers request)) RATE_LIMIT_CONFIGS_interpret
         (now (outside s)) (rateLimitStore s)).

Definition admitted (request : Request) (s : Server W) : Prop :=
  allowed (admission request s) = true.

(** The memory cache has no live entry for the request. *)
Definition memory_miss (astrolabe : Astrolabe) (fortune : option FortuneData)
    (s : Server W) : Prop :=
  fst (Cache.get (buildInterpretCacheKey astrolabe fortune) (now (outside s))
         (interpretCache s)) = None.

(** The memory cache after the lookup of the request. *)
Definition cache_after_lookup (astrolabe : Astrolabe) (fortune : option FortuneData)
    (s : Server W) : LRUCache InterpretResult :=
  snd (Cache.get (buildInterpretCacheKey astrolabe fortune) (now (outside s))
         (interpretCache s)).

(** The persistent store has nothing for the request (or is not
    configured). *)
Definition store_miss (astrolabe : Astrolabe) (fortune : option FortuneData)
    (s : Server W) : Prop :=
  fst (getCachedInterpretation isSupabaseConfigured selectInterpretation
         (chartId astrolabe) (getFortuneScope fortune) (buildFortuneParams fortune)
         (outside s)) = None.

(** The world after the lookup in the persistent store. *)
Definition world_after_store (astrolabe : Astrolabe) (fortune : option FortuneData)
    (s : Server W) : W :=
  snd (getCachedInterpretation isSupabaseConfigured selectInterpretation
         (chartId astrolabe) (getFortuneScope fortune) (buildFortuneParams fortune)
         (outside s)).

(** The tier lookups that precede a computation. *)
Definition lookups_before_compute (astrolabe : Astrolabe) (fortune : option FortuneData)
    : list Event :=
  if isSupabaseConfigured
  then [MemoryLookup (buildInterpretCacheKey astrolabe fortune);
        StoreLookup (chartId astrolabe) (getFortuneScope fortune)]
  else [MemoryLookup (buildInterpretCacheKey astrolabe fortune)].

(** The best-effort write to the persistent store. *)
Definition save_after_compute (astrolabe : Astrolabe) (fortune : option FortuneData)
    (r : InterpretResult) : list Event :=
  if isSupabaseConfigured
  then [StoreSave (chartId astrolabe) (getFortuneScope fortune) r]
  else [].

Variable upsertInterpretation : string -> string -> FortuneParams -> InterpretResult -> W -> W.

(** The world once the write to the persistent store has been issued. *)
Definition world_after_save (astrolabe : Astrolabe) (fortune : option FortuneData)
    (r : InterpretResult) (w : W) : W :=
  if isSupabaseConfigured
  then upsertInterpretation (chartId astrolabe) (getFortuneScope fortune)
         (buildFortuneParams fortune) r w
  else w.

End RequestVocabulary.

(** The hint that [withRetry] hands to [calculateBackoff] for an error. *)
Definition retry_hint (error : js_error) : option Z :=
  if instanceofRetryableError error then error_retryAfter error else None.

(** The world in which the next attempt starts, after a failed attempt
    that left the world [w]: the delay has been computed and waited. *)
Definition world_after_backoff {W : Type} (random : W -> Q * W) (delay : Q -> W -> W)
    (cfg : RetryConfig) (attempt : Z) (error : js_error) (w : W) : W :=
  delay (fst (calculateBackoff random attempt cfg (retry_hint error) w))
        (snd (calculateBackoff random attempt cfg (retry_hint error) w)).

(** [initialDelayMs * Math.pow(backoffMultiplier, attempt)]. *)
Definition exponentialDelay (cfg : RetryConfig) (attempt : Z) : Q :=
  (initialDelayMs cfg * pow_index (backoffMultiplier cfg) attempt)%Q.

(** The twelve palace fields and the summary are truthy values. *)
Definition all_text_truthy (r : InterpretResult) : Prop :=
  truthy (life r) = true /\ truthy (siblings r) = true /\ truthy (marriage r) = true /\
  truthy (children r) = true /\ truthy (wealth r) = true /\ truthy (health r) = true /\
  truthy (travel r) = true /\ truthy (friends r) = true /\ truthy (career r) = true /\
  truthy (property r) = true /\ truthy (fortune r) = true /\ truthy (parents r) = true /\
  truthy (summary r) = true.

(** [ttl || this.defaultTTL]: the time to live that [set] gives an
    entry. *)
Definition effective_ttl {T} (c : LRUCache T) (ttl : option Z) : Z :=
  match ttl with
  | Some t => if t =? 0 then defaultTTL c else t
  | None => defaultTTL c
  end.

(** No key of the cache is the empty string. *)
Definition keys_nonempty {T} (c : LRUCache T) : Prop :=
  Forall (fun k => k <> "") (recency c).

(** An entry is past its expiry at time [now]. *)
Definition expired {T} (now : Z) (entry : CacheEntry T) : bool := expiresAt entry <? now.

(** Every request to OpenAI is answered before the timeout of the
    configuration, with a response that satisfies [P]. *)
Definition answers_in_time {W} (fetchOpenAI : messages -> string -> W -> settle http_response * W)
    (config : LLMConfig) (P : http_response -> Prop) : Prop :=
  forall msgs m w, exists d r,
    fst (fetchOpenAI msgs m w) = Resolves d r /\ d < timer_delay (LLM.timeoutMs config) /\ P r.

(** A server error: status 500 or above. *)
Definition server_failure (r : http_response) : Prop := 500 <= LLM.status r.

(** A client error other than 429. *)
Definition client_failure (r : http_response) : Prop :=
  300 <= LLM.status r < 500 /\ LLM.status r <> 429.

(** Requests served one after the other by the same server process;
    each comes with the world it arrives in. *)
Fixpoint serve {W} (handle : Request -> Server W -> Handled W)
    (requests : list (Request * W)) (s : Server W) : list (outcome Response) * Server W :=
  match requests with
  | [] => ([], s)
  | (request, w) :: later =>
      let h := handle request (elapse s w) in
      let '(answers, s') := serve handle later (server h) in
      (response h :: answers, s')
  end.

(** The request was answered, and not with 429. *)
Definition served (o : outcome Response) : Prop :=
  exists resp, o = Returned resp /\ status resp <> 429.

(** The request comes from client [ip] and arrives no later than
    [deadline]. *)
Definition arrives_from {W} (now : W -> Z) (ip : string) (deadline : Z)
    (arrival : Request * W) : Prop :=
  getClientIP (req_headers (fst arrival)) = ip /\ now (snd arrival) <= deadline.

(** * Properties *)

Section RetryFacts.
Context {W T : Type}.
Variable random : W -> Q * W.
Variable delay : Q -> W -> W.
Variable fn : W -> settle T * W.

Lemma attempt_once_timeout (ms : Z) (s : settle T) :
  ms <> 0 -> timer_first ms s ->
  attempt_once (Some ms) s = AttemptError (PlainError TIMEOUT_MESSAGE).
Proof.
  intros Hms Ht. unfold attempt_once.
  destruct (Z.eqb_spec ms 0) as [|_]; [contradiction|].
  destruct s as [d v|d e|]; simpl in Ht; try reflexivity;
    destruct (Z.ltb_spec d (timer_delay ms)); try lia; reflexivity.
Qed.

(** One iteration that ends the loop: the attempt succeeds, never
    settles, or fails with an error that is not retried. *)
Lemma retry_loop_last (cfg : RetryConfig) fuel attempt lastError calls (w : W) :
  attempt <= maxRetries cfg ->
  (match attempt_once (Retry.timeoutMs cfg) (fst (fn w)) with
   | AttemptError e => maxRetries cfg <= attempt \/ isRetryableError e = false
   | _ => True
   end) ->
  retry_loop random delay fn cfg (S fuel) attempt lastError calls w =
  {| result := attempt_outcome (attempt_once (Retry.timeoutMs cfg) (fst (fn w)));
     invocations := S calls;
     world := snd (fn w) |}.
Proof.
  intros Hle Hlast. simpl.
  destruct (Z.leb_spec attempt (maxRetries cfg)) as [_|]; [|lia].
  destruct (fn w) as [s w1]. simpl in *.
  destruct (attempt_once (Retry.timeoutMs cfg) s) as [v|e|]; try reflexivity.
  destruct Hlast as [Hge | Hnr].
  - destruct (Z.leb_spec (maxRetries cfg) attempt); [reflexivity | lia].
  - rewrite Hnr. rewrite orb_true_r. reflexivity.
Qed.

End RetryFacts.

(** C1 (as amended).  In [withRetry], when the timer of an attempt fires
    first, the attempt fails with the plain [Error('請求超時')], which
    [isRetryableError] classifies as not retryable: whatever the attempt
    index and the retry budget left, the loop rethrows the error at once
    and does not invoke the operation again; in particular a first
    attempt that times out makes [withRetry] throw after one invocation. *)
Theorem C1_timeout_rethrown_at_once {W T : Type} (random : W -> Q * W)
    (delay : Q -> W -> W) (fn : W -> settle T * W) (config : PartialRetryConfig)
    (ms : Z) (fuel : nat) (attempt : Z) (lastError : js_error) (calls : nat) (w : W) :
  Retry.timeoutMs (fullConfig config) = Some ms -> ms <> 0 ->
  0 <= attempt <= maxRetries (fullConfig config) ->
  timer_first ms (fst (fn w)) ->
  isRetryableError (PlainError TIMEOUT_MESSAGE) = false /\
  retry_loop random delay fn (fullConfig config) (S fuel) attempt lastError calls w =
  {| result := Threw (PlainError TIMEOUT_MESSAGE);
     invocations := S calls;
     world := snd (fn w) |} /\
  withRetry random delay fn config w =
  {| result := Threw (PlainError TIMEOUT_MESSAGE);
     invocations := 1;
     world := snd (fn w) |}.
Proof.
  intros Hcfg Hms Hle Hfirst. split; [reflexivity|].
  pose proof (attempt_once_timeout ms (fst (fn w)) Hms Hfirst) as Hto.
  split.
  - rewrite retry_loop_last.
    + rewrite Hcfg, Hto. reflexivity.
    + lia.
    + rewrite Hcfg, Hto. right. reflexivity.
  - unfold withRetry.
    replace (Z.to_nat (maxRetries (fullConfig config) + 1))
      with (S (Z.to_nat (maxRetries (fullConfig config)))) by lia.
    rewrite retry_loop_last.
    + rewrite Hcfg, Hto. reflexivity.
    + lia.
    + rewrite Hcfg, Hto. right. reflexivity.
Qed.

Lemma C1_timeout_rethrown_witness :
  isRetryableError (PlainError TIMEOUT_MESSAGE) = false /\
  retry_loop Scenario.no_random Scenario.no_delay Scenario.never_settles
    (fullConfig Scenario.three_retries) 3 1 (PlainError "earlier") 1 tt =
  {| result := Threw (PlainError TIMEOUT_MESSAGE); invocations := 2; world := tt |} /\
  withRetry Scenario.no_random Scenario.no_delay Scenario.never_settles
    Scenario.three_retries tt =
  {| result := Threw (PlainError TIMEOUT_MESSAGE); invocations := 1; world := tt |}.
Proof.
  apply (C1_timeout_rethrown_at_once Scenario.no_random Scenario.no_delay
           Scenario.never_settles Scenario.three_retries 30000 2 1
           (PlainError "earlier") 1 tt).
  - reflexivity.
  - discriminate.
  - simpl. lia.
  - exact I.
Defined.

(** C1, the claim as stated, fails: with the default configuration
    (three retries left, a 30 s timer) an operation that never settles
    times out on attempt 0 and is invoked exactly once; the time-out
    error is thrown, no further attempt follows. *)
Lemma C1_timeout_not_retried :
  0 < maxRetries (fullConfig no_overrides) /\
  attempt_once (Retry.timeoutMs (fullConfig no_overrides)) (@Pending Z) =
    AttemptError (PlainError TIMEOUT_MESSAGE) /\
  withRetry Scenario.no_random Scenario.no_delay Scenario.never_settles no_overrides tt =
  {| result := Threw (PlainError TIMEOUT_MESSAGE); invocations := 1; world := tt |}.
Proof. repeat split. Qed.

(** C8.  [withRetry] with [maxRetries = 0] invokes the operation exactly
    once whatever the outcome, and a failure is rethrown as it is; with
    [maxRetries > 0], a first failure that is not retryable also gives
    exactly one invocation and rethrows the error at once. *)
Theorem C8_single_invocation {W T : Type} (random : W -> Q * W)
    (delay : Q -> W -> W) (fn : W -> settle T * W)
    (config : PartialRetryConfig) (w : W) :
  maxRetries (fullConfig config) = 0 \/
  (0 < maxRetries (fullConfig config) /\
   exists e, attempt_once (Retry.timeoutMs (fullConfig config)) (fst (fn w)) = AttemptError e /\
             isRetryableError e = false) ->
  invocations (withRetry random delay fn config w) = 1%nat /\
  result (withRetry random delay fn config w) =
    attempt_outcome (attempt_once (Retry.timeoutMs (fullConfig config)) (fst (fn w))) /\
  world (withRetry random delay fn config w) = snd (fn w).
Proof.
  intros H. unfold withRetry.
  assert (Hfuel : exists fuel, Z.to_nat (maxRetries (fullConfig config) + 1) = S fuel).
  { exists (Z.to_nat (maxRetries (fullConfig config))).
    destruct H as [-> | [Hpos _]]; [reflexivity | lia]. }
  destruct Hfuel as [fuel ->].
  rewrite retry_loop_last.
  - repeat split.
  - destruct H as [-> | [Hpos _]]; lia.
  - destruct H as [H0 | [_ (e & He & Hnr)]].
    + destruct (attempt_once _ _); auto. left. lia.
    + rewrite He. right. exact Hnr.
Qed.

Lemma C8_single_invocation_witness :
  invocations (withRetry Scenario.no_random Scenario.no_delay Scenario.always_fails
                 Scenario.three_retries tt) = 1%nat /\
  result (withRetry Scenario.no_random Scenario.no_delay Scenario.always_fails
            Scenario.three_retries tt) = Threw (PlainError "non-retryable") /\
  world (withRetry Scenario.no_random Scenario.no_delay Scenario.always_fails
           Scenario.three_retries tt) = tt.
Proof.
  apply (C8_single_invocation Scenario.no_random Scenario.no_delay Scenario.always_fails
           Scenario.three_retries tt).
  right. split.
  - simpl. lia.
  - exists (PlainError "non-retryable"). split; reflexivity.
Defined.

Section FallbackFacts.
Context {W : Type}.
Variable random : W -> Q * W.
Variable delay : Q -> W -> W.

(** The ghost counter only grows, by at most the iterations left, and
    by at least one when an iteration runs. *)
Lemma retry_loop_invocations {T} (fn : W -> settle T * W) (cfg : RetryConfig)
    fuel attempt lastError calls (w : W) :
  (calls <= invocations (retry_loop random delay fn cfg fuel attempt lastError calls w)
     <= calls + fuel)%nat /\
  (attempt <= maxRetries cfg -> fuel <> O ->
   (calls < invocations (retry_loop random delay fn cfg fuel attempt lastError calls w))%nat).
Proof.
  revert attempt lastError calls w.
  induction fuel as [|fuel IH]; intros attempt lastError calls w; simpl.
  - split; [lia | congruence].
  - destruct (Z.leb_spec attempt (maxRetries cfg)) as [Hle|Hgt]; simpl.
    2:{ split; [lia | intros; lia]. }
    destruct (fn w) as [s w1].
    destruct (attempt_once (Retry.timeoutMs cfg) s) as [v|e|]; simpl;
      try (split; [lia | intros; lia]).
    destruct (_ || _); simpl; [split; [lia | intros; lia]|].
    destruct (calculateBackoff _ _ _ _ _) as [delayMs w2].
    match goal with
    | |- context [retry_loop _ _ _ _ fuel ?a ?e ?c ?x] =>
        destruct (IH a e c x) as [[Hlo Hhi] _]
    end.
    split; [lia | intros; lia].
Qed.

(** An operation that always settles cannot make [withRetry] hang. *)
Lemma retry_loop_settles {T} (fn : W -> settle T * W) (cfg : RetryConfig)
    fuel attempt lastError calls (w : W) :
  (forall w', fst (fn w') <> Pending) ->
  result (retry_loop random delay fn cfg fuel attempt lastError calls w) <> Hangs.
Proof.
  intros Hsettles. revert attempt lastError calls w.
  induction fuel as [|fuel IH]; intros attempt lastError calls w; simpl; [discriminate|].
  destruct (attempt <=? maxRetries cfg); simpl; [|discriminate].
  pose proof (Hsettles w) as Hw.
  destruct (fn w) as [s w1]. simpl in Hw.
  assert (Ha : attempt_once (Retry.timeoutMs cfg) s <> AttemptNever).
  { unfold attempt_once.
    destruct (Retry.timeoutMs cfg) as [ms|]; [destruct (ms =? 0)|];
      destruct s as [d v|d e|]; try congruence;
      destruct (d <? timer_delay ms); congruence. }
  destruct (attempt_once (Retry.timeoutMs cfg) s) as [v|e|]; simpl;
    [discriminate | | congruence].
  destruct (_ || _); simpl; [discriminate|].
  destruct (calculateBackoff _ _ _ _ _) as [delayMs w2]. apply IH.
Qed.

Variable fetchOpenAI : messages -> string -> W -> settle http_response * W.

Lemma callOpenAIAPI_settles msgs config m (w : W) :
  fst (callOpenAIAPI fetchOpenAI msgs config m w) <> Pending.
Proof.
  unfold callOpenAIAPI.
  destruct (fetchOpenAI msgs _ w) as [s w1].
  destruct s as [d r|d e|]; simpl.
  - destruct (d <? timer_delay (timeoutMs config)); simpl; [|discriminate].
    destruct (handle_response r); discriminate.
  - destruct (d <? timer_delay (timeoutMs config)); discriminate.
  - discriminate.
Qed.

(** One model of the chain: between one and three API invocations, and
    the call returns or throws. *)
Lemma model_call_bounds msgs config m (w : W) :
  (1 <= invocations (withRetry random delay (callOpenAIAPI fetchOpenAI msgs config m)
                       (fallbackRetryConfig config) w) <= 3)%nat /\
  result (withRetry random delay (callOpenAIAPI fetchOpenAI msgs config m)
            (fallbackRetryConfig config) w) <> Hangs.
Proof.
  unfold withRetry. split.
  - match goal with
    | |- context [retry_loop _ _ ?f ?c ?n ?a ?e ?k ?x] =>
        destruct (retry_loop_invocations f c n a e k x) as [[Hlo Hhi] Hpos]
    end.
    simpl in *. split; [|lia].
    apply Hpos; [lia | discriminate].
  - apply retry_loop_settles. intros w'. apply callOpenAIAPI_settles.
Qed.

End FallbackFacts.

Section ChainFacts.
Context {W : Type}.
Variable random : W -> Q * W.
Variable delay : Q -> W -> W.
Variable fetchOpenAI : messages -> string -> W -> settle http_response * W.


Lemma fallback_loop_spec msgs config models lastError tried (w : W) :
  exists news,
    fb_tried (fallback_loop random delay fetchOpenAI msgs config models lastError tried w)
      = tried ++ news /\
    map tm_model news `prefix_of` models /\
    Forall (fun t => (1 <= tm_invocations t <= 3)%nat) news /\
    fb_result (fallback_loop random delay fetchOpenAI msgs config models lastError tried w)
      <> Hangs /\
    ((news = [] /\ models = [] /\
      fb_result (fallback_loop random delay fetchOpenAI msgs config models lastError tried w)
        = Threw lastError) \/
     (exists earlier l,
        news = earlier ++ [l] /\ Forall threw earlier /\
        fb_result (fallback_loop random delay fetchOpenAI msgs config models lastError tried w)
          = tm_outcome l /\
        (threw l -> map tm_model news = models))).
Proof.
  revert lastError tried w.
  induction models as [|m rest IH]; intros lastError tried w; simpl.
  - exists []. rewrite app_nil_r. repeat split; auto; try discriminate.
  - destruct (model_call_bounds random delay fetchOpenAI msgs config m w) as [Hb Hh].
    set (r := withRetry random delay (callOpenAIAPI fetchOpenAI msgs config m)
                (fallbackRetryConfig config) w) in *.
    destruct (result r) as [v|e|] eqn:Hr; [| |congruence].
    + set (t := {| tm_model := m; tm_invocations := invocations r;
                   tm_outcome := Returned v |}).
      exists [t]. simpl.
      split; [reflexivity|]. split; [apply prefix_cons, prefix_nil|].
      split; [constructor; [apply Hb | constructor]|]. split; [discriminate|].
      right. exists [], t.
      split; [reflexivity|]. split; [constructor|]. split; [reflexivity|].
      intros [e He]. discriminate He.
    + set (t := {| tm_model := m; tm_invocations := invocations r;
                   tm_outcome := Threw e |}).
      destruct (IH e (tried ++ [t]) (world r))
        as (news & Htried & Hpre & Hinv & Hnh & Hcases).
      exists (t :: news). rewrite Htried, <- app_assoc. simpl.
      split; [reflexivity|]. split; [apply prefix_cons; exact Hpre|].
      split; [constructor; [apply Hb | exact Hinv]|]. split; [exact Hnh|].
      right.
      destruct Hcases as [(-> & -> & Hres) | (earlier & l & -> & Hearlier & Hres & Hall)].
      * exists [], t.
        split; [reflexivity|]. split; [constructor|]. split; [exact Hres|].
        reflexivity.
      * exists (t :: earlier), l.
        split; [reflexivity|].
        split; [constructor; [exists e; reflexivity | exact Hearlier]|].
        split; [exact Hres|].
        intros Hl. simpl. f_equal. apply Hall. exact Hl.
Qed.


End ChainFacts.


Section RateLimitFacts.
Variable identifier : string.
Variable config : RateLimitConfig.

Lemma ceil_div_spec (a : Z) :
  1000 * (ceil_div a 1000 - 1) < a <= 1000 * ceil_div a 1000.
Proof.
  unfold ceil_div.
  pose proof (Z.div_mod (- a) 1000 ltac:(lia)) as Hdm.
  pose proof (Z.mod_pos_bound (- a) 1000 ltac:(lia)) as Hb.
  lia.
Qed.

(** The first call of a window. *)
Lemma call_opens_window now (store : gmap string RateLimitRecord) :
  window_opens (store_key identifier config) now store ->
  checkRateLimit identifier config now store =
  ({| allowed := true; remaining := maxRequests config - 1;
      r_resetTime := now + windowMs config; retryAfter := None |},
   <[store_key identifier config :=
       {| count := 1; resetTime := now + windowMs config |}]> store).
Proof.
  unfold window_opens, checkRateLimit. intros Hopen.
  destruct (store !! store_key identifier config) as [record|]; [|reflexivity].
  destruct (Z.ltb_spec (resetTime record) now); [reflexivity | lia].
Qed.

(** A call inside the window, below the quota. *)
Lemma call_in_window now c reset (store : gmap string RateLimitRecord) :
  store !! store_key identifier config = Some {| count := c; resetTime := reset |} ->
  now <= reset -> c < maxRequests config ->
  checkRateLimit identifier config now store =
  ({| allowed := true; remaining := maxRequests config - (c + 1);
      r_resetTime := reset; retryAfter := None |},
   <[store_key identifier config := {| count := c + 1; resetTime := reset |}]> store).
Proof.
  unfold checkRateLimit. intros -> Hnow Hc. simpl.
  destruct (Z.ltb_spec reset now); [lia|].
  destruct (Z.leb_spec (maxRequests config) c); [lia | reflexivity].
Qed.

(** A call inside the window, at the quota. *)
Lemma call_over_quota now c reset (store : gmap string RateLimitRecord) :
  store !! store_key identifier config = Some {| count := c; resetTime := reset |} ->
  now <= reset -> maxRequests config <= c ->
  checkRateLimit identifier config now store =
  ({| allowed := false; remaining := 0; r_resetTime := reset;
      retryAfter := Some (ceil_div (reset - now) 1000) |},
   store).
Proof.
  unfold checkRateLimit. intros -> Hnow Hc. simpl.
  destruct (Z.ltb_spec reset now); [lia|].
  destruct (Z.leb_spec (maxRequests config) c); [reflexivity | lia].
Qed.

Lemma successive_in_window times : forall c reset (store : gmap string RateLimitRecord),
  store !! store_key identifier config = Some {| count := c; resetTime := reset |} ->
  Forall (fun ti => ti <= reset) times ->
  c + Z.of_nat (length times) <= maxRequests config ->
  Forall (fun r => allowed r = true) (fst (successive_calls identifier config times store)) /\
  length (fst (successive_calls identifier config times store)) = length times /\
  snd (successive_calls identifier config times store) !! store_key identifier config =
    Some {| count := c + Z.of_nat (length times); resetTime := reset |}.
Proof.
  induction times as [|now later IH]; intros c reset store Hrec Hin Hquota; simpl.
  - split; [constructor|]. split; [reflexivity|]. rewrite Z.add_0_r. exact Hrec.
  - inversion Hin as [|? ? Hnow Hlater]; subst.
    simpl length in Hquota.
    rewrite (call_in_window now c reset store Hrec Hnow) by lia.
    specialize (IH (c + 1) reset
                  (<[store_key identifier config :=
                       {| count := c + 1; resetTime := reset |}]> store)).
    destruct (successive_calls identifier config later _) as [rs store2].
    simpl in *.
    destruct IH as (Hall & Hlen & Hstore); [apply lookup_insert_eq | exact Hlater | lia |].
    split; [constructor; [reflexivity | exact Hall]|].
    split; [rewrite Hlen; reflexivity|].
    rewrite Hstore. do 2 f_equal. lia.
Qed.

(** Rejecting, not clamping, keeps the stored count within the quota. *)
Lemma count_bounded_preserved now (store : gmap string RateLimitRecord) :
  1 <= maxRequests config ->
  count_bounded (store_key identifier config) (maxRequests config) store ->
  count_bounded (store_key identifier config) (maxRequests config)
    (snd (checkRateLimit identifier config now store)).
Proof.
  intros Hn Hb record. unfold checkRateLimit.
  destruct (store !! store_key identifier config) as [old|] eqn:Hold; simpl.
  - destruct (resetTime old <? now); simpl.
    + rewrite lookup_insert_eq. intros [= <-]. simpl. lia.
    + destruct (Z.leb_spec (maxRequests config) (count old)); simpl.
      * rewrite Hold. intros [= <-]. apply Hb. exact Hold.
      * rewrite lookup_insert_eq. intros [= <-]. simpl. lia.
  - rewrite lookup_insert_eq. intros [= <-]. simpl. lia.
Qed.

End RateLimitFacts.

(** C2 (as amended).  For every policy with [maxRequests = N >= 1] and
    every identity: when a call at [t0] opens a window, it and the next
    [N - 1] calls in that window are allowed and leave the count at [N];
    the next call in the window is rejected with [remaining = 0] and
    [retryAfter = ceil((resetTime - now) / 1000)] and leaves the store as
    it was; a call after the reset time is allowed with a fresh record of
    count 1; and no call ever makes the stored count exceed [N]. *)
Theorem C2_rate_window (identifier : string) (config : RateLimitConfig)
    (store : gmap string RateLimitRecord) (t0 : Z) (times : list Z) (t t' : Z) :
  1 <= maxRequests config ->
  window_opens (store_key identifier config) t0 store ->
  length times = Z.to_nat (maxRequests config - 1) ->
  Forall (fun ti => ti <= t0 + windowMs config) times ->
  t <= t0 + windowMs config ->
  t0 + windowMs config < t' ->
  Forall (fun r => allowed r = true)
    (fst (successive_calls identifier config (t0 :: times) store)) /\
  Z.of_nat (length (fst (successive_calls identifier config (t0 :: times) store)))
    = maxRequests config /\
  snd (successive_calls identifier config (t0 :: times) store) !! store_key identifier config
    = Some {| count := maxRequests config; resetTime := t0 + windowMs config |} /\
  allowed (fst (checkRateLimit identifier config t
                  (snd (successive_calls identifier config (t0 :: times) store)))) = false /\
  remaining (fst (checkRateLimit identifier config t
                    (snd (successive_calls identifier config (t0 :: times) store)))) = 0 /\
  (exists seconds,
     retryAfter (fst (checkRateLimit identifier config t
                        (snd (successive_calls identifier config (t0 :: times) store))))
       = Some seconds /\
     1000 * (seconds - 1) < t0 + windowMs config - t <= 1000 * seconds) /\
  snd (checkRateLimit identifier config t
         (snd (successive_calls identifier config (t0 :: times) store)))
    = snd (successive_calls identifier config (t0 :: times) store) /\
  allowed (fst (checkRateLimit identifier config t'
                  (snd (successive_calls identifier config (t0 :: times) store)))) = true /\
  snd (checkRateLimit identifier config t'
         (snd (successive_calls identifier config (t0 :: times) store)))
    !! store_key identifier config
    = Some {| count := 1; resetTime := t' + windowMs config |} /\
  forall now s,
    count_bounded (store_key identifier config) (maxRequests config) s ->
    count_bounded (store_key identifier config) (maxRequests config)
      (snd (checkRateLimit identifier config now s)).
Proof.
  intros Hn Hopen Hlen Hin Ht Ht'.
  simpl successive_calls.
  rewrite (call_opens_window identifier config t0 store Hopen).
  pose proof (successive_in_window identifier config times 1 (t0 + windowMs config)
                (<[store_key identifier config :=
                     {| count := 1; resetTime := t0 + windowMs config |}]> store)
                (lookup_insert_eq _ _ _) Hin ltac:(lia)) as Hrun.
  destruct (successive_calls identifier config times _) as [rs store1].
  simpl in *. destruct Hrun as (Hall & Hlen' & Hstore).
  replace (1 + Z.of_nat (length times)) with (maxRequests config) in Hstore by lia.
  rewrite (call_over_quota identifier config t _ _ store1 Hstore Ht ltac:(lia)).
  simpl.
  split; [constructor; [reflexivity | exact Hall]|].
  split; [lia|]. split; [exact Hstore|].
  split; [reflexivity|]. split; [reflexivity|].
  split; [eexists; split; [reflexivity | apply ceil_div_spec]|].
  split; [reflexivity|].
  rewrite (call_opens_window identifier config t' store1).
  - simpl. split; [reflexivity|]. split; [apply lookup_insert_eq|].
    intros now s. apply count_bounded_preserved. exact Hn.
  - unfold window_opens. rewrite Hstore. simpl. exact Ht'.
Qed.

Lemma C2_rate_window_witness :
  Forall (fun r => allowed r = true)
    (fst (successive_calls "1.2.3.4" Scenario.three_per_minute (1000 :: [2000; 61000]) ∅)) /\
  Z.of_nat (length (fst (successive_calls "1.2.3.4" Scenario.three_per_minute
                           (1000 :: [2000; 61000]) ∅))) = 3 /\
  snd (successive_calls "1.2.3.4" Scenario.three_per_minute (1000 :: [2000; 61000]) ∅)
    !! store_key "1.2.3.4" Scenario.three_per_minute
    = Some {| count := 3; resetTime := 61000 |} /\
  allowed (fst (checkRateLimit "1.2.3.4" Scenario.three_per_minute 59500
                  (snd (successive_calls "1.2.3.4" Scenario.three_per_minute
                          (1000 :: [2000; 61000]) ∅)))) = false /\
  remaining (fst (checkRateLimit "1.2.3.4" Scenario.three_per_minute 59500
                    (snd (successive_calls "1.2.3.4" Scenario.three_per_minute
                            (1000 :: [2000; 61000]) ∅)))) = 0 /\
  (exists seconds,
     retryAfter (fst (checkRateLimit "1.2.3.4" Scenario.three_per_minute 59500
                        (snd (successive_calls "1.2.3.4" Scenario.three_per_minute
                                (1000 :: [2000; 61000]) ∅))))
       = Some seconds /\
     1000 * (seconds - 1) < 1000 + 60000 - 59500 <= 1000 * seconds) /\
  snd (checkRateLimit "1.2.3.4" Scenario.three_per_minute 59500
         (snd (successive_calls "1.2.3.4" Scenario.three_per_minute (1000 :: [2000; 61000]) ∅)))
    = snd (successive_calls "1.2.3.4" Scenario.three_per_minute (1000 :: [2000; 61000]) ∅) /\
  allowed (fst (checkRateLimit "1.2.3.4" Scenario.three_per_minute 61001
                  (snd (successive_calls "1.2.3.4" Scenario.three_per_minute
                          (1000 :: [2000; 61000]) ∅)))) = true /\
  snd (checkRateLimit "1.2.3.4" Scenario.three_per_minute 61001
         (snd (successive_calls "1.2.3.4" Scenario.three_per_minute (1000 :: [2000; 61000]) ∅)))
    !! store_key "1.2.3.4" Scenario.three_per_minute
    = Some {| count := 1; resetTime := 61001 + 60000 |} /\
  forall now s,
    count_bounded (store_key "1.2.3.4" Scenario.three_per_minute) 3 s ->
    count_bounded (store_key "1.2.3.4" Scenario.three_per_minute) 3
      (snd (checkRateLimit "1.2.3.4" Scenario.three_per_minute now s)).
Proof.
  apply (C2_rate_window "1.2.3.4" Scenario.three_per_minute ∅ 1000 [2000; 61000] 59500 61001).
  - simpl. lia.
  - exact I.
  - reflexivity.
  - repeat constructor; simpl; lia.
  - simpl. lia.
  - simpl. lia.
Defined.

(** C2, the claim as stated, fails for [maxRequests = 0]: the first call
    of a window, which is the (N+1)th, is allowed, and the stored count,
    1, exceeds N. *)
Lemma C2_zero_quota_admits :
  maxRequests Scenario.zero_quota = 0 /\
  allowed (fst (checkRateLimit "1.2.3.4" Scenario.zero_quota 1000 ∅)) = true /\
  snd (checkRateLimit "1.2.3.4" Scenario.zero_quota 1000 ∅)
    !! store_key "1.2.3.4" Scenario.zero_quota
    = Some {| count := 1; resetTime := 61000 |}.
Proof.
  split; [reflexivity|]. split; [reflexivity|].
  unfold checkRateLimit. rewrite lookup_empty. simpl. apply lookup_insert_eq.
Qed.

Section MapFacts.
Context {V : Type}.
Implicit Types (m : list (string * V)) (k : string).

Lemma map_get_delete_eq k m : map_get k (map_delete k m) = None.
Proof.
  induction m as [|[k' v] m IH]; simpl; [reflexivity|].
  destruct (String.eqb_spec k k') as [->|Hne]; simpl; [exact IH|].
  destruct (String.eqb_spec k k'); [contradiction | exact IH].
Qed.

Lemma map_get_delete_ne k k' m : k <> k' -> map_get k' (map_delete k m) = map_get k' m.
Proof.
  intros Hne. induction m as [|[k0 v] m IH]; simpl; [reflexivity|].
  destruct (String.eqb_spec k k0) as [->|Hk]; simpl.
  - destruct (String.eqb_spec k' k0); [congruence | exact IH].
  - destruct (String.eqb_spec k' k0); [reflexivity | exact IH].
Qed.

Lemma map_get_set_eq k v m : map_get k (map_set k v m) = Some v.
Proof.
  induction m as [|[k' v'] m IH]; simpl.
  - rewrite String.eqb_refl. reflexivity.
  - destruct (String.eqb_spec k k') as [->|Hne]; simpl.
    + rewrite String.eqb_refl. reflexivity.
    + destruct (String.eqb_spec k k'); [contradiction | exact IH].
Qed.

Lemma map_get_set_ne k k' v m : k <> k' -> map_get k' (map_set k v m) = map_get k' m.
Proof.
  intros Hne. induction m as [|[k0 v0] m IH]; simpl.
  - destruct (String.eqb_spec k' k); [congruence | reflexivity].
  - destruct (String.eqb_spec k k0) as [->|Hk]; simpl.
    + destruct (String.eqb_spec k' k0); [congruence | reflexivity].
    + destruct (String.eqb_spec k' k0); [reflexivity | exact IH].
Qed.

Lemma map_get_None_keys k m : map_get k m = None <-> k ∉ map fst m.
Proof.
  induction m as [|[k' v] m IH]; simpl.
  - split; [intros _ H; inversion H | reflexivity].
  - rewrite not_elem_of_cons.
    destruct (String.eqb_spec k k') as [->|Hne].
    + split; [discriminate | intros [H _]; contradiction].
    + rewrite IH. tauto.
Qed.

(** Filtering a map with distinct keys keeps or drops the binding of a
    key; it never uncovers another one. *)
Lemma map_get_filter (keep : string * V -> bool) k m :
  NoDup (map fst m) ->
  map_get k (List.filter keep m) =
  match map_get k m with
  | Some v => if keep (k, v) then Some v else None
  | None => None
  end.
Proof.
  induction m as [|[k' v] m IH]; simpl; [reflexivity|].
  intros Hnd. apply NoDup_cons in Hnd as [Hnotin Hnd].
  destruct (String.eqb_spec k k') as [->|Hne].
  - destruct (keep (k', v)) eqn:Hkeep; simpl.
    + rewrite String.eqb_refl. reflexivity.
    + rewrite (IH Hnd). apply map_get_None_keys in Hnotin. rewrite Hnotin. reflexivity.
  - destruct (keep (k', v)); simpl; [|exact (IH Hnd)].
    destruct (String.eqb_spec k k'); [contradiction | exact (IH Hnd)].
Qed.

Lemma keys_delete k k' m : k' ∈ map fst (map_delete k m) -> k' ∈ map fst m /\ k' <> k.
Proof.
  induction m as [|[k0 v] m IH]; simpl; [intros H; inversion H|].
  destruct (String.eqb_spec k k0) as [->|Hne]; simpl.
  - intros H. destruct (IH H) as [Hin Hk]. split; [right; exact Hin | exact Hk].
  - rewrite !elem_of_cons. intros [->|H]; [split; [left; reflexivity | congruence]|].
    destruct (IH H) as [Hin Hk]. split; [right; exact Hin | exact Hk].
Qed.

Lemma NoDup_delete k m : NoDup (map fst m) -> NoDup (map fst (map_delete k m)).
Proof.
  induction m as [|[k0 v] m IH]; simpl; [auto|].
  intros Hnd. apply NoDup_cons in Hnd as [Hnotin Hnd].
  destruct (String.eqb k k0); simpl; [auto|].
  apply NoDup_cons. split; [|auto].
  intros Hin. apply keys_delete in Hin as [Hin _]. contradiction.
Qed.

Lemma keys_set k k' v m : k' ∈ map fst (map_set k v m) -> k' = k \/ k' ∈ map fst m.
Proof.
  induction m as [|[k0 v0] m IH]; simpl.
  - rewrite list_elem_of_singleton. auto.
  - destruct (String.eqb_spec k k0) as [->|Hne]; simpl; rewrite !elem_of_cons.
    + intros [->|H]; auto.
    + intros [->|H]; [auto|]. destruct (IH H); auto.
Qed.

Lemma NoDup_set k v m : NoDup (map fst m) -> NoDup (map fst (map_set k v m)).
Proof.
  induction m as [|[k0 v0] m IH]; simpl; [intros _; apply NoDup_singleton|].
  intros Hnd. pose proof Hnd as Hnd0. apply NoDup_cons in Hnd as [Hnotin Hnd].
  destruct (String.eqb_spec k k0) as [->|Hne]; simpl; [exact Hnd0|].
  apply NoDup_cons. split; [|auto].
  intros Hin. apply keys_set in Hin as [->|Hin]; contradiction.
Qed.

Lemma NoDup_filter_keys (keep : string * V -> bool) m :
  NoDup (map fst m) -> NoDup (map fst (List.filter keep m)).
Proof.
  induction m as [|[k0 v] m IH]; simpl; [auto|].
  intros Hnd. apply NoDup_cons in Hnd as [Hnotin Hnd].
  destruct (keep (k0, v)); simpl; [|auto].
  apply NoDup_cons. split; [|auto].
  intros Hin. apply Hnotin.
  clear -Hin. induction m as [|[k1 v1] m IHm]; simpl in *; [exact Hin|].
  destruct (keep (k1, v1)); simpl in *; rewrite ?elem_of_cons in *.
  - destruct Hin as [->|Hin]; auto.
  - auto.
Qed.

End MapFacts.

(** The operations of the cache keep its keys pairwise distinct, as the
    keys of a [Map] are. *)
Lemma wf_cache_preserved {T : Type} (c : LRUCache T) (key : string) (v : T)
    (ttl : option Z) (now : Z) :
  wf_cache (Cache.new (T:=T) (maxSize c) (defaultTTL c)) /\
  (wf_cache c ->
   wf_cache (snd (Cache.get key now c)) /\
   wf_cache (Cache.set key v ttl now c) /\
   wf_cache (snd (Cache.has key now c)) /\
   wf_cache (snd (Cache.delete key c)) /\
   wf_cache (snd (Cache.cleanup now c))).
Proof.
  unfold wf_cache. split; [apply NoDup_nil_2|]. intros Hwf.
  split; [|split; [|split; [|split]]].
  - unfold Cache.get. destruct (map_get key (cache c)) as [entry|]; [|exact Hwf].
    destruct (expiresAt entry <? now); simpl.
    + apply NoDup_delete. exact Hwf.
    + apply NoDup_set, NoDup_delete. exact Hwf.
  - unfold Cache.set. simpl. apply NoDup_set.
    assert (H1 : NoDup (map fst (if map_has key (cache c)
                                 then map_delete key (cache c) else cache c))).
    { destruct (map_has key (cache c)); [apply NoDup_delete|]; exact Hwf. }
    destruct (maxSize c <=? _); [|exact H1].
    destruct (first_key _) as [[|a rest]|]; try exact H1.
    apply NoDup_delete. exact H1.
  - unfold Cache.has. destruct (map_get key (cache c)) as [entry|]; [|exact Hwf].
    destruct (expiresAt entry <? now); simpl; [apply NoDup_delete|]; exact Hwf.
  - simpl. apply NoDup_delete. exact Hwf.
  - simpl. apply NoDup_filter_keys. exact Hwf.
Qed.

(** C4 (as amended).  An entry of the LRU cache is visible to [get] and
    [has] exactly while [now <= expiresAt]: when [now > expiresAt], both
    delete the entry and answer absent / false; otherwise they answer the
    value / true.  A value that [get] returns is never past its expiry,
    and for a cache with distinct keys the answers are the same whether
    or not the cleanup sweep ran before. *)
Theorem C4_visible_until_expiry {T : Type} (c : LRUCache T) (key : string) (now : Z) :
  (forall entry, map_get key (cache c) = Some entry -> expiresAt entry < now ->
     fst (Cache.get key now c) = None /\
     fst (Cache.has key now c) = false /\
     map_get key (cache (snd (Cache.get key now c))) = None /\
     map_get key (cache (snd (Cache.has key now c))) = None) /\
  (forall entry, map_get key (cache c) = Some entry -> now <= expiresAt entry ->
     fst (Cache.get key now c) = Some (value entry) /\
     fst (Cache.has key now c) = true) /\
  (map_get key (cache c) = None ->
     fst (Cache.get key now c) = None /\ fst (Cache.has key now c) = false) /\
  (forall v, fst (Cache.get key now c) = Some v ->
     exists entry, map_get key (cache c) = Some entry /\ value entry = v /\
                   now <= expiresAt entry) /\
  (forall swept, wf_cache c -> swept <= now ->
     fst (Cache.get key now (snd (Cache.cleanup swept c))) = fst (Cache.get key now c) /\
     fst (Cache.has key now (snd (Cache.cleanup swept c))) = fst (Cache.has key now c)).
Proof.
  unfold Cache.get, Cache.has.
  split; [|split; [|split; [|split]]].
  - intros entry -> Hexp.
    destruct (Z.ltb_spec (expiresAt entry) now); [|lia]. simpl.
    rewrite map_get_delete_eq. auto.
  - intros entry -> Hlive.
    destruct (Z.ltb_spec (expiresAt entry) now); [lia|]. auto.
  - intros ->. auto.
  - intros v. destruct (map_get key (cache c)) as [entry|]; [|discriminate].
    destruct (Z.ltb_spec (expiresAt entry) now); [discriminate|].
    simpl. intros [= <-]. exists entry. auto.
  - intros swept Hwf Hswept. unfold Cache.cleanup. simpl.
    rewrite (map_get_filter _ key (cache c) Hwf).
    destruct (map_get key (cache c)) as [entry|]; [|auto]. simpl.
    destruct (Z.ltb_spec (expiresAt entry) swept); simpl.
    + destruct (Z.ltb_spec (expiresAt entry) now); [auto | lia].
    + destruct (expiresAt entry <? now); auto.
Qed.

(** C4, the claim as stated, fails at the boundary: at
    [now = expiresAt], where [now < expiresAt] does not hold, [get] still
    returns the value and [has] still answers true. *)
Lemma C4_visible_at_expiry :
  map_get "key1" (cache Scenario.one_entry) = Some {| value := "value1"; expiresAt := 100 |} /\
  ~ (100 < 100) /\
  fst (Cache.get "key1" 100 Scenario.one_entry) = Some "value1" /\
  fst (Cache.has "key1" 100 Scenario.one_entry) = true.
Proof. split; [reflexivity|]. split; [lia|]. split; reflexivity. Qed.

Section EvictionFacts.
Context {T : Type}.

Lemma eqb_ne (a b : string) : a <> b -> String.eqb a b = false.
Proof. intros H. apply String.eqb_neq. exact H. Qed.

(** With three entries under pairwise distinct keys, the oldest one not
    the empty string, a [set] of a fourth key drops exactly the oldest
    entry and appends the new one. *)
Lemma set_fourth_key_evicts_oldest (c : LRUCache T) k1 k2 k3 k4 e1 e2 e3 v ttl now :
  maxSize c = 3 ->
  cache c = [(k1, e1); (k2, e2); (k3, e3)] ->
  k1 <> "" -> k1 <> k2 -> k1 <> k3 ->
  k4 <> k1 -> k4 <> k2 -> k4 <> k3 ->
  exists e4,
    cache (Cache.set k4 v ttl now c) = [(k2, e2); (k3, e3); (k4, e4)] /\ value e4 = v.
Proof.
  intros Hmax Hc Hne H12 H13 H41 H42 H43.
  unfold Cache.set, map_has, map_size. rewrite Hc, Hmax. cbn -[String.eqb].
  rewrite (eqb_ne k4 k1 H41), (eqb_ne k4 k2 H42), (eqb_ne k4 k3 H43).
  cbn -[String.eqb].
  change (3 <=? Z.of_nat 3) with true.
  destruct k1 as [|a rest]; [contradiction|].
  do 3 (cbn -[String.eqb];
        rewrite ?String.eqb_refl, ?(eqb_ne _ k2 H12), ?(eqb_ne _ k3 H13),
          ?(eqb_ne k4 k2 H42), ?(eqb_ne k4 k3 H43)).
  eexists. split; reflexivity.
Qed.

(** A successful [get] moves the entry to the most recently used end. *)
Lemma get_refreshes_recency (c : LRUCache T) k1 k2 k3 e1 e2 e3 now :
  cache c = [(k1, e1); (k2, e2); (k3, e3)] ->
  k1 <> k2 -> k1 <> k3 -> now <= expiresAt e1 ->
  Cache.get k1 now c =
  (Some (value e1), with_cache c [(k2, e2); (k3, e3); (k1, e1)]).
Proof.
  intros Hc H12 H13 Hlive. unfold Cache.get. rewrite Hc. cbn -[String.eqb].
  rewrite String.eqb_refl.
  destruct (Z.ltb_spec (expiresAt e1) now); [lia|].
  do 2 (cbn -[String.eqb]; rewrite ?(eqb_ne k1 k2 H12), ?(eqb_ne k1 k3 H13)).
  reflexivity.
Qed.

End EvictionFacts.

(** C5 at the failing input: in a cache with [maxSize = 3] whose least
    recently used key is the empty string, setting a fourth key evicts
    nothing; the cache then holds four entries. *)
Lemma C5_empty_key_not_evicted :
  maxSize Scenario.full_with_empty_key = 3 /\
  recency Scenario.full_with_empty_key = [""; "a"; "b"] /\
  recency (Cache.set "c" "vc" None 4 Scenario.full_with_empty_key) = [""; "a"; "b"; "c"] /\
  Cache.size (Cache.set "c" "vc" None 4 Scenario.full_with_empty_key) = 4.
Proof. repeat split. Qed.

(** The behaviour of the unit tests, for comparison: with non-empty keys
    the fourth key evicts [key1], and after [get('key1')] it evicts
    [key2] instead. *)
Lemma eviction_of_nonempty_keys :
  recency (Cache.set "key4" "value4" None 4 Scenario.full_cache) = ["key2"; "key3"; "key4"] /\
  recency (Cache.set "key4" "value4" None 5
             (snd (Cache.get "key1" 4 Scenario.full_cache))) = ["key3"; "key1"; "key4"].
Proof. split; reflexivity. Qed.

(** Structural induction on JSON values. *)
Lemma json_induction (P : json -> Prop) :
  P JNull -> (forall b, P (JBool b)) -> (forall z, P (JNum z)) -> (forall s, P (JStr s)) ->
  (forall items, Forall P items -> P (JArr items)) ->
  (forall props, Forall (fun kv => P (snd kv)) props -> P (JObj props)) ->
  forall v, P v.
Proof.
  intros Hnull Hbool Hnum Hstr Harr Hobj.
  fix IH 1. intros [ |b|z|s|items|props].
  - exact Hnull.
  - apply Hbool.
  - apply Hnum.
  - apply Hstr.
  - apply Harr. induction items as [|x items IHitems]; constructor; [apply IH | exact IHitems].
  - apply Hobj. induction props as [|[k x] props IHprops]; constructor;
      [apply IH | exact IHprops].
Qed.

Section KeyOrder.

#[local] Instance str_le_total : Total str_le.
Proof. intros a b. apply String.leb_total. Qed.

#[local] Instance str_le_antisym : AntiSymm (=) str_le.
Proof. intros a b. apply String.leb_antisym. Qed.

Lemma str_le_cases (a b : string) : str_le a b <-> a = b \/ String_as_OT.lt a b.
Proof.
  unfold str_le, String.leb. rewrite <- String_as_OT.cmp_lt, <- String_as_OT.cmp_eq.
  unfold String_as_OT.cmp. destruct (String.compare a b); split; intros H; auto;
    try discriminate; destruct H; discriminate.
Qed.

#[local] Instance str_le_trans : Transitive str_le.
Proof.
  intros a b c Hab Hbc. apply str_le_cases in Hab, Hbc. apply str_le_cases.
  destruct Hab as [->|Hab]; [exact Hbc|].
  destruct Hbc as [<-|Hbc]; [right; exact Hab|].
  right. exact (String_as_OT.lt_trans _ _ _ Hab Hbc).
Qed.

(** Sorting forgets the order of its input. *)
Lemma sort_keys_permutation (ks1 ks2 : list string) :
  ks1 ≡ₚ ks2 -> sort_keys ks1 = sort_keys ks2.
Proof.
  intros Hperm. unfold sort_keys.
  apply (Sorted_unique str_le); try apply Sorted_merge_sort; try apply _.
  rewrite !merge_sort_Permutation. exact Hperm.
Qed.

End KeyOrder.

Lemma lookup_prop_keys (k : string) (props : list (string * json)) :
  is_Some (lookup_prop k props) <-> k ∈ keys props.
Proof.
  unfold keys. induction props as [|[k' v] props IH]; simpl.
  - split; [intros [x Hx]; discriminate | intros H; inversion H].
  - rewrite elem_of_cons. destruct (String.eqb_spec k k') as [->|Hne].
    + split; [auto | eauto].
    + rewrite IH. split; [auto | intros [?|?]; [contradiction | assumption]].
Qed.

Lemma lookup_prop_In (k : string) (v : json) (props : list (string * json)) :
  lookup_prop k props = Some v -> (k, v) ∈ props.
Proof.
  induction props as [|[k' v'] props IH]; simpl; [discriminate|].
  rewrite elem_of_cons.
  destruct (String.eqb_spec k k') as [->|Hne].
  - intros [= ->]. left. reflexivity.
  - intros H. right. apply IH. exact H.
Qed.

(** Looking a key up among the written properties is writing the
    property that the key names. *)
Lemma map_get_written (f : json -> string) (k : string) (props : list (string * json)) :
  map_get k (map (fun kv => (fst kv, f (snd kv))) props) = f <$> lookup_prop k props.
Proof.
  induction props as [|[k' v] props IH]; simpl; [reflexivity|].
  destruct (String.eqb k k'); [reflexivity | exact IH].
Qed.

(** With a fixed property list, the text of a value does not depend on
    the insertion order of its properties. *)
Lemma stringify_same (K : list string) (v1 : json) :
  forall v2, same_value v1 v2 -> stringify K v1 = stringify K v2.
Proof.
  induction v1 as [ |b|z|s|items IH|props IH] using json_induction;
    intros v2 Hsame; inversion Hsame; subst; try reflexivity.
  - simpl. do 3 f_equal.
    match goal with H : Forall2 same_value _ _ |- _ => rename H into Hitems end.
    clear Hsame. induction Hitems as [|x y xs ys Hxy Hrest IHrest]; [reflexivity|].
    apply Forall_cons in IH as [Hx Hxs]. simpl. f_equal; [apply Hx; exact Hxy | auto].
  - simpl. do 3 f_equal.
    match goal with H : forall k, option_Forall2 _ _ _ |- _ => rename H into Hprops end.
    apply list_omap_ext. apply Forall2_same_length_lookup_2; [reflexivity|].
    intros i k k' Hk Hk'. rewrite Hk in Hk'. injection Hk' as <-.
    rewrite !map_get_written.
    specialize (Hprops k).
    inversion Hprops as [x y Hxy Hx Hy|Hx Hy]; [|reflexivity].
    symmetry in Hx. apply lookup_prop_In in Hx.
    rewrite Forall_forall in IH. specialize (IH (k, x) Hx). simpl in IH.
    simpl. rewrite (IH y Hxy). reflexivity.
Qed.

Lemma same_value_keys (props1 props2 : list (string * json)) :
  same_value (JObj props1) (JObj props2) ->
  sort_keys (keys props1) = sort_keys (keys props2).
Proof.
  intros Hsame. inversion Hsame as [ | | | | |p1 p2 Hnd1 Hnd2 Hprops]; subst.
  apply sort_keys_permutation. apply NoDup_Permutation; auto.
  intros k. rewrite <- !lookup_prop_keys.
  pose proof (Hprops k) as Hk.
  inversion Hk as [x y _ Hx Hy|Hx Hy]; split; intros [? ?]; eauto; discriminate.
Qed.

Lemma same_arg_key_part (arg1 arg2 : option json) :
  same_arg arg1 arg2 -> key_part arg1 = key_part arg2.
Proof.
  intros [v1 v2 Hsame|]; [|reflexivity].
  pose proof Hsame as Hsame'.
  inversion Hsame' as [ | | | |items1 items2 Hitems|p1 p2 Hnd1 Hnd2 Hprops]; subst;
    try reflexivity.
  - assert (Hlen : length items1 = length items2) by (eapply Forall2_length; eauto).
    unfold key_part, array_keys. rewrite Hlen.
    apply stringify_same. exact Hsame.
  - unfold key_part. rewrite (same_value_keys p1 p2 Hsame).
    apply stringify_same. exact Hsame.
Qed.

(** C6.  [generateCacheKey] is a function of its arguments, and two
    argument lists whose object-valued arguments hold the same
    properties with the same values give the same key string whatever
    the insertion order of the properties; in particular the keys for
    [{scope:"year", year:2024}] and [{year:2024, scope:"year"}] are
    equal. *)
Theorem C6_key_order_independent :
  (forall prefix args1 args2,
     Forall2 same_arg args1 args2 ->
     generateCacheKey prefix args1 = generateCacheKey prefix args2) /\
  same_value Scenario.year_params_a Scenario.year_params_b /\
  generateCacheKey "interpret" [Some (JStr "chart1"); Some Scenario.year_params_a] =
  generateCacheKey "interpret" [Some (JStr "chart1"); Some Scenario.year_params_b].
Proof.
  assert (Hgen : forall prefix args1 args2,
     Forall2 same_arg args1 args2 ->
     generateCacheKey prefix args1 = generateCacheKey prefix args2).
  { intros prefix args1 args2 Hargs. unfold generateCacheKey. do 3 f_equal.
    induction Hargs as [|a1 a2 r1 r2 Ha Hr IH]; [reflexivity|].
    simpl. f_equal; [apply same_arg_key_part; exact Ha | exact IH]. }
  assert (Hsame : same_value Scenario.year_params_a Scenario.year_params_b).
  { apply same_obj.
    - unfold keys. simpl. apply NoDup_cons.
      split; [rewrite list_elem_of_singleton; discriminate | apply NoDup_singleton].
    - unfold keys. simpl. apply NoDup_cons.
      split; [rewrite list_elem_of_singleton; discriminate | apply NoDup_singleton].
    - intros k. simpl.
      destruct (String.eqb_spec k "scope") as [->|Hs]; simpl.
      + repeat constructor.
      + destruct (String.eqb k "year"); repeat constructor. }
  split; [exact Hgen|]. split; [exact Hsame|].
  apply Hgen.
  constructor; [constructor; constructor|].
  constructor; [constructor; exact Hsame | constructor].
Qed.

(** A value set with a non-zero TTL is returned by [get] until the TTL
    has elapsed. *)
Lemma get_after_set {T : Type} (key : string) (v : T) (ttl now now' : Z) (c : LRUCache T) :
  ttl <> 0 -> now' <= now + ttl ->
  fst (Cache.get key now' (Cache.set key v (Some ttl) now c)) = Some v.
Proof.
  intros Httl Hlive. unfold Cache.get, Cache.set. simpl.
  rewrite map_get_set_eq. simpl.
  destruct (Z.eqb_spec ttl 0); [contradiction|].
  destruct (Z.ltb_spec (now + ttl) now'); [lia | reflexivity].
Qed.

(** [set] with a non-zero TTL stores the value with expiry [now + ttl]. *)
Lemma set_stores_entry {T : Type} (key : string) (v : T) (ttl now : Z) (c : LRUCache T) :
  ttl <> 0 ->
  map_get key (cache (Cache.set key v (Some ttl) now c)) =
  Some {| value := v; expiresAt := now + ttl |}.
Proof.
  intros Httl. unfold Cache.set. simpl. rewrite map_get_set_eq.
  destruct (Z.eqb_spec ttl 0); [contradiction | reflexivity].
Qed.

Section HandlerFacts.
Context {W : Type}.
Variable now : W -> Z.
Variable random : W -> Q * W.
Variable delay : Q -> W -> W.
Variable fetchOpenAI : messages -> string -> W -> settle http_response * W.
Variable JSON_parse : string -> option json.
Variable isSupabaseConfigured : bool.
Variable selectInterpretation : string -> string -> FortuneParams -> W -> query_result * W.
Variable upsertInterpretation : string -> string -> FortuneParams -> InterpretResult -> W -> W.
Variable env : Env.

Local Abbreviation handle :=
  (POST now random delay fetchOpenAI JSON_parse isSupabaseConfigured
     selectInterpretation upsertInterpretation env).
Local Abbreviation generate := (callLLM random delay fetchOpenAI JSON_parse env).
Local Abbreviation fallback := (callOpenAIWithFallback random delay fetchOpenAI).

(** A request answered from the memory cache: no other tier is consulted
    and the world is left alone. *)
Lemma handle_memory_hit (request : Request) (s : Server W) astrolabe fortune topics r :
  admitted now request s ->
  carries request astrolabe fortune topics ->
  fst (Cache.get (buildInterpretCacheKey astrolabe fortune) (now (outside s))
         (interpretCache s)) = Some r ->
  response (handle request s) = Returned (okResponse (admission now request s) r memory) /\
  events (handle request s) = [MemoryLookup (buildInterpretCacheKey astrolabe fortune)] /\
  outside (server (handle request s)) = outside s.
Proof.
  unfold admitted, admission, carries, POST. intros Hadm Hbody Hhit.
  destruct (checkRateLimit _ _ _ _) as [rl store]. simpl in *.
  rewrite Hadm, Hbody. simpl. unfold tiers.
  destruct (Cache.get _ _ _) as [cached c1]. simpl in Hhit. subst cached.
  simpl. auto.
Qed.

(** A request that misses both caches: the result of [callLLM] is the
    answer, it fills the memory cache for five minutes and is handed to
    the persistent store when there is one. *)
Lemma handle_generates (request : Request) (s : Server W) astrolabe fortune topics r :
  admitted now request s ->
  carries request astrolabe fortune topics ->
  memory_miss now astrolabe fortune s ->
  store_miss isSupabaseConfigured selectInterpretation astrolabe fortune s ->
  llm_result (generate astrolabe fortune (default [] topics)
                (world_after_store isSupabaseConfigured selectInterpretation
                   astrolabe fortune s)) = Returned r ->
  response (handle request s) = Returned (okResponse (admission now request s) r llm) /\
  events (handle request s) =
    lookups_before_compute isSupabaseConfigured astrolabe fortune ++
    [Generate (llm_tried (generate astrolabe fortune (default [] topics)
                            (world_after_store isSupabaseConfigured selectInterpretation
                               astrolabe fortune s)));
     MemoryFill (buildInterpretCacheKey astrolabe fortune) r
       (now (llm_world (generate astrolabe fortune (default [] topics)
                          (world_after_store isSupabaseConfigured selectInterpretation
                             astrolabe fortune s))) + MEMORY_TTL)] ++
    save_after_compute isSupabaseConfigured astrolabe fortune r /\
  interpretCache (server (handle request s)) =
    Cache.set (buildInterpretCacheKey astrolabe fortune) r (Some MEMORY_TTL)
      (now (llm_world (generate astrolabe fortune (default [] topics)
                         (world_after_store isSupabaseConfigured selectInterpretation
                            astrolabe fortune s))))
      (cache_after_lookup now astrolabe fortune s) /\
  outside (server (handle request s)) =
    world_after_save isSupabaseConfigured upsertInterpretation astrolabe fortune r
      (llm_world (generate astrolabe fortune (default [] topics)
                    (world_after_store isSupabaseConfigured selectInterpretation
                       astrolabe fortune s))).
Proof.
  unfold admitted, admission, carries, memory_miss, store_miss, world_after_store,
    cache_after_lookup, lookups_before_compute, save_after_compute, world_after_save, POST.
  intros Hadm Hbody Hmem Hstore Hllm.
  destruct (checkRateLimit _ _ _ _) as [rl store]. simpl in *.
  rewrite Hadm, Hbody. simpl. unfold tiers.
  destruct (Cache.get _ _ _) as [cached c1]. simpl in Hmem. subst cached.
  assert (Hlookup :
    (if isSupabaseConfigured
     then getCachedInterpretation isSupabaseConfigured selectInterpretation
            (chartId astrolabe) (getFortuneScope fortune) (buildFortuneParams fortune)
            (outside s)
     else (None, outside s)) =
    (None, snd (getCachedInterpretation isSupabaseConfigured selectInterpretation
                  (chartId astrolabe) (getFortuneScope fortune) (buildFortuneParams fortune)
                  (outside s)))).
  { destruct (getCachedInterpretation _ _ _ _ _ _) as [stored w1] eqn:Hget.
    simpl in *. subst stored.
    destruct isSupabaseConfigured eqn:Hcfg; [reflexivity|].
    unfold getCachedInterpretation in Hget. congruence. }
  rewrite Hlookup. rewrite Hllm. simpl.
  destruct isSupabaseConfigured; simpl; auto.
Qed.

Lemma str_or_nonempty (a : option string) (b : string) : b <> "" -> str_or a b <> "".
Proof. intros Hb. destruct a as [[|c r]|]; simpl; auto; discriminate. Qed.

(** Every text field of a default result is a non-empty string. *)
Lemma getDefaultResult_nonempty (errorMessage : option string) :
  all_text_nonempty (getDefaultResult errorMessage).
Proof.
  unfold all_text_nonempty, nonempty_text, getDefaultResult. simpl.
  repeat split; eexists; (split; [reflexivity | apply str_or_nonempty; discriminate]).
Qed.

(** [callLLM] always returns: it neither throws nor hangs. *)
Lemma callLLM_returns astrolabe fortune topics (w : W) :
  exists r, llm_result (generate astrolabe fortune topics w) = Returned r.
Proof.
  unfold callLLM.
  destruct (String.eqb _ _); [eexists; reflexivity|].
  match goal with
  | |- context [callOpenAIWithFallback _ _ _ ?m ?c ?x] =>
      destruct (fallback_loop_spec random delay fetchOpenAI m c
                  (buildModels (model c) MODEL_FALLBACK_ORDER) UndefinedValue [] x)
        as (news & _ & _ & _ & Hnh & _)
  end.
  unfold callOpenAIWithFallback.
  destruct (fb_result _); [eexists; reflexivity | eexists; reflexivity | congruence].
Qed.

Lemma callLLM_without_key astrolabe fortune topics (w : W) :
  apiKey (getLLMConfig env) = "" ->
  generate astrolabe fortune topics w =
  {| llm_result := Returned (getDefaultResult (Some "API 金鑰未設定，請聯繫管理員"));
     llm_tried := []; llm_world := w |}.
Proof. intros Hkey. unfold callLLM. rewrite Hkey. reflexivity. Qed.

Lemma callLLM_exhausted astrolabe fortune topics (w : W) e :
  apiKey (getLLMConfig env) <> "" ->
  fb_result (fallback {| msg_astrolabe := astrolabe; msg_fortune := fortune |}
               (getLLMConfig env) w) = Threw e ->
  llm_result (generate astrolabe fortune topics w) =
    Returned (getDefaultResult (Some (failureMessage e))).
Proof.
  intros Hkey Hfb. unfold callLLM.
  destruct (String.eqb_spec (apiKey (getLLMConfig env)) ""); [contradiction|].
  simpl. rewrite Hfb. reflexivity.
Qed.

Lemma callLLM_succeeded astrolabe fortune topics (w : W) content :
  apiKey (getLLMConfig env) <> "" ->
  fb_result (fallback {| msg_astrolabe := astrolabe; msg_fortune := fortune |}
               (getLLMConfig env) w) = Returned content ->
  llm_result (generate astrolabe fortune topics w) =
    Returned (parseLLMResponse JSON_parse content).
Proof.
  intros Hkey Hfb. unfold callLLM.
  destruct (String.eqb_spec (apiKey (getLLMConfig env)) ""); [contradiction|].
  simpl. rewrite Hfb. reflexivity.
Qed.

(** The second of two identical requests, made while the entry written
    by the first is still alive, is answered from the memory cache. *)
Lemma handle_again_within_ttl (request request2 : Request) (s : Server W)
    astrolabe fortune topics topics2 r (w' : W) :
  admitted now request s ->
  carries request astrolabe fortune topics ->
  memory_miss now astrolabe fortune s ->
  store_miss isSupabaseConfigured selectInterpretation astrolabe fortune s ->
  llm_result (generate astrolabe fortune (default [] topics)
                (world_after_store isSupabaseConfigured selectInterpretation
                   astrolabe fortune s)) = Returned r ->
  carries request2 astrolabe fortune topics2 ->
  admitted now request2 (elapse (server (handle request s)) w') ->
  now w' <= now (llm_world (generate astrolabe fortune (default [] topics)
                              (world_after_store isSupabaseConfigured selectInterpretation
                                 astrolabe fortune s))) + MEMORY_TTL ->
  response (handle request2 (elapse (server (handle request s)) w')) =
    Returned (okResponse (admission now request2 (elapse (server (handle request s)) w'))
                r memory) /\
  events (handle request2 (elapse (server (handle request s)) w')) =
    [MemoryLookup (buildInterpretCacheKey astrolabe fortune)] /\
  outside (server (handle request2 (elapse (server (handle request s)) w'))) = w'.
Proof.
  intros Hadm Hbody Hmem Hstore Hllm Hbody2 Hadm2 Hlive.
  destruct (handle_generates request s astrolabe fortune topics r Hadm Hbody Hmem Hstore Hllm)
    as (_ & _ & Hcache & _).
  apply (handle_memory_hit request2 _ astrolabe fortune topics2 r Hadm2 Hbody2).
  simpl. rewrite Hcache. apply get_after_set; [discriminate | exact Hlive].
Qed.

(** C9.  For a request admitted by the rate limiter, with no live entry
    in the memory cache and nothing in the persistent store, whose
    computation succeeds: the handler consults the memory cache, then the
    persistent store (when one is configured), then [callLLM], in that
    order; the response carries the computed result with the cache source
    the route calls ['llm'] (the specification's ['computed']), and the
    result fills the memory cache.  A second identical request while
    that entry is alive is answered with cache source ['memory'], after
    the memory lookup alone: [callLLM] is not run and the world is
    untouched. *)
Theorem C9_computed_then_memory (request request2 : Request) (s : Server W)
    (astrolabe : Astrolabe) (fortune : option FortuneData)
    (topics topics2 : option (list string)) (content : string) (w' : W) :
  admitted now request s ->
  carries request astrolabe fortune topics ->
  memory_miss now astrolabe fortune s ->
  store_miss isSupabaseConfigured selectInterpretation astrolabe fortune s ->
  apiKey (getLLMConfig env) <> "" ->
  fb_result (fallback {| msg_astrolabe := astrolabe; msg_fortune := fortune |}
               (getLLMConfig env)
               (world_after_store isSupabaseConfigured selectInterpretation
                  astrolabe fortune s)) = Returned content ->
  carries request2 astrolabe fortune topics2 ->
  admitted now request2 (elapse (server (handle request s)) w') ->
  now w' <= now (llm_world (generate astrolabe fortune (default [] topics)
                              (world_after_store isSupabaseConfigured selectInterpretation
                                 astrolabe fortune s))) + MEMORY_TTL ->
  response (handle request s) =
    Returned (okResponse (admission now request s)
                (parseLLMResponse JSON_parse content) llm) /\
  header "X-Cache-Source" (okResponse (admission now request s)
                             (parseLLMResponse JSON_parse content) llm) = Some "llm" /\
  events (handle request s) =
    lookups_before_compute isSupabaseConfigured astrolabe fortune ++
    [Generate (llm_tried (generate astrolabe fortune (default [] topics)
                            (world_after_store isSupabaseConfigured selectInterpretation
                               astrolabe fortune s)));
     MemoryFill (buildInterpretCacheKey astrolabe fortune)
       (parseLLMResponse JSON_parse content)
       (now (llm_world (generate astrolabe fortune (default [] topics)
                          (world_after_store isSupabaseConfigured selectInterpretation
                             astrolabe fortune s))) + MEMORY_TTL)] ++
    save_after_compute isSupabaseConfigured astrolabe fortune
      (parseLLMResponse JSON_parse content) /\
  map_get (buildInterpretCacheKey astrolabe fortune)
    (cache (interpretCache (server (handle request s)))) =
    Some {| value := parseLLMResponse JSON_parse content;
            expiresAt :=
              now (llm_world (generate astrolabe fortune (default [] topics)
                                (world_after_store isSupabaseConfigured
                                   selectInterpretation astrolabe fortune s)))
              + MEMORY_TTL |} /\
  response (handle request2 (elapse (server (handle request s)) w')) =
    Returned (okResponse (admission now request2 (elapse (server (handle request s)) w'))
                (parseLLMResponse JSON_parse content) memory) /\
  header "X-Cache-Source"
    (okResponse (admission now request2 (elapse (server (handle request s)) w'))
       (parseLLMResponse JSON_parse content) memory) = Some "memory" /\
  events (handle request2 (elapse (server (handle request s)) w')) =
    [MemoryLookup (buildInterpretCacheKey astrolabe fortune)] /\
  outside (server (handle request2 (elapse (server (handle request s)) w'))) = w'.
Proof.
  intros Hadm Hbody Hmem Hstore Hkey Hfb Hbody2 Hadm2 Hlive.
  pose proof (callLLM_succeeded astrolabe fortune (default [] topics) _ content Hkey Hfb)
    as Hllm.
  destruct (handle_generates request s astrolabe fortune topics _ Hadm Hbody Hmem Hstore Hllm)
    as (Hresp & Hevents & Hcache & Hworld).
  destruct (handle_again_within_ttl request request2 s astrolabe fortune topics topics2 _ w'
              Hadm Hbody Hmem Hstore Hllm Hbody2 Hadm2 Hlive)
    as (Hresp2 & Hevents2 & Hworld2).
  split; [exact Hresp|]. split; [reflexivity|]. split; [exact Hevents|].
  split; [rewrite Hcache; apply set_stores_entry; discriminate|].
  split; [exact Hresp2|]. split; [reflexivity|]. split; [exact Hevents2 | exact Hworld2].
Qed.

(** C10.  [callLLM] always returns.  When the API key is missing or the
    whole model chain failed (a time-out included), it returns a default
    result whose twelve palace fields and summary are non-empty strings.
    The handler treats that result like any other: it answers 200 with
    it, stores it in the memory cache for the same five minutes and, when
    a persistent store is configured, hands it to the store; an identical
    request within the five minutes is answered with the same error text
    from the memory cache. *)
Theorem C10_failure_text_cached (request request2 : Request) (s : Server W)
    (astrolabe : Astrolabe) (fortune : option FortuneData)
    (topics topics2 : option (list string)) (w' : W) :
  admitted now request s ->
  carries request astrolabe fortune topics ->
  memory_miss now astrolabe fortune s ->
  store_miss isSupabaseConfigured selectInterpretation astrolabe fortune s ->
  apiKey (getLLMConfig env) = "" \/
  (exists e,
     fb_result (fallback {| msg_astrolabe := astrolabe; msg_fortune := fortune |}
                  (getLLMConfig env)
                  (world_after_store isSupabaseConfigured selectInterpretation
                     astrolabe fortune s)) = Threw e) ->
  carries request2 astrolabe fortune topics2 ->
  admitted now request2 (elapse (server (handle request s)) w') ->
  now w' <= now (llm_world (generate astrolabe fortune (default [] topics)
                              (world_after_store isSupabaseConfigured selectInterpretation
                                 astrolabe fortune s))) + MEMORY_TTL ->
  (forall a f t w, exists r, llm_result (generate a f t w) = Returned r) /\
  exists message,
    llm_result (generate astrolabe fortune (default [] topics)
                  (world_after_store isSupabaseConfigured selectInterpretation
                     astrolabe fortune s)) = Returned (getDefaultResult (Some message)) /\
    all_text_nonempty (getDefaultResult (Some message)) /\
    response (handle request s) =
      Returned (okResponse (admission now request s) (getDefaultResult (Some message)) llm) /\
    MemoryFill (buildInterpretCacheKey astrolabe fortune) (getDefaultResult (Some message))
      (now (llm_world (generate astrolabe fortune (default [] topics)
                         (world_after_store isSupabaseConfigured selectInterpretation
                            astrolabe fortune s))) + MEMORY_TTL)
      ∈ events (handle request s) /\
    (isSupabaseConfigured = true ->
     StoreSave (chartId astrolabe) (getFortuneScope fortune) (getDefaultResult (Some message))
       ∈ events (handle request s)) /\
    map_get (buildInterpretCacheKey astrolabe fortune)
      (cache (interpretCache (server (handle request s)))) =
      Some {| value := getDefaultResult (Some message);
              expiresAt :=
                now (llm_world (generate astrolabe fortune (default [] topics)
                                  (world_after_store isSupabaseConfigured
                                     selectInterpretation astrolabe fortune s)))
                + MEMORY_TTL |} /\
    outside (server (handle request s)) =
      world_after_save isSupabaseConfigured upsertInterpretation astrolabe fortune
        (getDefaultResult (Some message))
        (llm_world (generate astrolabe fortune (default [] topics)
                      (world_after_store isSupabaseConfigured selectInterpretation
                         astrolabe fortune s))) /\
    response (handle request2 (elapse (server (handle request s)) w')) =
      Returned (okResponse (admission now request2 (elapse (server (handle request s)) w'))
                  (getDefaultResult (Some message)) memory) /\
    events (handle request2 (elapse (server (handle request s)) w')) =
      [MemoryLookup (buildInterpretCacheKey astrolabe fortune)].
Proof.
  intros Hadm Hbody Hmem Hstore Hfail Hbody2 Hadm2 Hlive.
  split; [intros a f t w; apply callLLM_returns|].
  assert (Hllm : exists message,
    llm_result (generate astrolabe fortune (default [] topics)
                  (world_after_store isSupabaseConfigured selectInterpretation
                     astrolabe fortune s)) = Returned (getDefaultResult (Some message))).
  { destruct (String.eqb_spec (apiKey (getLLMConfig env)) "") as [Hkey|Hkey].
    - eexists. rewrite (callLLM_without_key _ _ _ _ Hkey). reflexivity.
    - destruct Hfail as [Hnone | [e He]]; [contradiction|].
      eexists. apply (callLLM_exhausted _ _ _ _ e Hkey He). }
  destruct Hllm as [message Hllm]. exists message.
  destruct (handle_generates request s astrolabe fortune topics _ Hadm Hbody Hmem Hstore Hllm)
    as (Hresp & Hevents & Hcache & Hworld).
  destruct (handle_again_within_ttl request request2 s astrolabe fortune topics topics2 _ w'
              Hadm Hbody Hmem Hstore Hllm Hbody2 Hadm2 Hlive)
    as (Hresp2 & Hevents2 & _).
  split; [exact Hllm|]. split; [apply getDefaultResult_nonempty|].
  split; [exact Hresp|].
  split; [rewrite Hevents, !elem_of_app, !elem_of_cons; auto|].
  split.
  { intros Hcfg. rewrite Hevents. unfold save_after_compute.
    rewrite Hcfg, !elem_of_app, !elem_of_cons. auto. }
  split; [rewrite Hcache; apply set_stores_entry; discriminate|].
  split; [exact Hworld|]. split; [exact Hresp2 | exact Hevents2].
Qed.

(** C3 (as amended).  When every model of the chain fails,
    [callOpenAIWithFallback] throws the last error, but [callLLM]
    catches it and returns the default result that describes the
    failure; the handler answers with status 200 and that result, cache
    source ['llm'], like a successful interpretation.  (Status 500 is
    the answer only when the handler itself throws, as on a malformed
    body.) *)
Theorem C3_exhaustion_answered_200 (request : Request) (s : Server W)
    (astrolabe : Astrolabe) (fortune : option FortuneData)
    (topics : option (list string)) (e : js_error) :
  admitted now request s ->
  carries request astrolabe fortune topics ->
  memory_miss now astrolabe fortune s ->
  store_miss isSupabaseConfigured selectInterpretation astrolabe fortune s ->
  apiKey (getLLMConfig env) <> "" ->
  fb_result (fallback {| msg_astrolabe := astrolabe; msg_fortune := fortune |}
               (getLLMConfig env)
               (world_after_store isSupabaseConfigured selectInterpretation
                  astrolabe fortune s)) = Threw e ->
  llm_result (generate astrolabe fortune (default [] topics)
                (world_after_store isSupabaseConfigured selectInterpretation
                   astrolabe fortune s)) =
    Returned (getDefaultResult (Some (failureMessage e))) /\
  response (handle request s) =
    Returned (okResponse (admission now request s)
                (getDefaultResult (Some (failureMessage e))) llm) /\
  status (okResponse (admission now request s)
            (getDefaultResult (Some (failureMessage e))) llm) = 200 /\
  (forall r, req_json r = None -> admitted now r s ->
     response (handle r s) = Returned (errorResponse 500 "解釋生成失敗")).
Proof.
  intros Hadm Hbody Hmem Hstore Hkey Hfb.
  pose proof (callLLM_exhausted astrolabe fortune (default [] topics) _ e Hkey Hfb) as Hllm.
  destruct (handle_generates request s astrolabe fortune topics _ Hadm Hbody Hmem Hstore Hllm)
    as (Hresp & _ & _ & _).
  split; [exact Hllm|]. split; [exact Hresp|]. split; [reflexivity|].
  intros r Hjson. unfold admitted, admission, POST.
  destruct (checkRateLimit _ _ _ _) as [rl store]. simpl.
  intros ->. rewrite Hjson. reflexivity.
Qed.

End HandlerFacts.

Lemma C9_computed_then_memory_witness :
  exists first second,
    response (Scenario.POST_openai_up Scenario.natal_request (Scenario.fresh_server 1000))
      = Returned first /\
    header "X-Cache-Source" first = Some "llm" /\
    response (Scenario.POST_openai_up Scenario.natal_request
                (elapse (server (Scenario.POST_openai_up Scenario.natal_request
                                   (Scenario.fresh_server 1000))) 5000))
      = Returned second /\
    header "X-Cache-Source" second = Some "memory" /\
    body second = body first.
Proof.
  destruct (C9_computed_then_memory Scenario.clock_now Scenario.clock_random
              Scenario.clock_delay Scenario.openai_up Scenario.parse_empty_object false
              Scenario.no_store Scenario.no_upsert Scenario.with_key
              Scenario.natal_request Scenario.natal_request (Scenario.fresh_server 1000)
              Scenario.chart1 None None None "{}" 5000)
    as (Hfirst & Hsource & _ & _ & Hsecond & Hsource2 & _).
  - reflexivity.
  - reflexivity.
  - reflexivity.
  - reflexivity.
  - discriminate.
  - reflexivity.
  - reflexivity.
  - reflexivity.
  - vm_compute. discriminate.
  - eexists. eexists.
    split; [exact Hfirst|]. split; [exact Hsource|].
    split; [exact Hsecond|]. split; [exact Hsource2 | reflexivity].
Defined.

Lemma C10_failure_text_cached_witness :
  exists message,
    all_text_nonempty (getDefaultResult (Some message)) /\
    response (Scenario.POST_openai_down Scenario.natal_request (Scenario.fresh_server 1000)) =
      Returned (okResponse
                  (admission Scenario.clock_now Scenario.natal_request
                     (Scenario.fresh_server 1000))
                  (getDefaultResult (Some message)) llm) /\
    events (Scenario.POST_openai_down Scenario.natal_request
              (elapse (server (Scenario.POST_openai_down Scenario.natal_request
                                 (Scenario.fresh_server 1000))) 9000)) =
      [MemoryLookup "interpret:chart1:natal"].
Proof.
  destruct (C10_failure_text_cached Scenario.clock_now Scenario.clock_random
              Scenario.clock_delay Scenario.openai_down Scenario.parse_empty_object false
              Scenario.no_store Scenario.no_upsert Scenario.with_key
              Scenario.natal_request Scenario.natal_request (Scenario.fresh_server 1000)
              Scenario.chart1 None None None 9000)
    as (_ & message & _ & Htext & Hfirst & _ & _ & _ & _ & _ & Hevents).
  - reflexivity.
  - reflexivity.
  - reflexivity.
  - reflexivity.
  - right. eexists. reflexivity.
  - reflexivity.
  - reflexivity.
  - vm_compute. discriminate.
  - exists message. split; [exact Htext|]. split; [exact Hfirst | exact Hevents].
Defined.

Lemma C3_exhaustion_answered_200_witness :
  response (Scenario.POST_openai_down Scenario.natal_request (Scenario.fresh_server 1000)) =
    Returned (okResponse
                (admission Scenario.clock_now Scenario.natal_request
                   (Scenario.fresh_server 1000))
                (getDefaultResult
                   (Some (failureMessage
                            (RetryableError "OpenAI 伺服器錯誤: 500" (Some 500) None))))
                llm).
Proof.
  destruct (C3_exhaustion_answered_200 Scenario.clock_now Scenario.clock_random
              Scenario.clock_delay Scenario.openai_down Scenario.parse_empty_object false
              Scenario.no_store Scenario.no_upsert Scenario.with_key
              Scenario.natal_request (Scenario.fresh_server 1000)
              Scenario.chart1 None None
              (RetryableError "OpenAI 伺服器錯誤: 500" (Some 500) None))
    as (_ & Hresp & _).
  - reflexivity.
  - reflexivity.
  - reflexivity.
  - reflexivity.
  - discriminate.
  - reflexivity.
  - exact Hresp.
Defined.

(** C3, the claim as stated, fails: with OpenAI answering 500 for every
    model, both models of the chain are tried and fail, the fallback
    throws, and yet the handler answers with status 200 and an
    interpretation body holding the default text, not with an error
    response. *)
Lemma C3_exhaustion_not_an_error_response :
  map tm_model
    (fb_tried (callOpenAIWithFallback Scenario.clock_random Scenario.clock_delay
                 Scenario.openai_down Scenario.natal_messages
                 (getLLMConfig Scenario.with_key) 1000))
    = ["gpt-4o-mini"; "gpt-3.5-turbo"] /\
  fb_result (callOpenAIWithFallback Scenario.clock_random Scenario.clock_delay
               Scenario.openai_down Scenario.natal_messages
               (getLLMConfig Scenario.with_key) 1000)
    = Threw (RetryableError "OpenAI 伺服器錯誤: 500" (Some 500) None) /\
  exists r,
    response (Scenario.POST_openai_down Scenario.natal_request (Scenario.fresh_server 1000))
      = Returned r /\
    status r = 200 /\
    body r = InterpretBody (getDefaultResult (Some "無法連接 AI 服務，請檢查網路連線")) /\
    header "X-Cache-Source" r = Some "llm".
Proof.
  split; [reflexivity|]. split; [reflexivity|].
  eexists. split; [reflexivity|]. repeat split.
Qed.

(** * Further properties of the retry executor *)

Section RetryBudget.
Context {W T : Type}.
Variable random : W -> Q * W.
Variable delay : Q -> W -> W.
Variable fn : W -> settle T * W.

(** One iteration that fails with a retryable error while retries are
    left: the loop goes on in the world after the backoff. *)
Lemma retry_loop_step (cfg : RetryConfig) fuel attempt lastError calls (w : W) e :
  attempt < maxRetries cfg ->
  attempt_once (Retry.timeoutMs cfg) (fst (fn w)) = AttemptError e ->
  isRetryableError e = true ->
  retry_loop random delay fn cfg (S fuel) attempt lastError calls w =
  retry_loop random delay fn cfg fuel (attempt + 1) e (S calls)
    (world_after_backoff random delay cfg attempt e (snd (fn w))).
Proof.
  intros Hlt He Hre. simpl. unfold world_after_backoff, retry_hint.
  destruct (Z.leb_spec attempt (maxRetries cfg)); [|lia].
  destruct (fn w) as [s w1]. simpl in He |- *. rewrite He.
  destruct (Z.leb_spec (maxRetries cfg) attempt); [lia|]. rewrite Hre. simpl.
  destruct (calculateBackoff _ _ _ _ _) as [d w2]. reflexivity.
Qed.

(** When every attempt fails with a retryable error, the loop uses all
    the iterations it has left. *)
Lemma retry_loop_exhausts (cfg : RetryConfig) fuel : forall attempt lastError calls (w : W),
  (forall w', exists e,
     attempt_once (Retry.timeoutMs cfg) (fst (fn w')) = AttemptError e /\
     isRetryableError e = true) ->
  attempt + Z.of_nat fuel = maxRetries cfg ->
  invocations (retry_loop random delay fn cfg (S fuel) attempt lastError calls w)
    = (calls + S fuel)%nat /\
  exists e w',
    result (retry_loop random delay fn cfg (S fuel) attempt lastError calls w) = Threw e /\
    attempt_once (Retry.timeoutMs cfg) (fst (fn w')) = AttemptError e /\
    isRetryableError e = true.
Proof.
  induction fuel as [|fuel IH]; intros attempt lastError calls w Hall Hsum.
  - destruct (Hall w) as (e & He & Hre).
    rewrite retry_loop_last; [|lia|rewrite He; left; lia].
    rewrite He. simpl. split; [lia|]. exists e, w. auto.
  - destruct (Hall w) as (e & He & Hre).
    rewrite (retry_loop_step cfg (S fuel) attempt lastError calls w e) by (auto; lia).
    destruct (IH (attempt + 1) e (S calls)
                (world_after_backoff random delay cfg attempt e (snd (fn w))) Hall
                ltac:(lia)) as (Hinv & Hres).
    split; [rewrite Hinv; lia | exact Hres].
Qed.

(** A returned value is the value some invocation resolved with. *)
Lemma retry_loop_returned (cfg : RetryConfig) fuel : forall attempt lastError calls (w : W) v,
  result (retry_loop random delay fn cfg fuel attempt lastError calls w) = Returned v ->
  exists w', attempt_once (Retry.timeoutMs cfg) (fst (fn w')) = AttemptValue v.
Proof.
  induction fuel as [|fuel IH]; intros attempt lastError calls w v; simpl; [discriminate|].
  destruct (attempt <=? maxRetries cfg); [|discriminate].
  destruct (fn w) as [s w1] eqn:Hfn.
  destruct (attempt_once (Retry.timeoutMs cfg) s) as [v'|e|] eqn:Ha; simpl.
  - intros [= <-]. exists w. rewrite Hfn. exact Ha.
  - destruct (_ || _); simpl; [discriminate|].
    destruct (calculateBackoff _ _ _ _ _) as [d w2]. apply IH.
  - discriminate.
Qed.

End RetryBudget.

(** X1.  [withRetry] never invokes the operation more than
    [maxRetries + 1] times; with a negative [maxRetries] it does not
    invoke it at all and throws [undefined]; with [maxRetries >= 0] it
    invokes it at least once. *)
Theorem withRetry_invocations_bounded {W T : Type} (random : W -> Q * W)
    (delay : Q -> W -> W) (fn : W -> settle T * W)
    (config : PartialRetryConfig) (w : W) :
  (invocations (withRetry random delay fn config w)
     <= Z.to_nat (maxRetries (fullConfig config) + 1))%nat /\
  (maxRetries (fullConfig config) < 0 ->
   withRetry random delay fn config w =
   {| result := Threw UndefinedValue; invocations := 0; world := w |}) /\
  (0 <= maxRetries (fullConfig config) ->
   (1 <= invocations (withRetry random delay fn config w))%nat).
Proof.
  unfold withRetry.
  destruct (retry_loop_invocations random delay fn (fullConfig config)
              (Z.to_nat (maxRetries (fullConfig config) + 1)) 0 UndefinedValue 0 w)
    as [[Hlo Hhi] Hpos].
  split; [lia|]. split.
  - intros Hneg.
    replace (Z.to_nat (maxRetries (fullConfig config) + 1)) with O by lia. reflexivity.
  - intros Hnn. apply Hpos; lia.
Qed.

(** X2.  When every attempt fails with an error that [isRetryableError]
    accepts, [withRetry] invokes the operation exactly [maxRetries + 1]
    times and then rethrows the error of an attempt (the last one). *)
Theorem withRetry_exhausts_budget {W T : Type} (random : W -> Q * W)
    (delay : Q -> W -> W) (fn : W -> settle T * W)
    (config : PartialRetryConfig) (w : W) :
  0 <= maxRetries (fullConfig config) ->
  (forall w', exists e,
     attempt_once (Retry.timeoutMs (fullConfig config)) (fst (fn w')) = AttemptError e /\
     isRetryableError e = true) ->
  Z.of_nat (invocations (withRetry random delay fn config w))
    = maxRetries (fullConfig config) + 1 /\
  exists e w',
    result (withRetry random delay fn config w) = Threw e /\
    attempt_once (Retry.timeoutMs (fullConfig config)) (fst (fn w')) = AttemptError e /\
    isRetryableError e = true.
Proof.
  intros Hnn Hall. unfold withRetry.
  replace (Z.to_nat (maxRetries (fullConfig config) + 1))
    with (S (Z.to_nat (maxRetries (fullConfig config)))) by lia.
  destruct (retry_loop_exhausts random delay fn (fullConfig config)
              (Z.to_nat (maxRetries (fullConfig config))) 0 UndefinedValue 0 w Hall
              ltac:(lia)) as (Hinv & Hres).
  split; [rewrite Hinv; lia | exact Hres].
Qed.

Lemma withRetry_exhausts_budget_witness :
  Z.of_nat (invocations (withRetry Scenario.no_random Scenario.no_delay
                           Scenario.always_busy Scenario.three_retries tt)) = 3 + 1 /\
  exists e w',
    result (withRetry Scenario.no_random Scenario.no_delay Scenario.always_busy
              Scenario.three_retries tt) = Threw e /\
    attempt_once (Some 30000) (fst (Scenario.always_busy w')) = AttemptError e /\
    isRetryableError e = true.
Proof.
  apply (withRetry_exhausts_budget Scenario.no_random Scenario.no_delay
           Scenario.always_busy Scenario.three_retries tt).
  - simpl. lia.
  - intros w'. eexists. split; reflexivity.
Defined.

(** X3.  After a first attempt that fails with a retryable error, and
    with at least one retry allowed, [withRetry] waits the delay that
    [calculateBackoff] gives for attempt 0 and invokes the operation
    again in the world after that wait; when that second attempt
    succeeds its value is returned, after two invocations. *)
Theorem withRetry_retries_then_succeeds {W T : Type} (random : W -> Q * W)
    (delay : Q -> W -> W) (fn : W -> settle T * W)
    (config : PartialRetryConfig) (w : W) (e : js_error) (v : T) :
  1 <= maxRetries (fullConfig config) ->
  attempt_once (Retry.timeoutMs (fullConfig config)) (fst (fn w)) = AttemptError e ->
  isRetryableError e = true ->
  attempt_once (Retry.timeoutMs (fullConfig config))
    (fst (fn (world_after_backoff random delay (fullConfig config) 0 e (snd (fn w)))))
    = AttemptValue v ->
  withRetry random delay fn config w =
  {| result := Returned v;
     invocations := 2;
     world := snd (fn (world_after_backoff random delay (fullConfig config) 0 e
                         (snd (fn w)))) |}.
Proof.
  intros Hmax Hfirst Hre Hsecond. unfold withRetry.
  replace (Z.to_nat (maxRetries (fullConfig config) + 1))
    with (S (S (Z.to_nat (maxRetries (fullConfig config) - 1)))) by lia.
  rewrite (retry_loop_step random delay fn (fullConfig config) _ 0 UndefinedValue 0%nat w e)
    by (auto; lia).
  rewrite retry_loop_last.
  - rewrite Hsecond. reflexivity.
  - lia.
  - rewrite Hsecond. exact I.
Qed.

Lemma withRetry_retries_then_succeeds_witness :
  withRetry Scenario.count_random Scenario.count_delay Scenario.flaky
    Scenario.three_retries 0%nat =
  {| result := Returned 42; invocations := 2; world := 2%nat |}.
Proof.
  apply (withRetry_retries_then_succeeds Scenario.count_random Scenario.count_delay
           Scenario.flaky Scenario.three_retries 0%nat
           (RetryableError "busy" (Some 503) None) 42).
  - simpl. lia.
  - reflexivity.
  - reflexivity.
  - reflexivity.
Defined.

(** X4.  The delay of [calculateBackoff] never exceeds [maxDelayMs].
    With a positive server hint it is [min(retryAfter * 1000,
    maxDelayMs)] and [Math.random()] is not drawn.  Otherwise, for a
    non-negative configuration and a random value in [[0, 1]], it lies
    between the exponential delay and 1.3 times it, both capped at
    [maxDelayMs]. *)
Theorem calculateBackoff_bounds {W : Type} (random : W -> Q * W)
    (attempt : Z) (cfg : RetryConfig) (retryAfter : option Z) (w : W) :
  (fst (calculateBackoff random attempt cfg retryAfter w) <= maxDelayMs cfg)%Q /\
  (forall r, retryAfter = Some r -> 0 < r ->
     calculateBackoff random attempt cfg retryAfter w =
     (Qmin (inject_Z (r * 1000)) (maxDelayMs cfg), w)) /\
  ((retryAfter = None \/ exists r, retryAfter = Some r /\ r <= 0) ->
   (0 <= initialDelayMs cfg)%Q -> (0 <= backoffMultiplier cfg)%Q ->
   (0 <= fst (random w) <= 1)%Q ->
   (Qmin (exponentialDelay cfg attempt) (maxDelayMs cfg)
      <= fst (calculateBackoff random attempt cfg retryAfter w))%Q /\
   (fst (calculateBackoff random attempt cfg retryAfter w)
      <= Qmin ((13 # 10) * exponentialDelay cfg attempt) (maxDelayMs cfg))%Q /\
   snd (calculateBackoff random attempt cfg retryAfter w) = snd (random w)).
Proof.
  split; [|split].
  - unfold calculateBackoff.
    destruct retryAfter as [r|]; [destruct (0 <? r)|];
      try (destruct (random w) as [rnd w']); simpl; apply Q.le_min_r.
  - intros r -> Hr. unfold calculateBackoff.
    destruct (Z.ltb_spec 0 r); [reflexivity | lia].
  - intros Hhint Hinit Hmult [Hlo Hhi].
    assert (Hexp : (0 <= exponentialDelay cfg attempt)%Q).
    { unfold exponentialDelay, pow_index.
      apply Qmult_le_0_compat; [exact Hinit | apply Qpower_0_le; exact Hmult]. }
    assert (Heq : calculateBackoff random attempt cfg retryAfter w =
                  (Qmin (exponentialDelay cfg attempt
                         + fst (random w) * (3 # 10) * exponentialDelay cfg attempt)
                        (maxDelayMs cfg), snd (random w))).
    { unfold calculateBackoff, exponentialDelay.
      destruct Hhint as [-> | (r & -> & Hr)].
      - destruct (random w); reflexivity.
      - destruct (Z.ltb_spec 0 r); [lia|]. destruct (random w); reflexivity. }
    rewrite Heq. simpl.
    set (x := exponentialDelay cfg attempt) in *. set (rnd := fst (random w)) in *.
    assert (Hj0 : (0 <= rnd * (3 # 10) * x)%Q).
    { apply Qmult_le_0_compat; [|exact Hexp].
      apply Qmult_le_0_compat; [exact Hlo | discriminate]. }
    assert (Hj1 : (rnd * (3 # 10) * x <= (3 # 10) * x)%Q).
    { apply Qmult_le_compat_r; [|exact Hexp].
      rewrite <- (Qmult_1_l (3 # 10)) at 2.
      apply Qmult_le_compat_r; [exact Hhi | discriminate]. }
    split; [|split; [|reflexivity]].
    + apply Q.min_le_compat_r.
      rewrite <- (Qplus_0_r x) at 1. apply Qplus_le_compat; [apply Qle_refl | exact Hj0].
    + apply Q.min_le_compat_r.
      apply Qle_trans with (x + (3 # 10) * x)%Q.
      * apply Qplus_le_compat; [apply Qle_refl | exact Hj1].
      * apply Qle_lteq. right. ring.
Qed.

(** X5.  What [callOpenAIAPI] makes of an HTTP response, seen by
    [isRetryableError]: the error of a failed response is retried exactly
    when the status is 429 or at least 500; a successful response without
    content gives a retryable error; and a resolved call carries a
    non-empty content. *)
Theorem api_error_retry_policy (r : http_response) :
  (response_ok r = false ->
   exists e, handle_response r = inl e /\
             (isRetryableError e = true <-> LLM.status r = 429 \/ 500 <= LLM.status r)) /\
  (response_ok r = true ->
   LLM.body r = Some None \/ LLM.body r = Some (Some "") ->
   exists e, handle_response r = inl e /\ isRetryableError e = true) /\
  (forall content, handle_response r = inr content ->
     response_ok r = true /\ content <> "").
Proof.
  unfold handle_response. split; [|split].
  - intros ->. simpl.
    destruct (Z.eqb_spec (LLM.status r) 429) as [H429|H429].
    + eexists. split; [reflexivity|]. simpl. split; auto.
    + destruct (Z.leb_spec 500 (LLM.status r)) as [H500|H500].
      * eexists. split; [reflexivity|]. simpl. split; auto.
      * eexists. split; [reflexivity|]. simpl. split; [discriminate | lia].
  - intros -> Hbody. simpl.
    destruct Hbody as [-> | ->]; eexists; split; reflexivity.
  - intros content. destruct (response_ok r); simpl.
    + destruct (LLM.body r) as [[[|c rest]|]|]; try discriminate.
      intros [= <-]. split; [reflexivity | discriminate].
    + destruct (LLM.status r =? 429); [discriminate|].
      destruct (500 <=? LLM.status r); discriminate.
Qed.

(** X6.  The [retryable] flag of [createErrorResponse] is sound for
    [withRetry]: a flagged error is one [isRetryableError] accepts, and
    for instances of [RetryableError] and [APIError] the two agree.  A
    retry hint is reported only for flagged errors.  The converse fails
    for a plain [Error] with a [statusCode] of at least 500: [withRetry]
    retries it, the response says it is not retryable. *)
Theorem createErrorResponse_retryable_sound (e : js_error)
    (defaultMessage : option string) (timestamp : string) :
  (er_retryable (createErrorResponse e defaultMessage timestamp) = true ->
   isRetryableError e = true) /\
  (instanceofRetryableError e || instanceofAPIError e = true ->
   er_retryable (createErrorResponse e defaultMessage timestamp) = isRetryableError e) /\
  (er_retryAfter (createErrorResponse e defaultMessage timestamp) <> None ->
   er_retryable (createErrorResponse e defaultMessage timestamp) = true) /\
  (forall message statusCode, 500 <= statusCode ->
     isRetryableError (StatusError message statusCode) = true /\
     er_retryable (createErrorResponse (StatusError message statusCode)
                     defaultMessage timestamp) = false).
Proof.
  split; [|split; [|split]].
  - destruct e; simpl; auto; discriminate.
  - destruct e; simpl; auto; discriminate.
  - destruct e; simpl; auto; intros H; contradiction.
  - intros message statusCode H. simpl. split; [|reflexivity].
    destruct (Z.leb_spec 500 statusCode); [reflexivity | lia].
Qed.

(** * Further properties of the language-model layer *)

Lemma truthy_text (s : string) : s <> "" -> truthy (JStr s) = true.
Proof.
  intros Hs. simpl. destruct (String.eqb_spec s ""); [contradiction | reflexivity].
Qed.

Lemma field_or_default_truthy (parsed : json) (key : string) :
  truthy (field_or_default parsed key) = true.
Proof.
  unfold field_or_default.
  destruct parsed as [ | | | | |props]; try reflexivity.
  destruct (lookup_prop key props) as [v|]; [|reflexivity].
  destruct (truthy v) eqn:Hv; [exact Hv | reflexivity].
Qed.

(** Whatever the model wrote, no text field of the parsed result is
    empty or otherwise falsy. *)
Lemma parseLLMResponse_truthy (JSON_parse : string -> option json) (content : string) :
  content <> "" -> all_text_truthy (parseLLMResponse JSON_parse content).
Proof.
  intros Hc. unfold parseLLMResponse, all_text_truthy.
  destruct (JSON_parse _) as [parsed|].
  - destruct parsed; cbn -[field_or_default truthy]; repeat split;
      first [apply field_or_default_truthy | reflexivity | apply truthy_text; exact Hc].
  - cbn -[truthy]. repeat split; first [reflexivity | apply truthy_text; exact Hc].
Qed.

Section ContentFacts.
Context {W : Type}.
Variable random : W -> Q * W.
Variable delay : Q -> W -> W.
Variable fetchOpenAI : messages -> string -> W -> settle http_response * W.

Lemma callOpenAIAPI_content msgs config m (w : W) timeout v :
  attempt_once timeout (fst (callOpenAIAPI fetchOpenAI msgs config m w)) = AttemptValue v ->
  v <> "".
Proof.
  unfold callOpenAIAPI.
  destruct (fetchOpenAI msgs _ w) as [s w1].
  assert (Hres : forall d content,
            fst (match fetchWithTimeout s (timeoutMs config) with
                 | Resolves d r =>
                     match handle_response r with
                     | inl e => (Rejects d e, w1)
                     | inr content => (Resolves d content, w1)
                     end
                 | Rejects d e => (Rejects d e, w1)
                 | Pending => (Pending, w1)
                 end) = Resolves d content -> content <> "").
  { intros d content.
    destruct (fetchWithTimeout s (timeoutMs config)) as [d' r|d' e|]; simpl; try discriminate.
    destruct (handle_response r) as [e|c] eqn:Hh; simpl; [discriminate|].
    intros [= _ <-]. unfold handle_response in Hh.
    destruct (negb (response_ok r)).
    - destruct (LLM.status r =? 429); [discriminate|].
      destruct (500 <=? LLM.status r); discriminate.
    - destruct (LLM.body r) as [[[|a rest]|]|]; try discriminate.
      injection Hh as <-. discriminate. }
  destruct (fst _) as [d c|d e|] eqn:Hs; unfold attempt_once.
  - specialize (Hres d c eq_refl).
    destruct timeout as [ms|]; [destruct (ms =? 0)|]; try (intros [= <-]; exact Hres).
    destruct (d <? timer_delay ms); [intros [= <-]; exact Hres | discriminate].
  - destruct timeout as [ms|]; [destruct (ms =? 0)|]; try discriminate.
    destruct (d <? timer_delay ms); discriminate.
  - destruct timeout as [ms|]; [destruct (ms =? 0)|]; discriminate.
Qed.

Lemma fallback_loop_content msgs config models : forall lastError tried (w : W) v,
  fb_result (fallback_loop random delay fetchOpenAI msgs config models lastError tried w)
    = Returned v ->
  v <> "".
Proof.
  induction models as [|m rest IH]; intros lastError tried w v; simpl; [discriminate|].
  destruct (result _) as [v'|e|] eqn:Hr; simpl.
  - intros [= <-]. unfold withRetry in Hr.
    apply retry_loop_returned in Hr as [w' Hw'].
    eapply callOpenAIAPI_content. exact Hw'.
  - apply IH.
  - discriminate.
Qed.

(** X7.  [callLLM] always returns, and in the result it returns, be it
    the parsed answer of a model, the raw answer when it is not JSON, or
    a default result after a failure, every one of the twelve palace
    fields and the summary is a truthy value: never an empty string. *)
Theorem callLLM_text_never_empty (JSON_parse : string -> option json) (env : Env)
    (astrolabe : Astrolabe) (fortune : option FortuneData) (topics : list string) (w : W) :
  exists r,
    llm_result (callLLM random delay fetchOpenAI JSON_parse env astrolabe fortune topics w)
      = Returned r /\
    all_text_truthy r.
Proof.
  unfold callLLM.
  destruct (String.eqb _ _).
  - eexists. split; [reflexivity|].
    unfold all_text_truthy. simpl. repeat split.
  - match goal with
    | |- context [callOpenAIWithFallback _ _ _ ?m ?c ?x] =>
        destruct (fallback_loop_spec random delay fetchOpenAI m c
                    (buildModels (model c) MODEL_FALLBACK_ORDER) UndefinedValue [] x)
          as (news & _ & _ & _ & Hnh & _);
        pose proof (fallback_loop_content m c
                      (buildModels (model c) MODEL_FALLBACK_ORDER) UndefinedValue [] x)
          as Hcontent
    end.
    unfold callOpenAIWithFallback.
    destruct (fb_result _) as [content|e|]; [| |congruence].
    + eexists. split; [reflexivity|].
      apply parseLLMResponse_truthy. apply Hcontent. reflexivity.
    + eexists. split; [reflexivity|].
      destruct (getDefaultResult_nonempty (Some (failureMessage e)))
        as (H1 & H2 & H3 & H4 & H5 & H6 & H7 & H8 & H9 & H10 & H11 & H12 & H13).
      unfold all_text_truthy.
      repeat split;
        match goal with
        | H : nonempty_text ?x |- truthy ?x = true =>
            destruct H as (s & -> & Hs); apply truthy_text; exact Hs
        end.
Qed.

End ContentFacts.

(** * Further properties of the LRU cache *)

Section SizeFacts.
Context {V : Type}.
Implicit Types (m : list (string * V)) (k : string).

Lemma length_delete_le k m : (length (map_delete k m) <= length m)%nat.
Proof.
  induction m as [|[k' v] m IH]; simpl; [lia|].
  destruct (String.eqb k k'); simpl; lia.
Qed.

Lemma length_delete_lt k m v : map_get k m = Some v -> (length (map_delete k m) < length m)%nat.
Proof.
  induction m as [|[k' v'] m IH]; simpl; [discriminate|].
  destruct (String.eqb k k'); simpl.
  - intros _. pose proof (length_delete_le k m). lia.
  - intros H. specialize (IH H). lia.
Qed.

Lemma length_set_le k v m : (length (map_set k v m) <= S (length m))%nat.
Proof.
  induction m as [|[k' v'] m IH]; simpl; [lia|].
  destruct (String.eqb k k'); simpl; lia.
Qed.

Lemma map_delete_absent k m : map_get k m = None -> map_delete k m = m.
Proof.
  induction m as [|[k' v] m IH]; simpl; [reflexivity|].
  destruct (String.eqb k k'); [discriminate|].
  intros H. rewrite (IH H). reflexivity.
Qed.

(** The first step of [set]: the map without the key. *)
Lemma has_then_delete k m :
  (if map_has k m then map_delete k m else m) = map_delete k m.
Proof.
  unfold map_has. destruct (map_get k m) eqn:H; [reflexivity|].
  symmetry. apply map_delete_absent. exact H.
Qed.

End SizeFacts.

(** X8.  Round trip of [set] and [get]: a value set at time [now] is
    what [get] and [has] answer until [now] plus the effective time to
    live, and it is gone after that; a [ttl] of zero counts as no [ttl],
    so the entry gets the default time to live. *)
Theorem set_then_get {T : Type} (key : string) (v : T) (ttl : option Z)
    (now now' : Z) (c : LRUCache T) :
  (now' <= now + effective_ttl c ttl ->
   fst (Cache.get key now' (Cache.set key v ttl now c)) = Some v /\
   fst (Cache.has key now' (Cache.set key v ttl now c)) = true) /\
  (now + effective_ttl c ttl < now' ->
   fst (Cache.get key now' (Cache.set key v ttl now c)) = None /\
   fst (Cache.has key now' (Cache.set key v ttl now c)) = false) /\
  effective_ttl c (Some 0) = effective_ttl c None.
Proof.
  assert (Hentry : map_get key (cache (Cache.set key v ttl now c)) =
                   Some {| value := v; expiresAt := now + effective_ttl c ttl |}).
  { unfold Cache.set. simpl. rewrite map_get_set_eq. reflexivity. }
  unfold Cache.get, Cache.has. rewrite Hentry. simpl.
  split; [|split; [|reflexivity]]; intros H.
  - destruct (Z.ltb_spec (now + effective_ttl c ttl) now'); [lia | auto].
  - destruct (Z.ltb_spec (now + effective_ttl c ttl) now'); [auto | lia].
Qed.

(** X9.  Capacity: in a cache with [maxSize >= 1] whose keys are not
    the empty string, [set] of a non-empty key never makes the cache
    larger than [maxSize], and the keys stay non-empty. *)
Theorem set_keeps_capacity {T : Type} (key : string) (v : T) (ttl : option Z)
    (now : Z) (c : LRUCache T) :
  1 <= maxSize c -> key <> "" -> keys_nonempty c -> Cache.size c <= maxSize c ->
  Cache.size (Cache.set key v ttl now c) <= maxSize c /\
  keys_nonempty (Cache.set key v ttl now c).
Proof.
  unfold keys_nonempty, recency, Cache.size, map_size.
  intros Hmax Hkey Hkeys Hsize.
  unfold Cache.set. simpl. rewrite has_then_delete.
  set (m1 := map_delete key (cache c)).
  assert (Hlen1 : (length m1 <= length (cache c))%nat) by apply length_delete_le.
  assert (Hkeys1 : Forall (fun k => k <> "") (map fst m1)).
  { apply Forall_forall. intros k Hk. apply keys_delete in Hk as [Hk _].
    rewrite Forall_forall in Hkeys. apply Hkeys. exact Hk. }
  set (m2 := if maxSize c <=? Z.of_nat (length m1)
             then match first_key m1 with
                  | Some (String a rest) => map_delete (String a rest) m1
                  | _ => m1
                  end
             else m1).
  assert (Hlen2 : Z.of_nat (length m2) < maxSize c).
  { subst m2. destruct (Z.leb_spec (maxSize c) (Z.of_nat (length m1))) as [Hfull|]; [|lia].
    destruct m1 as [|[k0 v0] rest] eqn:Hm1; [cbn [length] in *; lia|].
    apply Forall_cons in Hkeys1 as [Hk0 _]. cbn [fst] in Hk0.
    destruct k0 as [|a r]; [contradiction|].
    cbn [first_key fst map_delete]. rewrite String.eqb_refl.
    pose proof (length_delete_le (String a r) rest).
    cbn [length] in *. lia. }
  assert (Hkeys2 : Forall (fun k => k <> "") (map fst m2)).
  { subst m2. destruct (maxSize c <=? Z.of_nat (length m1)); [|exact Hkeys1].
    destruct (first_key m1) as [[|a rest]|]; try exact Hkeys1.
    apply Forall_forall. intros k Hk. apply keys_delete in Hk as [Hk _].
    rewrite Forall_forall in Hkeys1. apply Hkeys1. exact Hk. }
  split.
  - etransitivity; [apply Nat2Z.inj_le, length_set_le|].
    change (Z.of_nat (S (length m2)) <= maxSize c). lia.
  - apply Forall_forall. intros k Hk. apply keys_set in Hk as [->|Hk]; [exact Hkey|].
    rewrite Forall_forall in Hkeys2. apply Hkeys2. exact Hk.
Qed.

Lemma set_keeps_capacity_witness :
  Cache.size (Cache.set "key4" "value4" None 4 Scenario.full_cache) <= 3 /\
  keys_nonempty (Cache.set "key4" "value4" None 4 Scenario.full_cache).
Proof.
  apply (set_keeps_capacity "key4" "value4" None 4 Scenario.full_cache).
  - simpl. lia.
  - discriminate.
  - repeat constructor; discriminate.
  - vm_compute. discriminate.
Defined.

(** X10.  Frame of [set]: besides the key that is set, at most one entry
    is touched, the oldest of the other entries, and only when those
    already fill the cache.  Every other key keeps its entry. *)
Theorem set_touches_only_oldest {T : Type} (key k' : string) (v : T) (ttl : option Z)
    (now : Z) (c : LRUCache T) :
  (k' <> key -> map_size (map_delete key (cache c)) < maxSize c ->
   map_get k' (cache (Cache.set key v ttl now c)) = map_get k' (cache c)) /\
  (k' <> key -> first_key (map_delete key (cache c)) <> Some k' ->
   map_get k' (cache (Cache.set key v ttl now c)) = map_get k' (cache c)).
Proof.
  unfold Cache.set. simpl. rewrite has_then_delete.
  split.
  - intros Hne Hroom.
    destruct (Z.leb_spec (maxSize c) (map_size (map_delete key (cache c)))); [lia|].
    rewrite map_get_set_ne by congruence. apply map_get_delete_ne. congruence.
  - intros Hne Hfirst.
    rewrite map_get_set_ne by congruence.
    destruct (maxSize c <=? _).
    + destruct (first_key _) as [[|a rest]|] eqn:Hf.
      * apply map_get_delete_ne. congruence.
      * rewrite map_get_delete_ne by congruence. apply map_get_delete_ne. congruence.
      * apply map_get_delete_ne. congruence.
    + apply map_get_delete_ne. congruence.
Qed.


(** X11.  [delete] answers whether the key was in the map, also when
    its entry is already past its expiry (where [has] answers false);
    afterwards the key is absent, every other key keeps its entry and the
    cache has not grown.  [clear] leaves an empty cache. *)
Theorem delete_removes_key {T : Type} (key k' : string) (now : Z) (c : LRUCache T) :
  (fst (Cache.delete key c) = true <-> key ∈ recency c) /\
  (forall entry, map_get key (cache c) = Some entry -> expiresAt entry < now ->
     fst (Cache.delete key c) = true /\ fst (Cache.has key now c) = false) /\
  fst (Cache.get key now (snd (Cache.delete key c))) = None /\
  fst (Cache.has key now (snd (Cache.delete key c))) = false /\
  (k' <> key ->
   map_get k' (cache (snd (Cache.delete key c))) = map_get k' (cache c)) /\
  Cache.size (snd (Cache.delete key c)) <= Cache.size c /\
  Cache.size (Cache.clear c) = 0 /\
  fst (Cache.get key now (Cache.clear c)) = None.
Proof.
  unfold Cache.delete, Cache.get, Cache.has, Cache.clear, Cache.size, recency, map_has.
  cbn [fst snd cache with_cache]. rewrite map_get_delete_eq.
  split; [|split; [|split; [|split; [|split; [|split; [|split]]]]]];
    try reflexivity.
  - pose proof (map_get_None_keys key (cache c)) as Hk.
    destruct (map_get key (cache c)) eqn:Hget.
    + split; [intros _|reflexivity].
      destruct (decide (key ∈ map fst (cache c))) as [Hin|Hout]; [exact Hin|].
      apply Hk in Hout. discriminate.
    + split; [discriminate|]. intros Hin. exfalso. apply Hk; auto.
  - intros entry Hget Hexp. rewrite Hget.
    destruct (Z.ltb_spec (expiresAt entry) now); [auto | lia].
  - intros Hne. apply map_get_delete_ne. congruence.
  - unfold map_size. apply Nat2Z.inj_le, length_delete_le.
Qed.

Section FilterFacts.
Context {A : Type}.
Implicit Types (p : A -> bool) (l : list A).

Lemma filter_split_length p l :
  (length (List.filter p l) + length (List.filter (fun x => negb (p x)) l) = length l)%nat.
Proof.
  induction l as [|x l IH]; simpl; [reflexivity|].
  destruct (p x); simpl; lia.
Qed.

Lemma filter_twice p l : List.filter p (List.filter p l) = List.filter p l.
Proof.
  induction l as [|x l IH]; simpl; [reflexivity|].
  destruct (p x) eqn:Hp; simpl; [rewrite Hp, IH; reflexivity | exact IH].
Qed.

Lemma filter_none_left p l : List.filter p (List.filter (fun x => negb (p x)) l) = [].
Proof.
  induction l as [|x l IH]; simpl; [reflexivity|].
  destruct (p x) eqn:Hp; simpl; [exact IH | rewrite Hp; exact IH].
Qed.

End FilterFacts.

(** X12.  [cleanup] removes exactly the entries that are past their
    expiry: the count it returns is the loss in size, the entries that
    have not expired are kept as they are, and a second [cleanup] at the
    same time removes nothing. *)
Theorem cleanup_removes_exactly_expired {T : Type} (key : string) (now : Z)
    (c : LRUCache T) :
  fst (Cache.cleanup now c) = Cache.size c - Cache.size (snd (Cache.cleanup now c)) /\
  0 <= fst (Cache.cleanup now c) /\
  (wf_cache c ->
   map_get key (cache (snd (Cache.cleanup now c))) =
   match map_get key (cache c) with
   | Some entry => if expired now entry then None else Some entry
   | None => None
   end) /\
  Cache.cleanup now (snd (Cache.cleanup now c)) = (0, snd (Cache.cleanup now c)).
Proof.
  unfold Cache.cleanup, Cache.size, map_size, wf_cache, expired.
  cbn [fst snd cache with_cache].
  set (p := fun kv : string * CacheEntry T => expiresAt (snd kv) <? now).
  change (fun kv : string * CacheEntry T => negb (expiresAt (snd kv) <? now))
    with (fun kv => negb (p kv)).
  assert (Hget : NoDup (map fst (cache c)) ->
          map_get key (List.filter (fun kv => negb (p kv)) (cache c)) =
          match map_get key (cache c) with
          | Some entry => if expiresAt entry <? now then None else Some entry
          | None => None
          end).
  { intros Hnd. rewrite map_get_filter by exact Hnd.
    destruct (map_get key (cache c)) as [entry|]; [|reflexivity].
    subst p. cbn [snd]. destruct (expiresAt entry <? now); reflexivity. }
  split; [|split; [|split]].
  - pose proof (filter_split_length p (cache c)). lia.
  - lia.
  - exact Hget.
  - unfold with_cache. cbn [cache maxSize defaultTTL].
    rewrite (filter_none_left p), (filter_twice (fun kv => negb (p kv))).
    reflexivity.
Qed.

(** * Properties of [withCache] *)

(** X13.  Memoization: on a miss [withCache] runs the function once,
    returns its value and stores it under the key; a later call with the
    same key, no later than the entry's time to live after the function
    settled, returns that value without running its function and without
    touching the world. *)
Theorem withCache_memoizes {W T : Type} (now : W -> Z)
    (fn fn' : W -> Retry.settle T * W) (c : LRUCache T) (key : string)
    (ttl : option Z) (w w' : W) (d : Z) (v : T) :
  fst (Cache.get key (now w) c) = None ->
  fst (fn w) = Retry.Resolves d v ->
  now w' <= now (snd (fn w)) + effective_ttl c ttl ->
  let first := withCache now fn c key ttl w in
  let second := withCache now fn' (wc_cache first) key ttl w' in
  wc_result first = Retry.Returned v /\ wc_invocations first = 1%nat /\
  wc_world first = snd (fn w) /\
  wc_result second = Retry.Returned v /\ wc_invocations second = 0%nat /\
  wc_world second = w'.
Proof.
  intros Hmiss Hfn Hlive. cbv zeta.
  assert (Httl : defaultTTL (snd (Cache.get key (now w) c)) = defaultTTL c).
  { unfold Cache.get. destruct (map_get key (cache c)) as [entry|]; [|reflexivity].
    destruct (expiresAt entry <? now w); reflexivity. }
  destruct (Cache.get key (now w) c) as [cached c1] eqn:Hget.
  cbn [fst snd] in Hmiss, Httl. subst cached.
  destruct (fn w) as [s w1] eqn:Hrun. cbn [fst snd] in Hfn, Hlive. subst s.
  assert (Hfirst : withCache now fn c key ttl w =
                   {| wc_result := Retry.Returned v; wc_invocations := 1;
                      wc_cache := Cache.set key v ttl (now w1) c1; wc_world := w1 |}).
  { unfold withCache. rewrite Hget, Hrun. reflexivity. }
  rewrite Hfirst. cbn [wc_result wc_invocations wc_world wc_cache].
  split; [reflexivity|]. split; [reflexivity|]. split; [reflexivity|].
  unfold withCache, Cache.get at 1 2 3, Cache.set.
  cbn [cache with_cache]. rewrite map_get_set_eq. cbn [expiresAt value].
  assert (Hfresh : (now w1 + match ttl with
                             | Some t => if t =? 0 then defaultTTL c1 else t
                             | None => defaultTTL c1
                             end <? now w') = false).
  { apply Z.ltb_ge. rewrite Httl. exact Hlive. }
  rewrite Hfresh. cbn [wc_result wc_invocations wc_world]. auto.
Qed.

Lemma withCache_memoizes_witness :
  let first := withCache id Scenario.slow_answer Scenario.empty_cache "k" None 0 in
  let second := withCache id Scenario.other_answer (wc_cache first) "k" None 500 in
  wc_result first = Retry.Returned "v" /\ wc_invocations first = 1%nat /\
  wc_world first = 10 /\
  wc_result second = Retry.Returned "v" /\ wc_invocations second = 0%nat /\
  wc_world second = 500.
Proof.
  apply (withCache_memoizes id Scenario.slow_answer Scenario.other_answer
           Scenario.empty_cache "k" None 0 500 10 "v").
  - reflexivity.
  - reflexivity.
  - vm_compute. discriminate.
Defined.

(** X14.  Failures are not memoized: when the function rejects on a
    miss, [withCache] throws that error after one invocation, nothing is
    stored under the key, and the next call with the key runs its
    function again. *)
Theorem withCache_failure_not_stored {W T : Type} (now : W -> Z)
    (fn fn' : W -> Retry.settle T * W) (c : LRUCache T) (key : string)
    (ttl : option Z) (w w' : W) (d : Z) (e : Retry.js_error) :
  fst (Cache.get key (now w) c) = None ->
  fst (fn w) = Retry.Rejects d e ->
  let first := withCache now fn c key ttl w in
  wc_result first = Retry.Threw e /\ wc_invocations first = 1%nat /\
  map_get key (cache (wc_cache first)) = None /\
  Cache.size (wc_cache first) <= Cache.size c /\
  wc_invocations (withCache now fn' (wc_cache first) key ttl w') = 1%nat.
Proof.
  intros Hmiss Hfn. cbv zeta.
  assert (Hgone : map_get key (cache (snd (Cache.get key (now w) c))) = None /\
                  Cache.size (snd (Cache.get key (now w) c)) <= Cache.size c).
  { revert Hmiss. unfold Cache.get, Cache.size, map_size.
    destruct (map_get key (cache c)) as [entry|] eqn:Hk;
      [|intros _; cbn [snd]; split; [exact Hk | lia]].
    destruct (expiresAt entry <? now w); [|discriminate].
    intros _. cbn [snd cache with_cache]. split; [apply map_get_delete_eq|].
    apply Nat2Z.inj_le, length_delete_le. }
  destruct (Cache.get key (now w) c) as [cached c1] eqn:Hget.
  cbn [fst snd] in Hmiss, Hgone. subst cached. destruct Hgone as [Hgone Hsize].
  destruct (fn w) as [s w1] eqn:Hrun. cbn [fst] in Hfn. subst s.
  assert (Hfirst : withCache now fn c key ttl w =
                   {| wc_result := Retry.Threw e; wc_invocations := 1;
                      wc_cache := c1; wc_world := w1 |}).
  { unfold withCache. rewrite Hget, Hrun. reflexivity. }
  rewrite Hfirst. cbn [wc_result wc_invocations wc_world wc_cache].
  split; [reflexivity|]. split; [reflexivity|]. split; [exact Hgone|].
  split; [exact Hsize|].
  unfold withCache, Cache.get. rewrite Hgone.
  destruct (fn' w') as [[d' r|d' e'|] w2]; reflexivity.
Qed.

Lemma withCache_failure_not_stored_witness :
  let first := withCache id Scenario.slow_failure Scenario.empty_cache "k" None 0 in
  wc_result first = Retry.Threw (Retry.PlainError "down") /\
  wc_invocations first = 1%nat /\
  map_get "k" (cache (wc_cache first)) = None /\
  Cache.size (wc_cache first) <= Cache.size Scenario.empty_cache /\
  wc_invocations (withCache id Scenario.other_answer (wc_cache first) "k" None 20) = 1%nat.
Proof.
  apply (withCache_failure_not_stored id Scenario.slow_failure Scenario.other_answer
           Scenario.empty_cache "k" None 0 20 10 (Retry.PlainError "down")).
  - reflexivity.
  - reflexivity.
Defined.


(** * Further properties of cache keys *)






(** X17.  The key of the interpretation cache separates the scopes: for
    one chart, selections of different scope never share a key.  A
    missing selection and a selection of scope [natal] share one key,
    whatever else the selection holds, and a missing year, month or day
    gives the same key as zero. *)
Theorem buildInterpretCacheKey_separates_scopes (astrolabe : Astrolabe)
    (f1 f2 : FortuneData) :
  (f_scope f1 <> f_scope f2 ->
   buildInterpretCacheKey astrolabe (Some f1) <> buildInterpretCacheKey astrolabe (Some f2)) /\
  (f_scope f1 = natal ->
   buildInterpretCacheKey astrolabe (Some f1) = buildInterpretCacheKey astrolabe None) /\
  (f_scope f1 = f_scope f2 -> f_decadeRange f1 = f_decadeRange f2 ->
   default 0 (f_year f1) = default 0 (f_year f2) ->
   default 0 (f_month f1) = default 0 (f_month f2) ->
   default 0 (f_day f1) = default 0 (f_day f2) ->
   buildInterpretCacheKey astrolabe (Some f1) = buildInterpretCacheKey astrolabe (Some f2)).
Proof.
  split; [|split].
  - intros Hscope Hkey. apply Hscope. clear Hscope.
    unfold buildInterpretCacheKey, generateCacheKey in Hkey.
    destruct (f_scope f1), (f_scope f2); try reflexivity; exfalso;
      cbn [map key_part to_string String.concat FortuneScope_string] in Hkey;
      apply (String.app_inj "interpret") in Hkey;
      apply (String.app_inj ":") in Hkey;
      apply (String.app_inj (chartId astrolabe)) in Hkey;
      apply (String.app_inj ":") in Hkey;
      vm_compute in Hkey; congruence.
  - intros Hscope. unfold buildInterpretCacheKey. rewrite Hscope. reflexivity.
  - intros Hscope Hdecade Hy Hm Hd. unfold buildInterpretCacheKey, num_or_zero.
    rewrite Hscope, Hdecade, Hy, Hm, Hd. reflexivity.
Qed.


(** * Further properties of the rate limiter *)

Lemma sweep_lookup (t : Z) (key : string) (store : gmap string RateLimitRecord) :
  sweep t store !! key =
  match store !! key with
  | Some record => if resetTime record <? t then None else Some record
  | None => None
  end.
Proof.
  unfold sweep. destruct (store !! key) as [record|] eqn:Hk.
  - destruct (Z.ltb_spec (resetTime record) t) as [Hlt|Hge].
    + apply map_lookup_filter_None. right. intros x Hx.
      rewrite Hk in Hx. injection Hx as <-. simpl. tauto.
    + apply map_lookup_filter_Some. split; [exact Hk|]. simpl. lia.
  - apply map_lookup_filter_None. left. exact Hk.
Qed.

(** X18.  The periodic sweep is invisible: a sweep at a time not later
    than a call changes neither the answer of the call nor the record the
    call leaves for its key. *)
Theorem sweep_preserves_decisions (identifier : string) (config : RateLimitConfig)
    (t now : Z) (store : gmap string RateLimitRecord) :
  t <= now ->
  fst (checkRateLimit identifier config now (sweep t store)) =
    fst (checkRateLimit identifier config now store) /\
  snd (checkRateLimit identifier config now (sweep t store)) !! store_key identifier config =
    snd (checkRateLimit identifier config now store) !! store_key identifier config.
Proof.
  intros Ht. unfold checkRateLimit. rewrite sweep_lookup.
  destruct (store !! store_key identifier config) as [record|] eqn:Hk.
  - destruct (Z.ltb_spec (resetTime record) t) as [Hlt|Hge].
    + destruct (Z.ltb_spec (resetTime record) now); [|lia].
      cbn [fst snd]. rewrite !lookup_insert_eq. auto.
    + destruct (resetTime record <? now).
      * cbn [fst snd]. rewrite !lookup_insert_eq. auto.
      * destruct (maxRequests config <=? count record); cbn [fst snd].
        -- rewrite sweep_lookup, Hk.
           destruct (Z.ltb_spec (resetTime record) t); [lia | auto].
        -- rewrite !lookup_insert_eq. auto.
  - cbn [fst snd]. rewrite !lookup_insert_eq. auto.
Qed.

Lemma sweep_preserves_decisions_witness :
  fst (checkRateLimit "1.2.3.4" RATE_LIMIT_CONFIGS_interpret 20 (sweep 10 Scenario.stale_store)) =
    fst (checkRateLimit "1.2.3.4" RATE_LIMIT_CONFIGS_interpret 20 Scenario.stale_store) /\
  snd (checkRateLimit "1.2.3.4" RATE_LIMIT_CONFIGS_interpret 20 (sweep 10 Scenario.stale_store))
    !! store_key "1.2.3.4" RATE_LIMIT_CONFIGS_interpret =
    snd (checkRateLimit "1.2.3.4" RATE_LIMIT_CONFIGS_interpret 20 Scenario.stale_store)
    !! store_key "1.2.3.4" RATE_LIMIT_CONFIGS_interpret.
Proof.
  apply (sweep_preserves_decisions "1.2.3.4" RATE_LIMIT_CONFIGS_interpret 10 20
           Scenario.stale_store).
  lia.
Defined.

Lemma checkRateLimit_frame (identifier : string) (config : RateLimitConfig) (now : Z)
    (store : gmap string RateLimitRecord) (key' : string) :
  key' <> store_key identifier config ->
  snd (checkRateLimit identifier config now store) !! key' = store !! key'.
Proof.
  intros Hne. unfold checkRateLimit.
  destruct (store !! store_key identifier config) as [record|].
  - destruct (resetTime record <? now); cbn [snd].
    + apply lookup_insert_ne. congruence.
    + destruct (maxRequests config <=? count record); cbn [snd]; [reflexivity|].
      apply lookup_insert_ne. congruence.
  - cbn [snd]. apply lookup_insert_ne. congruence.
Qed.

Lemma checkRateLimit_reads_own_key (identifier : string) (config : RateLimitConfig)
    (now : Z) (store store' : gmap string RateLimitRecord) :
  store' !! store_key identifier config = store !! store_key identifier config ->
  fst (checkRateLimit identifier config now store') =
  fst (checkRateLimit identifier config now store).
Proof.
  intros Hsame. unfold checkRateLimit. rewrite Hsame.
  destruct (store !! store_key identifier config) as [record|]; [|reflexivity].
  destruct (resetTime record <? now); [reflexivity|].
  destruct (maxRequests config <=? count record); reflexivity.
Qed.

(** X19.  Clients are counted apart: a call touches no record but the
    one of its own key, so under one policy the calls of one client never
    change the answer another client gets; and the three policies of the
    application never share a record, whatever the client identifiers. *)
Theorem rate_limit_isolation (identifier other : string) (config : RateLimitConfig)
    (now now' : Z) (store : gmap string RateLimitRecord) (key' : string) :
  (key' <> store_key identifier config ->
   snd (checkRateLimit identifier config now store) !! key' = store !! key') /\
  (other <> identifier ->
   fst (checkRateLimit other config now' (snd (checkRateLimit identifier config now store))) =
   fst (checkRateLimit other config now' store)) /\
  fst (checkRateLimit other RATE_LIMIT_CONFIGS_astrolabe now'
         (snd (checkRateLimit identifier RATE_LIMIT_CONFIGS_interpret now store))) =
    fst (checkRateLimit other RATE_LIMIT_CONFIGS_astrolabe now' store) /\
  fst (checkRateLimit other RATE_LIMIT_CONFIGS_fortune now'
         (snd (checkRateLimit identifier RATE_LIMIT_CONFIGS_interpret now store))) =
    fst (checkRateLimit other RATE_LIMIT_CONFIGS_fortune now' store) /\
  fst (checkRateLimit other RATE_LIMIT_CONFIGS_fortune now'
         (snd (checkRateLimit identifier RATE_LIMIT_CONFIGS_astrolabe now store))) =
    fst (checkRateLimit other RATE_LIMIT_CONFIGS_fortune now' store).
Proof.
  split; [apply checkRateLimit_frame|].
  split.
  - intros Hne. apply checkRateLimit_reads_own_key, checkRateLimit_frame.
    unfold store_key. intros Heq.
    apply (String.app_inj (default "" (keyPrefix config))) in Heq.
    apply (String.app_inj ":") in Heq. contradiction.
  - repeat split; apply checkRateLimit_reads_own_key, checkRateLimit_frame;
      unfold store_key; vm_compute; congruence.
Qed.

(** X20.  Accounting of one call, on any store: afterwards the key has
    a record and the answer reports its reset time; an allowed call
    counted itself ([remaining] is the quota less the stored count, which
    is at least 1); a rejected call leaves the store as it was, in a
    window that is still open and whose count has reached the quota, with
    [remaining = 0] and a non-negative [retryAfter].  With a quota of at
    least 1, [remaining] is never negative. *)
Theorem checkRateLimit_accounting (identifier : string) (config : RateLimitConfig)
    (now : Z) (store : gmap string RateLimitRecord) :
  exists record,
    snd (checkRateLimit identifier config now store) !! store_key identifier config
      = Some record /\
    r_resetTime (fst (checkRateLimit identifier config now store)) = resetTime record /\
    (0 <= windowMs config -> now <= resetTime record) /\
    (allowed (fst (checkRateLimit identifier config now store)) = true ->
     remaining (fst (checkRateLimit identifier config now store))
       = maxRequests config - count record /\
     retryAfter (fst (checkRateLimit identifier config now store)) = None /\
     (count record = 1 \/
      exists old, store !! store_key identifier config = Some old /\
                  count record = count old + 1 /\ resetTime record = resetTime old)) /\
    (allowed (fst (checkRateLimit identifier config now store)) = false ->
     snd (checkRateLimit identifier config now store) = store /\
     maxRequests config <= count record /\
     remaining (fst (checkRateLimit identifier config now store)) = 0 /\
     exists seconds,
       retryAfter (fst (checkRateLimit identifier config now store)) = Some seconds /\
       0 <= seconds /\ resetTime record - now <= 1000 * seconds) /\
    (1 <= maxRequests config ->
     0 <= remaining (fst (checkRateLimit identifier config now store))).
Proof.
  unfold checkRateLimit.
  destruct (store !! store_key identifier config) as [old|] eqn:Hold.
  - destruct (Z.ltb_spec (resetTime old) now) as [Hpast|Hopen].
    + eexists. cbn [fst snd]. rewrite lookup_insert_eq.
      split; [reflexivity|]. cbn.
      split; [reflexivity|]. split; [lia|].
      split; [intros _; auto|]. split; [discriminate | lia].
    + destruct (Z.leb_spec (maxRequests config) (count old)) as [Hfull|Hroom].
      * exists old. cbn [fst snd]. split; [exact Hold|]. cbn.
        split; [reflexivity|]. split; [lia|].
        split; [discriminate|].
        split; [|lia]. intros _.
        split; [reflexivity|]. split; [exact Hfull|]. split; [reflexivity|].
        eexists. split; [reflexivity|].
        pose proof (ceil_div_spec (resetTime old - now)). lia.
      * eexists. cbn [fst snd]. rewrite lookup_insert_eq.
        split; [reflexivity|]. cbn.
        split; [reflexivity|]. split; [lia|].
        split; [intros _; split; [reflexivity|]; split; [reflexivity|]; right; eauto|].
        split; [discriminate | lia].
  - eexists. cbn [fst snd]. rewrite lookup_insert_eq.
    split; [reflexivity|]. cbn.
    split; [reflexivity|]. split; [lia|].
    split; [intros _; auto|]. split; [discriminate | lia].
Qed.


(** * Further properties of the request handler *)

Section HandlerFrame.
Context {W : Type}.
Variable now : W -> Z.
Variable random : W -> Q * W.
Variable delay : Q -> W -> W.
Variable fetchOpenAI : messages -> string -> W -> settle http_response * W.
Variable JSON_parse : string -> option json.
Variable isSupabaseConfigured : bool.
Variable selectInterpretation : string -> string -> FortuneParams -> W -> query_result * W.
Variable upsertInterpretation : string -> string -> FortuneParams -> InterpretResult -> W -> W.
Variable env : Env.

Local Abbreviation handle :=
  (POST now random delay fetchOpenAI JSON_parse isSupabaseConfigured
     selectInterpretation upsertInterpretation env).

(** X21.  A request the rate limiter rejects does no work: the answer is
    the 429 response of the limiter, no tier is consulted, and the rate
    limit store, the memory cache and the world are as before.  The body
    carries the seconds to wait, which are not negative; the
    [Retry-After] header carries the same number, but 60 when it is 0. *)
Theorem rejected_request_does_no_work (request : Request) (s : Server W) :
  allowed (admission now request s) = false ->
  response (handle request s) = Returned (createRateLimitResponse (admission now request s)) /\
  events (handle request s) = [] /\
  server (handle request s) = s /\
  exists seconds,
    0 <= seconds /\
    response (handle request s) =
      Returned {| status := 429;
                  body := RateLimitBody "請求過於頻繁，請稍後再試" (Some seconds);
                  headers :=
                    [("Content-Type", "application/json");
                     ("Retry-After", pretty (if seconds =? 0 then 60 else seconds));
                     ("X-RateLimit-Remaining", "0");
                     ("X-RateLimit-Reset",
                      pretty (r_resetTime (admission now request s)))] |}.
Proof.
  unfold admission, POST. intros Hrej.
  pose proof (checkRateLimit_accounting (getClientIP (req_headers request))
                RATE_LIMIT_CONFIGS_interpret (now (outside s)) (rateLimitStore s))
    as (record & _ & _ & _ & _ & Hdenied & _).
  destruct (Hdenied Hrej) as (Hstore & _ & Hremaining & seconds & Hretry & Hpos & _).
  destruct (checkRateLimit _ _ _ _) as [rl store]. cbn [fst snd] in *.
  rewrite Hrej. cbn [negb response events server].
  split; [reflexivity|]. split; [reflexivity|].
  split; [subst store; destruct s; reflexivity|].
  exists seconds. split; [exact Hpos|].
  unfold createRateLimitResponse. rewrite Hretry, Hremaining. reflexivity.
Qed.

(** X22.  A request that is admitted but has no readable body, or a body
    without a chart, is answered 500, respectively 400, without touching
    the memory cache or the world, and without consulting any tier; it is
    counted by the rate limiter all the same. *)
Theorem request_without_chart_is_charged (request : Request) (s : Server W) :
  admitted now request s ->
  match req_json request with
  | None => True
  | Some b => b_astrolabe b = None
  end ->
  response (handle request s) =
    Returned (match req_json request with
              | None => errorResponse 500 "解釋生成失敗"
              | Some _ => errorResponse 400 "缺少命盤資料"
              end) /\
  events (handle request s) = [] /\
  interpretCache (server (handle request s)) = interpretCache s /\
  outside (server (handle request s)) = outside s /\
  exists record,
    rateLimitStore (server (handle request s))
      !! store_key (getClientIP (req_headers request)) RATE_LIMIT_CONFIGS_interpret
      = Some record /\
    (count record = 1 \/
     exists old,
       rateLimitStore s
         !! store_key (getClientIP (req_headers request)) RATE_LIMIT_CONFIGS_interpret
         = Some old /\
       count record = count old + 1).
Proof.
  unfold admitted, admission, POST. intros Hadm Hbody.
  pose proof (checkRateLimit_accounting (getClientIP (req_headers request))
                RATE_LIMIT_CONFIGS_interpret (now (outside s)) (rateLimitStore s))
    as (record & Hrecord & _ & _ & Hallowed & _).
  destruct (Hallowed Hadm) as (_ & _ & Hcount).
  destruct (checkRateLimit _ _ _ _) as [rl store]. cbn [fst snd] in *.
  rewrite Hadm. cbn [negb].
  assert (Hcharged : exists record,
            store !! store_key (getClientIP (req_headers request))
                       RATE_LIMIT_CONFIGS_interpret = Some record /\
            (count record = 1 \/
             exists old,
               rateLimitStore s !! store_key (getClientIP (req_headers request))
                                     RATE_LIMIT_CONFIGS_interpret = Some old /\
               count record = count old + 1)).
  { exists record. split; [exact Hrecord|].
    destruct Hcount as [H1|(old & Hold & Hc & _)]; [left; exact H1 | right; eauto]. }
  destruct (req_json request) as [b|].
  - rewrite Hbody. cbn [response events server interpretCache outside rateLimitStore].
    auto.
  - cbn [response events server interpretCache outside rateLimitStore]. auto.
Qed.

(** X23.  A request found in the persistent store is answered from it
    with cache source ['supabase']: the language model is not called,
    nothing is written back to the store, and the result fills the memory
    cache for five minutes, so that a second identical request within
    that time is answered from memory without a store lookup. *)
Theorem store_hit_backfills_memory (request request2 : Request) (s : Server W)
    (astrolabe : Astrolabe) (fortune : option FortuneData)
    (topics topics2 : option (list string)) (r : InterpretResult) (w' : W) :
  admitted now request s ->
  carries request astrolabe fortune topics ->
  memory_miss now astrolabe fortune s ->
  fst (getCachedInterpretation isSupabaseConfigured selectInterpretation
         (chartId astrolabe) (getFortuneScope fortune) (buildFortuneParams fortune)
         (outside s)) = Some r ->
  carries request2 astrolabe fortune topics2 ->
  admitted now request2 (elapse (server (handle request s)) w') ->
  now w' <= now (world_after_store isSupabaseConfigured selectInterpretation
                   astrolabe fortune s) + MEMORY_TTL ->
  response (handle request s) = Returned (okResponse (admission now request s) r supabase) /\
  events (handle request s) =
    [MemoryLookup (buildInterpretCacheKey astrolabe fortune);
     StoreLookup (chartId astrolabe) (getFortuneScope fortune);
     MemoryFill (buildInterpretCacheKey astrolabe fortune) r
       (now (world_after_store isSupabaseConfigured selectInterpretation
               astrolabe fortune s) + MEMORY_TTL)] /\
  outside (server (handle request s)) =
    world_after_store isSupabaseConfigured selectInterpretation astrolabe fortune s /\
  response (handle request2 (elapse (server (handle request s)) w')) =
    Returned (okResponse (admission now request2 (elapse (server (handle request s)) w'))
                r memory) /\
  events (handle request2 (elapse (server (handle request s)) w')) =
    [MemoryLookup (buildInterpretCacheKey astrolabe fortune)].
Proof.
  intros Hadm Hbody Hmem Hhit Hbody2 Hadm2 Hlive.
  assert (Hfirst :
    response (handle request s) = Returned (okResponse (admission now request s) r supabase) /\
    events (handle request s) =
      [MemoryLookup (buildInterpretCacheKey astrolabe fortune);
       StoreLookup (chartId astrolabe) (getFortuneScope fortune);
       MemoryFill (buildInterpretCacheKey astrolabe fortune) r
         (now (world_after_store isSupabaseConfigured selectInterpretation
                 astrolabe fortune s) + MEMORY_TTL)] /\
    outside (server (handle request s)) =
      world_after_store isSupabaseConfigured selectInterpretation astrolabe fortune s /\
    interpretCache (server (handle request s)) =
      Cache.set (buildInterpretCacheKey astrolabe fortune) r (Some MEMORY_TTL)
        (now (world_after_store isSupabaseConfigured selectInterpretation
                astrolabe fortune s))
        (cache_after_lookup now astrolabe fortune s)).
  { clear Hbody2 Hadm2 Hlive. revert Hadm Hbody Hmem Hhit.
    unfold admitted, admission, carries, memory_miss, world_after_store,
      cache_after_lookup, POST.
    intros Hadm Hbody Hmem Hhit.
    destruct (checkRateLimit _ _ _ _) as [rl store]. cbn [fst snd] in *.
    rewrite Hadm, Hbody. cbn [negb b_astrolabe b_fortune b_topics]. unfold tiers.
    destruct (Cache.get _ _ _) as [cached c1]. cbn [fst snd] in *. subst cached.
    assert (Hcfg : isSupabaseConfigured = true).
    { destruct isSupabaseConfigured; [reflexivity|].
      unfold getCachedInterpretation in Hhit. discriminate. }
    rewrite Hcfg in *.
    destruct (getCachedInterpretation _ _ _ _ _ _) as [stored w1]. cbn [fst snd] in *.
    subst stored. cbn. auto. }
  destruct Hfirst as (Hresp & Hevents & Hworld & Hcache).
  split; [exact Hresp|]. split; [exact Hevents|]. split; [exact Hworld|].
  destruct (handle_memory_hit now random delay fetchOpenAI JSON_parse isSupabaseConfigured
              selectInterpretation upsertInterpretation env
              request2 (elapse (server (handle request s)) w') astrolabe fortune topics2 r
              Hadm2 Hbody2) as (Hresp2 & Hevents2 & _).
  - cbn [elapse interpretCache outside]. rewrite Hcache.
    apply get_after_set; [discriminate | exact Hlive].
  - split; [exact Hresp2 | exact Hevents2].
Qed.

End HandlerFrame.

Lemma rejected_request_does_no_work_witness :
  response (Scenario.POST_openai_up Scenario.natal_request (Scenario.busy_server 100 50)) =
    Returned (createRateLimitResponse
                (admission Scenario.clock_now Scenario.natal_request
                   (Scenario.busy_server 100 50))) /\
  events (Scenario.POST_openai_up Scenario.natal_request (Scenario.busy_server 100 50)) = [] /\
  server (Scenario.POST_openai_up Scenario.natal_request (Scenario.busy_server 100 50)) =
    Scenario.busy_server 100 50.
Proof.
  destruct (rejected_request_does_no_work Scenario.clock_now Scenario.clock_random
              Scenario.clock_delay Scenario.openai_up Scenario.parse_empty_object false
              Scenario.no_store Scenario.no_upsert Scenario.with_key
              Scenario.natal_request (Scenario.busy_server 100 50))
    as (Hresp & Hevents & Hserver & _).
  - reflexivity.
  - split; [exact Hresp|]. split; [exact Hevents | exact Hserver].
Defined.

Lemma request_without_chart_is_charged_witness :
  response (Scenario.POST_openai_up Scenario.chartless_request (Scenario.fresh_server 1000)) =
    Returned (errorResponse 400 "缺少命盤資料") /\
  events (Scenario.POST_openai_up Scenario.chartless_request (Scenario.fresh_server 1000)) = [].
Proof.
  destruct (request_without_chart_is_charged Scenario.clock_now Scenario.clock_random
              Scenario.clock_delay Scenario.openai_up Scenario.parse_empty_object false
              Scenario.no_store Scenario.no_upsert Scenario.with_key
              Scenario.chartless_request (Scenario.fresh_server 1000))
    as (Hresp & Hevents & _).
  - reflexivity.
  - reflexivity.
  - split; [exact Hresp | exact Hevents].
Defined.

Lemma store_hit_backfills_memory_witness :
  exists first second,
    response (Scenario.POST_full_store Scenario.natal_request (Scenario.fresh_server 1000))
      = Returned first /\
    header "X-Cache-Source" first = Some "supabase" /\
    response (Scenario.POST_full_store Scenario.natal_request
                (elapse (server (Scenario.POST_full_store Scenario.natal_request
                                   (Scenario.fresh_server 1000))) 5000))
      = Returned second /\
    header "X-Cache-Source" second = Some "memory" /\
    body second = body first.
Proof.
  destruct (store_hit_backfills_memory Scenario.clock_now Scenario.clock_random
              Scenario.clock_delay Scenario.openai_down Scenario.parse_empty_object true
              Scenario.full_store Scenario.no_upsert Scenario.with_key
              Scenario.natal_request Scenario.natal_request (Scenario.fresh_server 1000)
              Scenario.chart1 None None None Scenario.stored_answer 5000)
    as (Hfirst & _ & _ & Hsecond & _).
  - reflexivity.
  - reflexivity.
  - reflexivity.
  - reflexivity.
  - reflexivity.
  - reflexivity.
  - vm_compute. discriminate.
  - eexists. eexists.
    split; [exact Hfirst|]. split; [reflexivity|].
    split; [exact Hsecond|]. split; reflexivity.
Defined.


(** * The cost of a failing model chain *)

Section ChainCost.
Context {W : Type}.
Variable random : W -> Q * W.
Variable delay : Q -> W -> W.
Variable fetchOpenAI : messages -> string -> W -> settle http_response * W.

Local Abbreviation call_model msgs config m :=
  (withRetry random delay (callOpenAIAPI fetchOpenAI msgs config m) (fallbackRetryConfig config)).

(** What one attempt of [withRetry] sees of a response that arrives in
    time. *)
Lemma attempt_of_failure msgs config m (w : W) (P : http_response -> Prop) :
  answers_in_time fetchOpenAI config P ->
  exists r,
    P r /\
    attempt_once (Retry.timeoutMs (fullConfig (fallbackRetryConfig config)))
      (fst (callOpenAIAPI fetchOpenAI msgs config m w)) =
    match handle_response r with
    | inl e => AttemptError e
    | inr content => AttemptValue content
    end.
Proof.
  intros Hall. unfold callOpenAIAPI.
  destruct (Hall msgs (str_or (Some m) (model config)) w) as (d & r & Hfetch & Hd & HP).
  destruct (fetchOpenAI msgs _ w) as [s w1]. cbn [fst] in Hfetch. subst s.
  exists r. split; [exact HP|].
  unfold fetchWithTimeout.
  destruct (Z.ltb_spec d (timer_delay (LLM.timeoutMs config))) as [_|]; [|lia].
  change (Retry.timeoutMs (fullConfig (fallbackRetryConfig config)))
    with (Some (LLM.timeoutMs config)).
  destruct (handle_response r) as [e|content]; cbn [fst attempt_once].
  - destruct (LLM.timeoutMs config =? 0); [reflexivity|].
    destruct (Z.ltb_spec d (timer_delay (LLM.timeoutMs config))); [reflexivity | lia].
  - destruct (LLM.timeoutMs config =? 0); [reflexivity|].
    destruct (Z.ltb_spec d (timer_delay (LLM.timeoutMs config))); [reflexivity | lia].
Qed.

(** A chain all of whose models throw after [n] invocations is tried to
    its end. *)
Lemma fallback_loop_all_throw msgs config (n : nat) (Q : js_error -> Prop) models :
  (forall m (w : W),
     invocations (call_model msgs config m w) = n /\
     exists e, result (call_model msgs config m w) = Threw e /\ Q e) ->
  forall lastError tried (w : W),
  exists news,
    fb_tried (fallback_loop random delay fetchOpenAI msgs config models lastError tried w)
      = tried ++ news /\
    map tm_model news = models /\
    Forall (fun t => tm_invocations t = n /\ threw t) news /\
    (models <> [] ->
     exists e,
       fb_result (fallback_loop random delay fetchOpenAI msgs config models lastError tried w)
         = Threw e /\ Q e).
Proof.
  intros Hall. induction models as [|m rest IH]; intros lastError tried w.
  - exists []. cbn [fallback_loop fb_tried]. rewrite app_nil_r.
    split; [reflexivity|]. split; [reflexivity|]. split; [constructor|]. congruence.
  - cbn [fallback_loop].
    destruct (Hall m w) as (Hinv & e & Hres & HQ). rewrite Hres, Hinv.
    match goal with
    | |- context [fallback_loop _ _ _ _ _ rest ?l ?t ?x] =>
        destruct (IH l t x) as (news & Htried & Hmodels & Hnews & Hlast)
    end.
    exists ({| tm_model := m; tm_invocations := n; tm_outcome := Threw e |} :: news).
    rewrite Htried, <- app_assoc. split; [reflexivity|].
    split; [cbn [map tm_model]; rewrite Hmodels; reflexivity|].
    split; [constructor; [split; [reflexivity | exists e; reflexivity] | exact Hnews]|].
    intros _. destruct rest as [|m' rest'].
    + cbn [fallback_loop fb_result]. exists e. auto.
    + apply Hlast. discriminate.
Qed.

Lemma buildModels_nonempty preferred fallbacks : buildModels preferred fallbacks <> [].
Proof.
  unfold buildModels.
  assert (H : forall acc, acc <> [] ->
            fold_left (fun models fallbackModel =>
                         if bool_decide (fallbackModel ∈ models) then models
                         else models ++ [fallbackModel]) fallbacks acc <> []).
  { induction fallbacks as [|f rest IH]; intros acc Hacc; cbn [fold_left]; [exact Hacc|].
    apply IH. destruct (bool_decide (f ∈ acc)); [exact Hacc|].
    destruct acc; [contradiction | discriminate]. }
  apply H. discriminate.
Qed.

(** X25.  An outage costs three requests per model: when OpenAI answers
    every request with a status of 500 or above, [callOpenAIWithFallback]
    tries every model of the chain, invokes the API exactly three times
    for each, and throws a retryable error. *)
Theorem outage_costs_three_calls_per_model (msgs : messages) (config : LLMConfig) (w : W) :
  answers_in_time fetchOpenAI config server_failure ->
  map tm_model (fb_tried (callOpenAIWithFallback random delay fetchOpenAI msgs config w)) =
    buildModels (model config) MODEL_FALLBACK_ORDER /\
  Forall (fun t => tm_invocations t = 3%nat /\ threw t)
    (fb_tried (callOpenAIWithFallback random delay fetchOpenAI msgs config w)) /\
  exists e,
    fb_result (callOpenAIWithFallback random delay fetchOpenAI msgs config w) = Threw e /\
    isRetryableError e = true.
Proof.
  intros Hall. unfold callOpenAIWithFallback.
  destruct (fallback_loop_all_throw msgs config 3 (fun e => isRetryableError e = true)
              (buildModels (model config) MODEL_FALLBACK_ORDER)) with
    (lastError := UndefinedValue) (tried := @nil model_try) (w := w)
    as (news & Htried & Hmodels & Hnews & Hlast).
  - intros m w0.
    assert (Hattempt : forall w', exists e,
              attempt_once (Retry.timeoutMs (fullConfig (fallbackRetryConfig config)))
                (fst (callOpenAIAPI fetchOpenAI msgs config m w')) = AttemptError e /\
              isRetryableError e = true).
    { intros w'.
      destruct (attempt_of_failure msgs config m w' server_failure Hall) as (r & Hr & Ha).
      revert Ha. unfold handle_response, server_failure, response_ok in *.
      destruct (Z.leb_spec (LLM.status r) 299); [lia|]. rewrite andb_false_r.
      cbn [negb].
      destruct (LLM.status r =? 429); [intros ->; eexists; split; reflexivity|].
      destruct (Z.leb_spec 500 (LLM.status r)); [|lia].
      intros ->. eexists. split; reflexivity. }
    unfold withRetry.
    destruct (retry_loop_exhausts random delay (callOpenAIAPI fetchOpenAI msgs config m)
                (fullConfig (fallbackRetryConfig config)) 2 0 UndefinedValue 0 w0 Hattempt
                ltac:(reflexivity)) as (Hinv & e & w' & Hres & _ & Hre).
    split; [exact Hinv|]. exists e. split; [exact Hres | exact Hre].
  - rewrite Htried. cbn [app].
    split; [exact Hmodels|]. split; [exact Hnews|].
    apply Hlast. apply buildModels_nonempty.
Qed.

(** X26.  A client error is not retried: when OpenAI answers every
    request with a status from 300 to 499 other than 429,
    [callOpenAIWithFallback] still tries every model of the chain, but
    invokes the API exactly once for each, and throws an error that is
    not retryable. *)
Theorem client_error_costs_one_call_per_model (msgs : messages) (config : LLMConfig) (w : W) :
  answers_in_time fetchOpenAI config client_failure ->
  map tm_model (fb_tried (callOpenAIWithFallback random delay fetchOpenAI msgs config w)) =
    buildModels (model config) MODEL_FALLBACK_ORDER /\
  Forall (fun t => tm_invocations t = 1%nat /\ threw t)
    (fb_tried (callOpenAIWithFallback random delay fetchOpenAI msgs config w)) /\
  exists e,
    fb_result (callOpenAIWithFallback random delay fetchOpenAI msgs config w) = Threw e /\
    isRetryableError e = false.
Proof.
  intros Hall. unfold callOpenAIWithFallback.
  destruct (fallback_loop_all_throw msgs config 1 (fun e => isRetryableError e = false)
              (buildModels (model config) MODEL_FALLBACK_ORDER)) with
    (lastError := UndefinedValue) (tried := @nil model_try) (w := w)
    as (news & Htried & Hmodels & Hnews & Hlast).
  - intros m w0.
    destruct (attempt_of_failure msgs config m w0 client_failure Hall) as (r & Hr & Ha).
    assert (He : exists e,
              attempt_once (Retry.timeoutMs (fullConfig (fallbackRetryConfig config)))
                (fst (callOpenAIAPI fetchOpenAI msgs config m w0)) = AttemptError e /\
              isRetryableError e = false).
    { revert Ha. unfold handle_response, client_failure, response_ok in *.
      destruct Hr as [Hr H429].
      destruct (Z.leb_spec (LLM.status r) 299); [lia|]. rewrite andb_false_r.
      cbn [negb].
      destruct (Z.eqb_spec (LLM.status r) 429); [contradiction|].
      destruct (Z.leb_spec 500 (LLM.status r)); [lia|].
      intros ->. eexists. split; reflexivity. }
    destruct He as (e & He & Hnr).
    unfold withRetry.
    change (Z.to_nat (maxRetries (fullConfig (fallbackRetryConfig config)) + 1)) with 3%nat.
    rewrite retry_loop_last.
    + rewrite He. cbn [invocations result attempt_outcome]. split; [reflexivity|].
      exists e. split; [reflexivity | exact Hnr].
    + cbn. lia.
    + rewrite He. right. exact Hnr.
  - rewrite Htried. cbn [app].
    split; [exact Hmodels|]. split; [exact Hnews|].
    apply Hlast. apply buildModels_nonempty.
Qed.

End ChainCost.

Lemma outage_costs_three_calls_per_model_witness :
  map tm_model (fb_tried (callOpenAIWithFallback Scenario.clock_random Scenario.clock_delay
                            Scenario.openai_down Scenario.natal_messages
                            (getLLMConfig Scenario.with_key) 0)) =
    buildModels (model (getLLMConfig Scenario.with_key)) MODEL_FALLBACK_ORDER /\
  Forall (fun t => tm_invocations t = 3%nat /\ threw t)
    (fb_tried (callOpenAIWithFallback Scenario.clock_random Scenario.clock_delay
                 Scenario.openai_down Scenario.natal_messages
                 (getLLMConfig Scenario.with_key) 0)).
Proof.
  destruct (outage_costs_three_calls_per_model Scenario.clock_random Scenario.clock_delay
              Scenario.openai_down Scenario.natal_messages
              (getLLMConfig Scenario.with_key) 0) as (Hmodels & Htries & _).
  - intros msgs m w. exists 120, Scenario.server_error.
    split; [reflexivity|]. split; [reflexivity|]. unfold server_failure. simpl. lia.
  - split; [exact Hmodels | exact Htries].
Defined.

Lemma client_error_costs_one_call_per_model_witness :
  map tm_model (fb_tried (callOpenAIWithFallback Scenario.clock_random Scenario.clock_delay
                            Scenario.openai_refuses Scenario.natal_messages
                            (getLLMConfig Scenario.with_key) 0)) =
    buildModels (model (getLLMConfig Scenario.with_key)) MODEL_FALLBACK_ORDER /\
  Forall (fun t => tm_invocations t = 1%nat /\ threw t)
    (fb_tried (callOpenAIWithFallback Scenario.clock_random Scenario.clock_delay
                 Scenario.openai_refuses Scenario.natal_messages
                 (getLLMConfig Scenario.with_key) 0)).
Proof.
  destruct (client_error_costs_one_call_per_model Scenario.clock_random Scenario.clock_delay
              Scenario.openai_refuses Scenario.natal_messages
              (getLLMConfig Scenario.with_key) 0) as (Hmodels & Htries & _).
  - intros msgs m w. exists 80, Scenario.unauthorized.
    split; [reflexivity|]. split; [reflexivity|]. unfold client_failure. simpl. lia.
  - split; [exact Hmodels | exact Htries].
Defined.


(** * The order of eviction *)

Lemma map_set_absent {V : Type} (k : string) (v : V) (m : list (string * V)) :
  map_get k m = None -> map_set k v m = m ++ [(k, v)].
Proof.
  induction m as [|[k' v'] m IH]; simpl; [reflexivity|].
  destruct (String.eqb k k'); [discriminate|].
  intros H. rewrite (IH H). reflexivity.
Qed.

(** X27.  Least recently used: when the cache is full, its keys are
    pairwise distinct and the oldest key is not the empty string, a
    [set] of a key that is not in the cache drops exactly the oldest
    entry and appends the new one; the size stays the same. *)
Theorem set_evicts_least_recent {T : Type} (key k0 : string) (e0 : CacheEntry T)
    (rest : list (string * CacheEntry T)) (v : T) (ttl : option Z) (now : Z)
    (c : LRUCache T) :
  wf_cache c ->
  cache c = (k0, e0) :: rest ->
  k0 <> "" ->
  key ∉ recency c ->
  maxSize c <= Cache.size c ->
  cache (Cache.set key v ttl now c) =
    rest ++ [(key, {| value := v; expiresAt := now + effective_ttl c ttl |})] /\
  recency (Cache.set key v ttl now c) = map fst rest ++ [key] /\
  Cache.size (Cache.set key v ttl now c) = Cache.size c.
Proof.
  unfold wf_cache, recency, Cache.size, map_size. intros Hnd Hc Hk0 Hkey Hfull.
  assert (Habsent : map_get key (cache c) = None) by (apply map_get_None_keys; exact Hkey).
  assert (Hcache :
    cache (Cache.set key v ttl now c) =
    rest ++ [(key, {| value := v; expiresAt := now + effective_ttl c ttl |})]).
  { unfold Cache.set. cbn [cache with_cache]. rewrite has_then_delete.
    rewrite (map_delete_absent key (cache c) Habsent).
    unfold map_size.
    destruct (Z.leb_spec (maxSize c) (Z.of_nat (length (cache c)))); [|lia].
    rewrite Hc in *. cbn [first_key fst map_delete].
    destruct k0 as [|a r]; [contradiction|].
    rewrite String.eqb_refl.
    cbn [map fst] in Hnd. apply NoDup_cons in Hnd as [Hnotin _].
    rewrite (map_delete_absent (String a r) rest)
      by (apply map_get_None_keys; exact Hnotin).
    apply map_set_absent.
    cbn [map_get] in Habsent. destruct (String.eqb key (String a r)); [discriminate|].
    exact Habsent. }
  rewrite Hcache. split; [reflexivity|].
  split; [rewrite map_app; reflexivity|].
  rewrite Hc, length_app. cbn [length]. lia.
Qed.

Lemma set_evicts_least_recent_witness :
  recency (Cache.set "key4" "value4" None 4 Scenario.full_cache) =
    ["key2"; "key3"] ++ ["key4"] /\
  Cache.size (Cache.set "key4" "value4" None 4 Scenario.full_cache) =
    Cache.size Scenario.full_cache.
Proof.
  destruct (set_evicts_least_recent "key4" "key1"
              {| value := "value1"%string; expiresAt := 1001 |}
              [("key2", {| value := "value2"%string; expiresAt := 1002 |});
               ("key3", {| value := "value3"%string; expiresAt := 1003 |})]
              "value4"%string None 4 Scenario.full_cache) as (_ & Hrecency & Hsize).
  - unfold wf_cache. compute_done.
  - reflexivity.
  - discriminate.
  - unfold recency. compute_done.
  - vm_compute. discriminate.
  - split; [exact Hrecency | exact Hsize].
Defined.

(** X28.  Reading refreshes, asking does not: a [get] that finds a live
    entry moves its key to the most recently used end and keeps the order
    of the other keys; [has] leaves the cache as it is.  In a cache that
    is not over its capacity, a [set] of a key that is in the cache moves
    the key to the most recently used end and evicts nothing. *)
Theorem recency_refreshed_by_get_and_set {T : Type} (key : string) (entry : CacheEntry T)
    (v : T) (ttl : option Z) (now : Z) (c : LRUCache T) :
  map_get key (cache c) = Some entry ->
  (now <= expiresAt entry ->
   cache (snd (Cache.get key now c)) = map_delete key (cache c) ++ [(key, entry)] /\
   snd (Cache.has key now c) = c) /\
  (Cache.size c <= maxSize c ->
   cache (Cache.set key v ttl now c) =
     map_delete key (cache c) ++
     [(key, {| value := v; expiresAt := now + effective_ttl c ttl |})]).
Proof.
  intros Hentry. split.
  - intros Hlive. unfold Cache.get, Cache.has. rewrite Hentry.
    destruct (Z.ltb_spec (expiresAt entry) now); [lia|].
    cbn [snd cache with_cache]. split; [|reflexivity].
    apply map_set_absent, map_get_delete_eq.
  - unfold Cache.size, map_size. intros Hsize.
    unfold Cache.set. cbn [cache with_cache]. rewrite has_then_delete.
    pose proof (length_delete_lt key (cache c) entry Hentry) as Hlt.
    unfold map_size.
    destruct (Z.leb_spec (maxSize c) (Z.of_nat (length (map_delete key (cache c)))));
      [lia|].
    apply map_set_absent, map_get_delete_eq.
Qed.

Lemma recency_refreshed_by_get_and_set_witness :
  recency (snd (Cache.get "key1" 4 Scenario.full_cache)) = ["key2"; "key3"; "key1"] /\
  recency (Cache.set "key1" "again" None 4 Scenario.full_cache) = ["key2"; "key3"; "key1"].
Proof.
  destruct (recency_refreshed_by_get_and_set "key1"
              {| value := "value1"%string; expiresAt := 1001 |}
              "again"%string None 4 Scenario.full_cache) as (Hget & Hset).
  - reflexivity.
  - split.
    + unfold recency. rewrite (proj1 (Hget ltac:(simpl; lia))). reflexivity.
    + unfold recency. rewrite (Hset ltac:(vm_compute; discriminate)). reflexivity.
Defined.


(** * The rate limit of the handler *)

Section HandlerQuota.
Context {W : Type}.
Variable now : W -> Z.
Variable random : W -> Q * W.
Variable delay : Q -> W -> W.
Variable fetchOpenAI : messages -> string -> W -> settle http_response * W.
Variable JSON_parse : string -> option json.
Variable isSupabaseConfigured : bool.
Variable selectInterpretation : string -> string -> FortuneParams -> W -> query_result * W.
Variable upsertInterpretation : string -> string -> FortuneParams -> InterpretResult -> W -> W.
Variable env : Env.

Local Abbreviation handle :=
  (POST now random delay fetchOpenAI JSON_parse isSupabaseConfigured
     selectInterpretation upsertInterpretation env).

(** Every request is answered; only a rejection by the limiter is
    answered 429; and the store of the limiter afterwards is the one
    [checkRateLimit] leaves. *)
Lemma POST_answer (request : Request) (s : Server W) :
  exists resp,
    response (handle request s) = Returned resp /\
    (status resp = 429 <-> allowed (admission now request s) = false) /\
    rateLimitStore (server (handle request s)) =
      snd (checkRateLimit (getClientIP (req_headers request)) RATE_LIMIT_CONFIGS_interpret
             (now (outside s)) (rateLimitStore s)).
Proof.
  unfold admission, POST.
  destruct (checkRateLimit _ _ _ _) as [rl store]. cbn [fst snd].
  destruct (allowed rl); cbn [negb];
    [|eexists; split; [reflexivity|]; split; [|reflexivity]; cbn; tauto].
  assert (Hno : forall code : Z, code <> 429 -> code = 429 <-> true = false)
    by (intros code Hc; split; [contradiction | discriminate]).
  destruct (req_json request) as [b|];
    [|eexists; split; [reflexivity|]; split; [apply Hno; discriminate | reflexivity]].
  destruct (b_astrolabe b) as [astrolabe|];
    [|eexists; split; [reflexivity|]; split; [apply Hno; discriminate | reflexivity]].
  unfold tiers.
  destruct (Cache.get _ _ _) as [[cached|] c1];
    [eexists; split; [reflexivity|]; split; [apply Hno; discriminate | reflexivity]|].
  destruct (if isSupabaseConfigured then _ else _) as [[stored|] w1];
    [eexists; split; [reflexivity|]; split; [apply Hno; discriminate | reflexivity]|].
  destruct (callLLM_returns random delay fetchOpenAI JSON_parse env astrolabe (b_fortune b)
              (default [] (b_topics b)) w1) as [r Hr].
  rewrite Hr.
  eexists; split; [reflexivity|]; split; [apply Hno; discriminate | reflexivity].
Qed.

Lemma serve_in_window (ip : string) (reset : Z) (requests : list (Request * W)) :
  forall (c : Z) (s : Server W),
  rateLimitStore s !! store_key ip RATE_LIMIT_CONFIGS_interpret
    = Some {| count := c; resetTime := reset |} ->
  Forall (arrives_from now ip reset) requests ->
  c + Z.of_nat (length requests) <= 10 ->
  Forall served (fst (serve handle requests s)) /\
  length (fst (serve handle requests s)) = length requests /\
  rateLimitStore (snd (serve handle requests s)) !! store_key ip RATE_LIMIT_CONFIGS_interpret
    = Some {| count := c + Z.of_nat (length requests); resetTime := reset |}.
Proof.
  induction requests as [|[request w] later IH]; intros c s Hrec Hin Hquota.
  - cbn [serve fst snd length]. split; [constructor|]. split; [reflexivity|].
    rewrite Z.add_0_r. exact Hrec.
  - apply Forall_cons in Hin as [[Hip Hnow] Hlater]. cbn [fst snd] in Hip, Hnow.
    cbn [length] in Hquota.
    destruct (POST_answer request (elapse s w)) as (resp & Hresp & H429 & Hstore).
    unfold admission in H429. cbn [elapse outside rateLimitStore] in H429, Hstore.
    rewrite Hip in H429, Hstore.
    rewrite (call_in_window ip RATE_LIMIT_CONFIGS_interpret (now w) c reset
               (rateLimitStore s) Hrec Hnow) in H429, Hstore
      by (cbn [maxRequests RATE_LIMIT_CONFIGS_interpret]; lia).
    cbn [fst snd allowed] in H429, Hstore.
    destruct (IH (c + 1) (server (handle request (elapse s w)))) as (Hserved & Hlen & Hfinal).
    + rewrite Hstore. apply lookup_insert_eq.
    + exact Hlater.
    + lia.
    + cbn [serve]. destruct (serve handle later _) as [answers s'].
      cbn [fst snd] in *. split.
      * constructor; [|exact Hserved]. exists resp. split; [exact Hresp|].
        intros H. apply H429 in H. discriminate.
      * split; [cbn [length]; rewrite Hlen; reflexivity|].
        rewrite Hfinal. do 2 f_equal. cbn [length]. lia.
Qed.


(** X29.  Ten requests a minute: from the request of a client that
    opens a window, that request and the next nine of the client that
    arrive within the window are answered, whatever their bodies and
    whatever becomes of them; the next request of the client within the
    window is answered 429. *)
Theorem eleventh_request_rejected (ip : string) (first last : Request) (w0 w : W)
    (others : list (Request * W)) (s : Server W) :
  getClientIP (req_headers first) = ip ->
  window_opens (store_key ip RATE_LIMIT_CONFIGS_interpret) (now w0) (rateLimitStore s) ->
  length others = 9%nat ->
  Forall (arrives_from now ip (now w0 + 60 * 1000)) others ->
  arrives_from now ip (now w0 + 60 * 1000) (last, w) ->
  Forall served (fst (serve handle ((first, w0) :: others) s)) /\
  length (fst (serve handle ((first, w0) :: others) s)) = 10%nat /\
  exists resp,
    response (handle last (elapse (snd (serve handle ((first, w0) :: others) s)) w))
      = Returned resp /\
    status resp = 429.
Proof.
  intros Hip Hopen Hcount Hothers [Hlast Hnow]. cbn [fst snd] in Hlast, Hnow.
  destruct (POST_answer first (elapse s w0)) as (resp & Hresp & H429 & Hstore).
  unfold admission in H429. cbn [elapse outside rateLimitStore] in H429, Hstore.
  rewrite Hip in H429, Hstore.
  rewrite (call_opens_window ip RATE_LIMIT_CONFIGS_interpret (now w0) (rateLimitStore s) Hopen)
    in H429, Hstore.
  cbn [fst snd allowed windowMs RATE_LIMIT_CONFIGS_interpret] in H429, Hstore.
  destruct (serve_in_window ip (now w0 + 60 * 1000) others 1
              (server (handle first (elapse s w0)))) as (Hserved & Hlen & Hfinal).
  - rewrite Hstore. apply lookup_insert_eq.
  - exact Hothers.
  - rewrite Hcount. lia.
  - cbn [serve]. destruct (serve handle others _) as [answers s'].
    cbn [fst snd] in *. split; [|split].
    + constructor; [|exact Hserved]. exists resp. split; [exact Hresp|].
      intros H. apply H429 in H. discriminate.
    + cbn [length]. rewrite Hlen, Hcount. reflexivity.
    + destruct (POST_answer last (elapse s' w)) as (resp' & Hresp' & H429' & _).
      exists resp'. split; [exact Hresp'|]. apply H429'.
      unfold admission. cbn [elapse outside rateLimitStore]. rewrite Hlast.
      rewrite (call_over_quota ip RATE_LIMIT_CONFIGS_interpret (now w)
                 (1 + Z.of_nat (length others)) (now w0 + 60 * 1000) (rateLimitStore s')
                 Hfinal Hnow)
        by (rewrite Hcount; cbn [maxRequests RATE_LIMIT_CONFIGS_interpret]; lia).
      reflexivity.
Qed.

End HandlerQuota.

Lemma eleventh_request_rejected_witness :
  Forall served
    (fst (serve Scenario.POST_openai_down
            ((Scenario.natal_request, 1000) :: replicate 9 (Scenario.chartless_request, 2000))
            (Scenario.fresh_server 0))) /\
  exists resp,
    response (Scenario.POST_openai_down Scenario.natal_request
                (elapse (snd (serve Scenario.POST_openai_down
                                ((Scenario.natal_request, 1000) ::
                                 replicate 9 (Scenario.chartless_request, 2000))
                                (Scenario.fresh_server 0))) 3000))
      = Returned resp /\
    status resp = 429.
Proof.
  destruct (eleventh_request_rejected Scenario.clock_now Scenario.clock_random
              Scenario.clock_delay Scenario.openai_down Scenario.parse_empty_object false
              Scenario.no_store Scenario.no_upsert Scenario.with_key
              "1.2.3.4" Scenario.natal_request Scenario.natal_request 1000 3000
              (replicate 9 (Scenario.chartless_request, 2000)) (Scenario.fresh_server 0))
    as (Hserved & _ & Hlast).
  - reflexivity.
  - exact I.
  - reflexivity.
  - repeat (constructor; [split; [reflexivity | vm_compute; discriminate]|]). constructor.
  - split; [reflexivity | vm_compute; discriminate].
  - split; [exact Hserved | exact Hlast].
Defined.
